(** * svag-money: amounts in cents and their formatted strings

    A shallow embedding of [src/src/index.ts] (the current revision of
    [createMoneyThings]) and of the formatter of [src/unnamed/part_000]
    (an earlier revision of the same file), with a model of the JavaScript
    built-ins the code calls, followed by the properties of the
    specification.

    Conventions of the model.
    - A JavaScript string is a list of UTF-16 code units ([jsstring]); a
      string literal of the source is decoded from its UTF-8 bytes, so
      that the no-break space of the default thousands separator and each
      currency symbol are one character. The classes [\s] and [\d] and
      the white space [parseFloat] skips are those of ECMAScript.
    - A JavaScript number is a binary64 value: [NaN], an infinity, the
      negative zero or a finite value, held as the rational it is. The
      operations that can be inexact ([x * 100], [x / 100], [Number] of a
      BigInt, [parseFloat]) round their exact result to the nearest
      binary64 value, a tie going to the even significand, and overflow to
      an infinity ([r64]).
    - A call that can throw returns an [outcome]. *)

From Stdlib Require Import String Ascii List ZArith NArith QArith Qround Qabs Qpower.
From Stdlib Require Import Qreduction Bool Lia Lqa.
From Stdlib Require Qcanon.
Import ListNotations.

Local Open Scope Z_scope.

(** ** Strings *)

Module JS.

(** A UTF-16 code unit. *)
Definition char := N.

Definition jsstring := list char.

Module Char.
Definition eqb (a b : char) : bool := N.eqb a b.
End Char.

(** The code units of a text given by its UTF-8 bytes; a character
    outside the basic plane becomes its two surrogates. *)
Fixpoint utf16 (bytes : list N) : jsstring :=
  match bytes with
  | [] => []
  | a :: r =>
      if (a <? 128)%N then a :: utf16 r
      else if (a <? 224)%N then
        match r with
        | b :: r' => ((a - 192) * 64 + (b - 128))%N :: utf16 r'
        | [] => []
        end
      else if (a <? 240)%N then
        match r with
        | b :: c :: r' =>
            ((a - 224) * 4096 + (b - 128) * 64 + (c - 128))%N :: utf16 r'
        | _ => []
        end
      else
        match r with
        | b :: c :: d :: r' =>
            let p := ((a - 240) * 262144 + (b - 128) * 4096 + (c - 128) * 64
                      + (d - 128) - 65536)%N in
            (55296 + p / 1024)%N :: (56320 + p mod 1024)%N :: utf16 r'
        | _ => []
        end
  end.

Definition char_of_bytes (bytes : list Byte.byte) : option N :=
  match utf16 (map (fun b => N_of_ascii (ascii_of_byte b)) bytes) with
  | [c] => Some c
  | _ => None
  end.

Definition bytes_of_char (c : N) : option (list Byte.byte) :=
  if (c <? 128)%N then Some [byte_of_ascii (ascii_of_N c)] else None.

Undelimit Scope char_scope.
Declare Scope jschar_scope.
Delimit Scope jschar_scope with char.
String Notation N char_of_bytes bytes_of_char : jschar_scope.
Bind Scope jschar_scope with char.
Arguments Char.eqb (a b)%_char.

(** A string literal of the source. *)
Definition str (s : String.string) : jsstring :=
  utf16 (map N_of_ascii (list_ascii_of_string s)).
Arguments str s%_string.

(** U+00A0, the no-break space. *)
Definition NBSP : char := 160%N.

Definition code (c : char) : Z := Z.of_N c.

(** [\d] *)
Definition isDigit (c : char) : bool := (48 <=? c)%N && (c <=? 57)%N.

(** [\s], and the white space [parseFloat] skips: WhiteSpace (TAB, VT, FF,
    U+FEFF and the space separators SP, U+00A0, U+1680, U+2000 to U+200A,
    U+202F, U+205F, U+3000) and LineTerminator (LF, CR, U+2028, U+2029). *)
Definition isWhiteSpace (c : char) : bool :=
  ((9 <=? c)%N && (c <=? 13)%N) || (c =? 32)%N || (c =? 160)%N || (c =? 5760)%N
  || ((8192 <=? c)%N && (c <=? 8202)%N) || (c =? 8232)%N || (c =? 8233)%N
  || (c =? 8239)%N || (c =? 8287)%N || (c =? 12288)%N || (c =? 65279)%N.

(** LineTerminator; [.] matches everything else. *)
Definition isLineTerminator (c : char) : bool :=
  (c =? 10)%N || (c =? 13)%N || (c =? 8232)%N || (c =? 8233)%N.

(** A code unit that is half of a surrogate pair. *)
Definition isSurrogate (c : char) : bool := (55296 <=? c)%N && (c <=? 57343)%N.

(** SyntaxCharacter of the pattern grammar: ^ $ \ . * + ? ( ) [ ] { } | *)
Definition isSyntaxCharacter (c : char) : bool :=
  existsb (Char.eqb c) (str "^$\.*+?()[]{}|").

Definition digitChar (d : Z) : char := Z.to_N (48 + d).
Definition digitValue (c : char) : Z := code c - 48.

(** Decimal digits of a natural number, most significant first. *)
Fixpoint digitsFuel (fuel : nat) (n : Z) : jsstring :=
  match fuel with
  | O => []
  | S f => (if n <? 10 then [] else digitsFuel f (n / 10)) ++ [digitChar (n mod 10)]
  end.

Definition digits (n : Z) : jsstring := digitsFuel (S (Z.to_nat (Z.log2 n))) n.

Definition digitsValue (ds : jsstring) : Z :=
  fold_left (fun acc c => acc * 10 + digitValue c) ds 0.

Fixpoint span (p : char -> bool) (s : jsstring) : jsstring * jsstring :=
  match s with
  | c :: r => if p c then let '(a, b) := span p r in (c :: a, b) else ([], s)
  | [] => ([], [])
  end.

Fixpoint startsWith (s p : jsstring) {struct p} : bool :=
  match p, s with
  | [], _ => true
  | a :: p', b :: s' => Char.eqb a b && startsWith s' p'
  | _ :: _, [] => false
  end.

Definition endsWith (s p : jsstring) : bool := startsWith (rev s) (rev p).

(** [a === b] for two strings. *)
Fixpoint sameString (a b : jsstring) : bool :=
  match a, b with
  | [], [] => true
  | x :: a', y :: b' => Char.eqb x y && sameString a' b'
  | _, _ => false
  end.

(** [s.split(c)] for a one-character separator. *)
Fixpoint split (sep : char) (s : jsstring) : list jsstring :=
  match s with
  | [] => [[]]
  | c :: r =>
      if Char.eqb c sep then [] :: split sep r
      else match split sep r with
           | h :: t => (c :: h) :: t
           | [] => [[c]]
           end
  end.

(** [s.slice(0, n)] *)
Definition slice0 (n : nat) (s : jsstring) : jsstring := firstn n s.

(** [!s] for a value that is a string or [undefined]. *)
Definition falsy (s : option jsstring) : bool :=
  match s with
  | None => true
  | Some [] => true
  | Some _ => false
  end.

(** The text a template literal or [+] gives for a string or [undefined]. *)
Definition ToString (s : option jsstring) : jsstring :=
  match s with
  | Some v => v
  | None => str "undefined"
  end.

(** GetSubstitution for a match without capture groups: [$$], [$&],
    [$`] and [$'] are expanded, every other character stands for itself. *)
Fixpoint GetSubstitution (matched before after template : jsstring) : jsstring :=
  match template with
  | [] => []
  | c :: r =>
      if Char.eqb c "$" then
        match r with
        | d :: r' =>
            if Char.eqb d "$" then "$"%char :: GetSubstitution matched before after r'
            else if Char.eqb d "&" then matched ++ GetSubstitution matched before after r'
            else if Char.eqb d "`" then before ++ GetSubstitution matched before after r'
            else if Char.eqb d "'" then after ++ GetSubstitution matched before after r'
            else c :: GetSubstitution matched before after r
        | [] => [c]
        end
      else c :: GetSubstitution matched before after r
  end.

(** [s.replace(/C/g, template)] for a pattern [C] that matches one character
    of the class [p]; [before] is the text already scanned. *)
Fixpoint replaceAllClass (p : char -> bool) (template before s : jsstring) : jsstring :=
  match s with
  | [] => []
  | c :: r =>
      (if p c then GetSubstitution [c] before r template else [c])
        ++ replaceAllClass p template (before ++ [c]) r
  end.

(** [s.replace(/W/g, template)] for a pattern that is the literal text [w],
    [w] not empty: the matches are found from left to right and do not
    overlap. [skip] counts the characters of the current match still to be
    passed over. *)
Fixpoint replaceAllWord (w template before s : jsstring) (skip : nat) : jsstring :=
  match s with
  | [] => []
  | c :: r =>
      match skip with
      | S k => replaceAllWord w template (before ++ [c]) r k
      | O =>
          if startsWith s w
          then GetSubstitution w before (skipn (List.length w) s) template
                 ++ replaceAllWord w template (before ++ [c]) r (List.length w - 1)
          else c :: replaceAllWord w template (before ++ [c]) r O
      end
  end.

(** [s.replace(/(?:)/g, template)]: the empty match at every position. *)
Fixpoint replaceAllEmpty (template before s : jsstring) : jsstring :=
  GetSubstitution [] before s template ++
  match s with
  | [] => []
  | c :: r => c :: replaceAllEmpty template (before ++ [c]) r
  end.

(** [s.replace(pattern, template)] with a string pattern: the first
    occurrence only; the empty pattern occurs at the start. *)
Fixpoint replaceFirst (pattern template before s : jsstring) : jsstring :=
  if startsWith s pattern
  then GetSubstitution pattern before (skipn (List.length pattern) s) template
         ++ skipn (List.length pattern) s
  else match s with
       | [] => []
       | c :: r => c :: replaceFirst pattern template (before ++ [c]) r
       end.

(** ** Results of calls that can throw *)

Inductive error := SyntaxError.

(** [Unmodelled] marks an input outside the part of the platform that the
    model describes; no property below is stated at such inputs. *)
Inductive outcome (A : Type) :=
| Returns (a : A)
| Throws (e : error)
| Unmodelled.
Arguments Returns {A} a.
Arguments Throws {A} e.
Arguments Unmodelled {A}.

Definition bind {A B} (m : outcome A) (k : A -> outcome B) : outcome B :=
  match m with
  | Returns a => k a
  | Throws e => Throws e
  | Unmodelled => Unmodelled
  end.

Notation "'let*' x ':=' m 'in' k" := (bind m (fun x => k))
  (at level 10, x name, m at level 100, k at level 200).

(** ** [new RegExp(pattern, 'g')] for a pattern given at run time

    The patterns described: a text without any syntax character (it
    matches itself), and every pattern of one character. Of the syntax
    characters, [.] matches any character but a line terminator; [^]
    matches the empty string at the start, [$] at the end and [|]
    everywhere; the opening and closing parenthesis, the opening bracket,
    [*], [+], [?] and the backslash are rejected with a SyntaxError; the
    closing bracket and the two braces stand for themselves (the pattern
    has no [u] flag). *)

Inductive RegExp :=
| RxWord (w : jsstring)
| RxAny
| RxEmpty
| RxStart
| RxEnd.

Definition RegExp_new (pattern : jsstring) : outcome RegExp :=
  if forallb (fun c => negb (isSyntaxCharacter c)) pattern then
    match pattern with
    | [] => Returns RxEmpty
    | _ => Returns (RxWord pattern)
    end
  else
    match pattern with
    | [c] =>
        if Char.eqb c "." then Returns RxAny
        else if Char.eqb c "|" then Returns RxEmpty
        else if Char.eqb c "^" then Returns RxStart
        else if Char.eqb c "$" then Returns RxEnd
        else if existsb (Char.eqb c) (str "]{}") then Returns (RxWord pattern)
        else Throws SyntaxError
    | _ => Unmodelled
    end.

(** [s.replace(rx, template)] for a global [rx]. *)
Definition replaceAll (rx : RegExp) (template s : jsstring) : jsstring :=
  match rx with
  | RxWord w => replaceAllWord w template [] s O
  | RxAny => replaceAllClass (fun c => negb (isLineTerminator c)) template [] s
  | RxEmpty => replaceAllEmpty template [] s
  | RxStart => GetSubstitution [] [] s template ++ s
  | RxEnd => s ++ GetSubstitution [] s [] template
  end.


(** ** Numbers *)

Inductive number :=
| NaN
| Infinity (negative : bool)
| NegZero
| Fin (q : Q).

Definition Qneg (q : Q) : bool := negb (Qle_bool 0 q).

Definition pow2 (k : Z) : Q := Qpower (2 # 1) k.

(** The binary exponent of a number that is not zero: the [e] with
    [2^e <= |q| < 2^(e+1)]. *)
Definition exponent (q : Q) : Z :=
  let a := Qabs q in
  let e := Z.log2 (Qnum a) - Z.log2 (Z.pos (Qden a)) in
  if Qle_bool (pow2 e) a then e else e - 1.

(** The nearest integer, a tie going to the even one. *)
Definition nearestEven (q : Q) : Z :=
  let f := Qfloor q in
  match Qcompare (q - inject_Z f) (1 # 2) with
  | Lt => f
  | Gt => f + 1
  | Eq => if Z.even f then f else f + 1
  end.

(** The binary64 value of a real number: the nearest multiple of
    [2^(e-52)], [e] being the exponent of the number and at least -1022;
    a result of [2^1024] or more is an infinity, and a result of zero
    keeps the sign. *)
Definition r64 (q : Q) : number :=
  if Qeq_bool q 0 then Fin 0
  else
    let e := Z.max (exponent q) (-1022) in
    let u := pow2 (e - 52) in
    let v := (inject_Z (nearestEven (q / u)) * u)%Q in
    if Qeq_bool v 0 then (if Qneg q then NegZero else Fin 0)
    else if Qle_bool (pow2 1024) (Qabs v) then Infinity (Qneg q)
    else Fin (Qred v).

(** The number of an integer: a literal, or [Number(z)] for a BigInt. *)
Definition ofZ (z : Z) : number := r64 (inject_Z z).

(** [x * 100] and [x / 100] *)
Definition times100 (x : number) : number :=
  match x with
  | Fin q => r64 (q * (100 # 1))
  | _ => x
  end.

Definition over100 (x : number) : number :=
  match x with
  | Fin q => r64 (q / (100 # 1))
  | _ => x
  end.

(** [-x] *)
Definition negate (x : number) : number :=
  match x with
  | NaN => NaN
  | Infinity negative => Infinity (negb negative)
  | NegZero => Fin 0
  | Fin q => if Qeq_bool q 0 then NegZero else Fin (- q)
  end.

Definition isNaN (x : number) : bool :=
  match x with
  | NaN => true
  | _ => false
  end.

(** The finite value, both zeros being 0. *)
Definition finite (x : number) : Q :=
  match x with
  | Fin q => q
  | _ => 0%Q
  end.

(** [x <= y]; false when either side is [NaN]. *)
Definition lessEq (x y : number) : bool :=
  match x, y with
  | NaN, _ | _, NaN => false
  | Infinity true, _ => true
  | _, Infinity false => true
  | Infinity false, _ => false
  | _, Infinity true => false
  | _, _ => Qle_bool (finite x) (finite y)
  end.

(** [x >= y] *)
Definition greaterEq (x y : number) : bool := lessEq y x.

(** [Math.round]: the nearest integer, a tie going towards +infinity; the
    values from -0.5 up to -0 give -0. *)
Definition Math_round (x : number) : number :=
  match x with
  | Fin q =>
      if Qle_bool (- (1 # 2)) q && Qneg q then NegZero
      else Fin (inject_Z (Qfloor (q + (1 # 2))))
  | _ => x
  end.

(** [number * 100] and [Math.round] of a value that may be [undefined]:
    [undefined] converts to [NaN]. *)
Definition ToNumber (x : option number) : number :=
  match x with
  | Some v => v
  | None => NaN
  end.

(** *** [parseFloat]

    Leading white space is skipped; the longest prefix that is a
    StrDecimalLiteral is converted: an optional sign, then [Infinity] or
    digits with an optional fraction and an optional exponent, at least one
    digit before the exponent. Without such a prefix the result is [NaN].
    The value of the literal is rounded to binary64. *)

Definition trimStart (s : jsstring) : jsstring := snd (span isWhiteSpace s).

Definition signOf (s : jsstring) : bool * jsstring :=
  match s with
  | c :: r =>
      if Char.eqb c "-" then (true, r)
      else if Char.eqb c "+" then (false, r)
      else (false, s)
  | [] => (false, s)
  end.

(** The value of the ExponentPart at the head of [s], 0 when there is none. *)
Definition exponentPart (s : jsstring) : Z :=
  match s with
  | c :: r =>
      if Char.eqb c "e" || Char.eqb c "E" then
        let '(neg, r') := signOf r in
        match fst (span isDigit r') with
        | [] => 0
        | ds => if neg then - digitsValue ds else digitsValue ds
        end
      else 0
  | [] => 0
  end.

Definition parseFloat (s : jsstring) : number :=
  let '(neg, u) := signOf (trimStart s) in
  if startsWith u (str "Infinity") then Infinity neg
  else
    let '(ip, r1) := span isDigit u in
    let '(fp, r2) :=
      match r1 with
      | c :: r => if Char.eqb c "." then span isDigit r else ([], r1)
      | [] => ([], r1)
      end in
    match ip ++ fp with
    | [] => NaN
    | ds =>
        let m := digitsValue ds in
        let e := exponentPart r2 - Z.of_nat (List.length fp) in
        let x := r64 (inject_Z m * Qpower (10 # 1) e) in
        if neg then negate x else x
    end.

(** *** [toLocaleString('de-DE')]

    The default number format of the locale as ECMA-402 defines it: groups
    of three digits separated by [.], the decimal separator [,], at most
    three fraction digits (the value of the number is rounded, a tie going
    away from zero), no trailing zeros. *)

Fixpoint group3 (ds : jsstring) : jsstring :=
  match ds with
  | [] => []
  | c :: r =>
      c :: (if (0 <? List.length r)%nat && (List.length r mod 3 =? 0)%nat
            then "."%char :: group3 r
            else group3 r)
  end.

Fixpoint dropZeros (s : jsstring) : jsstring :=
  match s with
  | c :: r => if Char.eqb c "0" then dropZeros r else s
  | [] => []
  end.

Definition stripTrailingZeros (s : jsstring) : jsstring := rev (dropZeros (rev s)).

(** [n] written with [k] digits, [0 <= n < 10^k]. *)
Fixpoint fixedDigits (k : nat) (n : Z) : jsstring :=
  match k with
  | O => []
  | S k' => fixedDigits k' (n / 10) ++ [digitChar (n mod 10)]
  end.

Definition minus (neg : bool) : jsstring := if neg then str "-" else [].

Definition toLocaleString_deDE (x : number) : jsstring :=
  match x with
  | NaN => str "NaN"
  | Infinity neg => minus neg ++ str "∞"
  | NegZero => str "-0"
  | Fin q =>
      let m := Qfloor (Qabs q * (1000 # 1) + (1 # 2)) in
      let fraction := stripTrailingZeros (fixedDigits 3 (m mod 1000)) in
      minus (Qneg q) ++ group3 (digits (m / 1000)) ++
      match fraction with
      | [] => []
      | _ => ","%char :: fraction
      end
  end.

(** *** [toFixed(2)]

    Two fraction digits, a tie rounded away from zero; from 10^21 on the
    number is written as [ToString] writes it: in exponent notation, with
    the digits of the decimal that has the fewest significant digits among
    those whose binary64 value is the number (a number that large is an
    integer), the nearest to the number when two have that few. *)

(** The integer [v] has the binary64 value [q]. *)
Definition readsAs (v : Z) (q : Q) : bool :=
  match r64 (inject_Z v) with
  | Fin p => Qeq_bool p q
  | _ => false
  end.

(** The decimal of the fewest significant digits, [k] at least, that reads
    as [q]; seventeen digits always suffice. *)
Fixpoint shortestFrom (fuel : nat) (k : Z) (q : Q) : Z :=
  let z := Qfloor q in
  match fuel with
  | O => z
  | S f =>
      let p := 10 ^ (Z.of_nat (List.length (digits z)) - k) in
      let a := z / p * p in
      let b := a + p in
      match readsAs a q, readsAs b q with
      | true, true =>
          match Qcompare (q - inject_Z a) (inject_Z b - q) with
          | Lt => a
          | Gt => b
          | Eq => if Z.even (z / p) then a else b
          end
      | true, false => a
      | false, true => b
      | false, false => shortestFrom f (k + 1) q
      end
  end.

Definition shortest (q : Q) : Z := shortestFrom 17 1 q.

(** [n], not zero, in exponent notation. *)
Definition exponential (n : Z) : jsstring :=
  let ds := digits n in
  match stripTrailingZeros ds with
  | [] => ds
  | d :: [] => d :: str "e+" ++ digits (Z.of_nat (List.length ds) - 1)
  | d :: r => d :: "."%char :: r ++ str "e+" ++ digits (Z.of_nat (List.length ds) - 1)
  end.

Definition toFixed2 (x : number) : jsstring :=
  match x with
  | NaN => str "NaN"
  | Infinity neg => minus neg ++ str "Infinity"
  | NegZero => str "0.00"
  | Fin q =>
      if Qle_bool (inject_Z (10 ^ 21)) (Qabs q)
      then minus (Qneg q) ++ exponential (shortest (Qabs q))
      else
        let m := Qfloor (Qabs q * (100 # 1) + (1 # 2)) in
        minus (Qneg q) ++ digits (m / 100) ++ "."%char :: fixedDigits 2 (m mod 100)
  end.

(** ** Regular expressions of the validators

    A pattern that stands between [^] and [$] is tested against the whole
    string, so [test] decides membership in the language of the pattern;
    it does so by derivatives. *)

Inductive CharClass :=
| ClassDigit
| ClassSpace
| ClassChar (c : char).

Definition inClass (k : CharClass) (c : char) : bool :=
  match k with
  | ClassDigit => isDigit c
  | ClassSpace => isWhiteSpace c
  | ClassChar d => Char.eqb c d
  end.

Inductive Pattern :=
| PVoid
| PEps
| PClass (k : CharClass)
| PSeq (a b : Pattern)
| PAlt (a b : Pattern)
| PStar (a : Pattern).

(** [a?] *)
Definition POpt (a : Pattern) : Pattern := PAlt a PEps.

(** [a{0,2}] *)
Definition PUpTo2 (a : Pattern) : Pattern := POpt (PSeq a (POpt a)).

Fixpoint nullable (p : Pattern) : bool :=
  match p with
  | PVoid => false
  | PEps => true
  | PClass _ => false
  | PSeq a b => nullable a && nullable b
  | PAlt a b => nullable a || nullable b
  | PStar _ => true
  end.

Fixpoint derive (c : char) (p : Pattern) : Pattern :=
  match p with
  | PVoid => PVoid
  | PEps => PVoid
  | PClass k => if inClass k c then PEps else PVoid
  | PSeq a b =>
      if nullable a then PAlt (PSeq (derive c a) b) (derive c b)
      else PSeq (derive c a) b
  | PAlt a b => PAlt (derive c a) (derive c b)
  | PStar a => PSeq (derive c a) (PStar a)
  end.

(** [/^p$/.test(s)] *)
Definition test (p : Pattern) (s : jsstring) : bool :=
  nullable (fold_left (fun q c => derive c q) s p).

(** The strings of the language of a pattern. *)
Inductive Matches : Pattern -> jsstring -> Prop :=
| MEps : Matches PEps []
| MClass k c : inClass k c = true -> Matches (PClass k) [c]
| MSeq a b s t : Matches a s -> Matches b t -> Matches (PSeq a b) (s ++ t)
| MAltL a b s : Matches a s -> Matches (PAlt a b) s
| MAltR a b s : Matches b s -> Matches (PAlt a b) s
| MStarNil a : Matches (PStar a) []
| MStarApp a s t : Matches a s -> Matches (PStar a) t -> Matches (PStar a) (s ++ t).

End JS.

(** ** The schema combinators of zod that the module uses

    A schema takes the input string to a success with the parsed value or
    to a failure with the messages of the conditions that are not met. A
    string that fails the pattern is still handed to the refinements, whose
    messages are added; a transformation is applied to a valid value
    only. *)

Module Zod.
Import JS.

Inductive Parsed (A : Type) :=
| Success (value : A)
| Failure (messages : list jsstring).
Arguments Success {A} value.
Arguments Failure {A} messages.

Definition Schema (A : Type) := jsstring -> outcome (Parsed A).

(** [z.string().regex(re, message)] *)
Definition string_regex (re : outcome Pattern) (message : jsstring) : Schema jsstring :=
  fun value =>
    let* p := re in
    Returns (if test p value then Success value else Failure [message]).

(** [schema.refine(check, {message})] on a schema of strings, whose value
    is the input itself. *)
Definition refine (schema : Schema jsstring) (check : jsstring -> bool)
    (message : jsstring) : Schema jsstring :=
  fun value =>
    let* r := schema value in
    Returns (match r with
             | Success a => if check a then Success a else Failure [message]
             | Failure messages =>
                 if check value then Failure messages else Failure (messages ++ [message])
             end).

(** [schema.transform(f)] *)
Definition transform {A B} (schema : Schema A) (f : A -> outcome B) : Schema B :=
  fun value =>
    let* r := schema value in
    match r with
    | Success a => let* b := f a in Returns (Success b)
    | Failure messages => Returns (Failure messages)
    end.

End Zod.

(** * The module *)

Import JS Zod.

Inductive Currency := usd | rub | gbp | eur | usdt.
Inductive AmountType := integerWithDecimals | floatNumber.
Inductive DecimalPolicy := hideIfZero | showAlways | hideAlways.
Inductive SymbolPosition := before | after.

(** [number | bigint] *)
Inductive Amount :=
| Number (x : number)
| BigInt (z : Z).

Definition possibleCurrencySymbolMap (c : Currency) : option jsstring :=
  Some (match c with
        | usd => str "$"
        | rub => str "₽"
        | gbp => str "£"
        | eur => str "€"
        | usdt => str "₮"
        end).

(** A parameter with a default value: the default stands for [undefined]. *)
Definition orDefault {A} (x : option A) (d : A) : A :=
  match x with
  | Some v => v
  | None => d
  end.

(** The argument of [createMoneyThings]. *)
Module Options.
Record t := {
  currencies : list Currency;
  defaultAmountType : option AmountType;
  defaultCurrency : option Currency;
  defaultDecimalPoint : option jsstring;
  defaultDecimalPolicy : option DecimalPolicy;
  defaultThousandsSeparator : option jsstring;
  defaultSymbolPosition : option SymbolPosition;
  defaultSymbolDelimiter : option jsstring;
  currencySymbolMap : option (Currency -> option jsstring)
}.
End Options.

(** The constants the functions of the factory close over. [defaultCurrency]
    is [undefined] when no currency is given at all. *)
Record Config := {
  currencies : list Currency;
  defaultAmountType : AmountType;
  defaultCurrency : option Currency;
  defaultDecimalPoint : jsstring;
  defaultDecimalPolicy : DecimalPolicy;
  defaultThousandsSeparator : jsstring;
  defaultSymbolPosition : SymbolPosition;
  defaultSymbolDelimiter : jsstring;
  currencySymbolMap : Currency -> option jsstring
}.

Definition createMoneyThings (o : Options.t) : Config := {|
  currencies := Options.currencies o;
  defaultAmountType := orDefault (Options.defaultAmountType o) integerWithDecimals;
  defaultCurrency :=
    match Options.defaultCurrency o with
    | Some c => Some c
    | None => hd_error (Options.currencies o)
    end;
  defaultDecimalPoint := orDefault (Options.defaultDecimalPoint o) (str ",");
  defaultDecimalPolicy := orDefault (Options.defaultDecimalPolicy o) hideIfZero;
  defaultThousandsSeparator := orDefault (Options.defaultThousandsSeparator o) [NBSP];
  defaultSymbolPosition := orDefault (Options.defaultSymbolPosition o) before;
  defaultSymbolDelimiter := orDefault (Options.defaultSymbolDelimiter o) [];
  currencySymbolMap := orDefault (Options.currencySymbolMap o) possibleCurrencySymbolMap
|}.

(** [createMoneyThings({ currencies })] *)
Definition onlyCurrencies (cs : list Currency) : Options.t := {|
  Options.currencies := cs;
  Options.defaultAmountType := None;
  Options.defaultCurrency := None;
  Options.defaultDecimalPoint := None;
  Options.defaultDecimalPolicy := None;
  Options.defaultThousandsSeparator := None;
  Options.defaultSymbolPosition := None;
  Options.defaultSymbolDelimiter := None;
  Options.currencySymbolMap := None
|}.

(** The options of [toMoney] besides the amount. *)
Module Props.
Record t := {
  amountType : option AmountType;
  currency : option Currency;
  decimalPoint : option jsstring;
  decimalPolicy : option DecimalPolicy;
  thousandsSeparator : option jsstring;
  symbol : option jsstring;
  symbolPosition : option SymbolPosition;
  symbolDelimiter : option jsstring;
  hideSymbol : option bool
}.
Definition none : t := Build_t None None None None None None None None None.
End Props.

(** The three ways of calling [toMoney]. *)
Inductive ToMoneyArgs :=
| OneProps (amount : Amount) (props : Props.t)
| OneAmount (amount : Amount)
| AmountAndRest (amount : Amount) (rest : Props.t).

(** ** src/src/index.ts *)

Section MoneyThings.

Variable cfg : Config.

Definition integerWithDecimalsToFloatNumber (integerWithDecimals : Amount) : number :=
  match integerWithDecimals with
  | BigInt z => over100 (ofZ z)
  | Number x => over100 x
  end.

(** The body of the immediately invoked function of
    [integerWithDecimalsToAmountString]. *)
Definition amountNiceSuitableString (decimalPolicy : DecimalPolicy)
    (amountNiceString : jsstring) : jsstring :=
  let parts := split "," amountNiceString in
  let nondecimals := ToString (nth_error parts 0) in
  let decimals := nth_error parts 1 in
  match decimalPolicy with
  | showAlways =>
      if falsy decimals then amountNiceString ++ str ",00"
      else if (List.length (ToString decimals) =? 1)%nat then amountNiceString ++ str "0"
      else nondecimals ++ str "," ++ slice0 2 (ToString decimals)
  | hideAlways => nondecimals
  | hideIfZero =>
      if falsy decimals then nondecimals
      else if (List.length (ToString decimals) =? 1)%nat then amountNiceString ++ str "0"
      else nondecimals ++ str "," ++ slice0 2 (ToString decimals)
  end.

Definition integerWithDecimalsToAmountString (amount : Amount)
    (decimalPoint thousandsSeparator : option jsstring)
    (decimalPolicy : option DecimalPolicy) : jsstring :=
  let decimalPoint := orDefault decimalPoint (defaultDecimalPoint cfg) in
  let thousandsSeparator := orDefault thousandsSeparator (defaultThousandsSeparator cfg) in
  let decimalPolicy := orDefault decimalPolicy (defaultDecimalPolicy cfg) in
  let amountFloatNumber := integerWithDecimalsToFloatNumber amount in
  let amountNiceString := toLocaleString_deDE amountFloatNumber in
  replaceAllClass (Char.eqb ",") decimalPoint []
    (replaceAllClass (Char.eqb ".") thousandsSeparator []
       (amountNiceSuitableString decimalPolicy amountNiceString)).

Definition amountStringToIntegerWithDecimals (amountString : jsstring)
    (decimalPoint thousandsSeparator : option jsstring) : outcome number :=
  let decimalPoint := orDefault decimalPoint (defaultDecimalPoint cfg) in
  let thousandsSeparator := orDefault thousandsSeparator (defaultThousandsSeparator cfg) in
  let* rx := RegExp_new thousandsSeparator in
  let amountStringWithoutThousandsSeparator := replaceAll rx [] amountString in
  let amountStringWithoutDecimalPoint :=
    replaceFirst decimalPoint (str ".") [] amountStringWithoutThousandsSeparator in
  Returns (Math_round (times100 (parseFloat amountStringWithoutDecimalPoint))).

Definition floatNumberToIntegerWithDecimals (number : JS.number) : JS.number :=
  Math_round (times100 number).

Definition floatNumberToAmountString (amount : number)
    (decimalPoint thousandsSeparator : option jsstring)
    (decimalPolicy : option DecimalPolicy) : jsstring :=
  let decimalPoint := orDefault decimalPoint (defaultDecimalPoint cfg) in
  let thousandsSeparator := orDefault thousandsSeparator (defaultThousandsSeparator cfg) in
  let decimalPolicy := orDefault decimalPolicy (defaultDecimalPolicy cfg) in
  let amountWithDecimals := floatNumberToIntegerWithDecimals amount in
  integerWithDecimalsToAmountString (Number amountWithDecimals)
    (Some decimalPoint) (Some thousandsSeparator) (Some decimalPolicy).

Definition amountStringToFloatNumber (amountString : jsstring)
    (decimalPoint thousandsSeparator : option jsstring) : outcome number :=
  let decimalPoint := orDefault decimalPoint (defaultDecimalPoint cfg) in
  let thousandsSeparator := orDefault thousandsSeparator (defaultThousandsSeparator cfg) in
  let* amountWithDecimals :=
    amountStringToIntegerWithDecimals amountString (Some decimalPoint) (Some thousandsSeparator) in
  Returns (integerWithDecimalsToFloatNumber (Number amountWithDecimals)).

(** The record [toMoney] destructures. A lone number becomes
    [{ amount }]; any other lone argument is destructured as it is, and a
    BigInt has none of the properties, so that its [amount] is
    [undefined]. *)
Definition toMoneyProps (args : ToMoneyArgs) : option Amount * Props.t :=
  match args with
  | OneAmount (Number x) => (Some (Number x), Props.none)
  | OneAmount (BigInt _) => (None, Props.none)
  | OneProps amount props => (Some amount, props)
  | AmountAndRest amount rest => (Some amount, rest)
  end.

(** [floatNumberToIntegerWithDecimals] and [Math.round] at an amount that
    may be [undefined]. *)
Definition numberOf (amount : option Amount) : number :=
  match amount with
  | Some (Number x) => x
  | Some (BigInt z) => ofZ z
  | None => ToNumber None
  end.

Definition toMoney (args : ToMoneyArgs) : jsstring :=
  let '(amount, props) := toMoneyProps args in
  let amountType := orDefault (Props.amountType props) (defaultAmountType cfg) in
  let currency :=
    match Props.currency props with
    | Some c => Some c
    | None => defaultCurrency cfg
    end in
  let decimalPoint := orDefault (Props.decimalPoint props) (defaultDecimalPoint cfg) in
  let decimalPolicy := orDefault (Props.decimalPolicy props) (defaultDecimalPolicy cfg) in
  let thousandsSeparator :=
    orDefault (Props.thousandsSeparator props) (defaultThousandsSeparator cfg) in
  let symbol :=
    match Props.symbol props with
    | Some s => Some s
    | None =>
        match currency with
        | Some c => currencySymbolMap cfg c
        | None => None
        end
    end in
  let symbolPosition := orDefault (Props.symbolPosition props) (defaultSymbolPosition cfg) in
  let symbolDelimiter := orDefault (Props.symbolDelimiter props) (defaultSymbolDelimiter cfg) in
  let hideSymbol := orDefault (Props.hideSymbol props) false in
  let amountWithDecimals :=
    match amountType with
    | integerWithDecimals =>
        match amount with
        | Some (BigInt z) => BigInt z
        | _ => Number (Math_round (numberOf amount))
        end
    | floatNumber => Number (floatNumberToIntegerWithDecimals (numberOf amount))
    end in
  let amountString :=
    integerWithDecimalsToAmountString amountWithDecimals
      (Some decimalPoint) (Some thousandsSeparator) (Some decimalPolicy) in
  if hideSymbol then amountString
  else
    match symbolPosition with
    | before => ToString symbol ++ symbolDelimiter ++ amountString
    | after => amountString ++ symbolDelimiter ++ ToString symbol
    end.

Definition safeDefaultDecimalPoint : jsstring :=
  if (List.length (defaultDecimalPoint cfg) =? 1)%nat then defaultDecimalPoint cfg else str ".".

Definition escapedDefaultDecimalPoint : jsstring :=
  if sameString safeDefaultDecimalPoint (str ".") then str "\." else safeDefaultDecimalPoint.

(** The pattern that the text [escapedDefaultDecimalPoint] denotes inside
    the source of [amountStringRegex]: the escaped dot and any character
    that is not a syntax character denote that character. The pattern has
    the [u] flag and matches code points: half of a surrogate pair as
    decimal point is left out. *)
Definition decimalPointPattern (escaped : jsstring) : outcome Pattern :=
  match escaped with
  | [c] =>
      if isSyntaxCharacter c || isSurrogate c then Unmodelled
      else Returns (PClass (ClassChar c))
  | [b; c] =>
      if Char.eqb b "\" && Char.eqb c "." then Returns (PClass (ClassChar "."))
      else Unmodelled
  | _ => Unmodelled
  end.

(** The pattern [^ \s* \d ( \s* \d* )* ( D \d{0,2} )? $], written here with
    blanks between its parts, where [D] is the escaped decimal point. *)
Definition amountStringRegex : outcome Pattern :=
  let* D := decimalPointPattern escapedDefaultDecimalPoint in
  Returns
    (PSeq (PStar (PClass ClassSpace))
       (PSeq (PClass ClassDigit)
          (PSeq (PStar (PSeq (PStar (PClass ClassSpace)) (PStar (PClass ClassDigit))))
             (POpt (PSeq D (PUpTo2 (PClass ClassDigit))))))).

(** [parseFloat(value.replace(/\s/g, '').replace(defaultThousandsSeparator, ''))] *)
Definition strippedNumber (value : jsstring) : number :=
  parseFloat
    (replaceFirst (defaultThousandsSeparator cfg) [] []
       (replaceAllClass isWhiteSpace [] [] value)).

Definition zAmountRaw : Schema jsstring :=
  refine
    (string_regex amountStringRegex
       (str "Should be a positive number with optional two decimal places"))
    (fun value =>
       let number := strippedNumber value in
       negb (isNaN number) && greaterEq number (ofZ 0))
    (str "Should be a positive number with with optional two decimal places").

Definition zAmountRawLimited (min max : number) : Schema jsstring :=
  let niceMin :=
    integerWithDecimalsToAmountString (Number min)
      (Some (defaultDecimalPoint cfg)) (Some (defaultThousandsSeparator cfg))
      (Some showAlways) in
  let niceMax :=
    integerWithDecimalsToAmountString (Number max)
      (Some (defaultDecimalPoint cfg)) (Some (defaultThousandsSeparator cfg))
      (Some showAlways) in
  refine zAmountRaw
    (fun value =>
       let number := strippedNumber value in
       negb (isNaN number) && greaterEq number (over100 min) && lessEq number (over100 max))
    (str "Should be a positive number with with optional two decimal places not more than "
       ++ niceMax ++ str " and not less than " ++ niceMin).

Definition zAmountIntegerWithDecimals : Schema number :=
  transform zAmountRaw (fun value => amountStringToIntegerWithDecimals value None None).

Definition zAmountIntegerWithDecimalsLimited (min max : number) : Schema number :=
  transform (zAmountRawLimited min max)
    (fun value => amountStringToIntegerWithDecimals value None None).

Definition zAmountFloatNumber : Schema number :=
  transform zAmountRaw (fun value => amountStringToFloatNumber value None None).

Definition zAmountFloatNumberLimited (min max : number) : Schema number :=
  transform (zAmountRawLimited min max)
    (fun value => amountStringToFloatNumber value None None).

End MoneyThings.

(** ** src/unnamed/part_000: the formatter of the earlier revision *)

Module Earlier.

Definition integerWithDecimalsToAmountString (cfg : Config) (amount : Amount)
    (decimalPoint thousandsSeparator : option jsstring)
    (decimalPolicy : option DecimalPolicy) : jsstring :=
  let decimalPoint := orDefault decimalPoint (defaultDecimalPoint cfg) in
  let thousandsSeparator := orDefault thousandsSeparator (defaultThousandsSeparator cfg) in
  let decimalPolicy := orDefault decimalPolicy (defaultDecimalPolicy cfg) in
  let amountFloatNumber := integerWithDecimalsToFloatNumber amount in
  let amountNativeString := toFixed2 amountFloatNumber in
  let decimalsExist := negb (endsWith amountNativeString (str ".00")) in
  let amountSuitableFloatNumber :=
    match decimalPolicy with
    | showAlways => amountFloatNumber
    | hideAlways => Math_round amountFloatNumber
    | hideIfZero => if decimalsExist then amountFloatNumber else Math_round amountFloatNumber
    end in
  let amountNiceString := toLocaleString_deDE amountSuitableFloatNumber in
  replaceAllClass (Char.eqb ",") decimalPoint []
    (replaceAllClass (Char.eqb ".") thousandsSeparator [] amountNiceString).

End Earlier.

(** * Notions used in the statements *)

Definition plain (t : jsstring) : Prop := Forall (fun c => Char.eqb c "$" = false) t.

Definition lacks (x : char) (s : jsstring) : Prop := Forall (fun c => c <> x) s.

(** The amount of [n] cents, as a number or as a BigInt. *)
Definition cents (big : bool) (n : Z) : Amount :=
  if big then BigInt n else Number (ofZ n).

(** The fraction [toLocaleString] writes for [r] hundredths. *)
Definition fractionOf (r : Z) : jsstring :=
  let fraction := stripTrailingZeros (fixedDigits 3 (10 * r)) in
  match fraction with
  | [] => []
  | _ => ","%char :: fraction
  end.

(** The groups of three digits of [ds] joined by the text [t]. *)
Definition joined (t ds : jsstring) : jsstring :=
  flat_map (fun c => if Char.eqb "." c then t else [c]) (group3 ds).

(** The sign and the grouped units of [n] cents, the groups joined by the
    thousands separator [t], and the fraction shown under each policy
    after the decimal point [d]. *)
Definition unitsOf (t : jsstring) (n : Z) : jsstring :=
  minus (n <? 0) ++ joined t (digits (Z.abs n / 100)).

Definition shownFraction (d : jsstring) (policy : DecimalPolicy) (r : Z) : jsstring :=
  match policy with
  | showAlways => d ++ fixedDigits 2 r
  | hideAlways => []
  | hideIfZero => if r =? 0 then [] else d ++ fixedDigits 2 r
  end.

(** [createMoneyThings({ currencies: ['usd'] })] *)
Definition defaults : Config := createMoneyThings (onlyCurrencies [usd]).

(** The separators of a factory created without them: the comma, and the
    no-break space that the code has for the thousands; the blank that
    the specification writes in its place is covered as well. *)
Definition DefaultSeparators (cfg : Config) : Prop :=
  defaultDecimalPoint cfg = str "," /\
  (defaultThousandsSeparator cfg = [NBSP] \/ defaultThousandsSeparator cfg = str " ").

(** The symbol [toMoney] resolves: the one given, else the one of the
    currency given, else the one of the default currency. *)
Definition resolvedSymbol (cfg : Config) (props : Props.t) : option jsstring :=
  match Props.symbol props with
  | Some s => Some s
  | None =>
      match Props.currency props with
      | Some c => currencySymbolMap cfg c
      | None =>
          match defaultCurrency cfg with
          | Some c => currencySymbolMap cfg c
          | None => None
          end
      end
  end.

(** What the specification says of the strings [zAmountRaw] accepts:
    optional leading white space, one or more digit groups optionally
    interspersed with white space, optionally followed by the decimal
    point and zero to two digits. *)
Definition AmountShape (decimalPoint : char) (s : jsstring) : Prop :=
  exists leading first rest fraction,
    s = leading ++ first :: rest ++ fraction /\
    Forall (fun c => isWhiteSpace c = true) leading /\
    isDigit first = true /\
    Forall (fun c => isWhiteSpace c = true \/ isDigit c = true) rest /\
    (fraction = [] \/
     exists ds, fraction = decimalPoint :: ds /\
                Forall (fun c => isDigit c = true) ds /\ (List.length ds <= 2)%nat).

(** A number that is not [NaN] and is at least 0. *)
Definition NonNegative (x : number) : Prop :=
  isNaN x = false /\ greaterEq x (ofZ 0) = true.

(** The pattern of [amountStringRegex] for the decimal point [d]. *)
Definition amountPattern (d : char) : Pattern :=
  PSeq (PStar (PClass ClassSpace))
    (PSeq (PClass ClassDigit)
       (PSeq (PStar (PSeq (PStar (PClass ClassSpace)) (PStar (PClass ClassDigit))))
          (POpt (PSeq (PClass (ClassChar d)) (PUpTo2 (PClass ClassDigit)))))).

(** The text [amountStringToIntegerWithDecimals] hands to [parseFloat]. *)
Definition strippedText (rx : RegExp) (decimalPoint amountString : jsstring) : jsstring :=
  replaceFirst decimalPoint (str ".") [] (replaceAll rx [] amountString).

(** A text begins with a number when, after its leading white space and
    an optional sign, there is [Infinity], a digit, or a dot and a digit. *)
Definition startsNumber (s : jsstring) : bool :=
  let u := snd (signOf (trimStart s)) in
  startsWith u (str "Infinity") ||
  match u with
  | c :: r =>
      isDigit c ||
      (Char.eqb c "." && match r with
                         | d :: _ => isDigit d
                         | [] => false
                         end)
  | [] => false
  end.

(** The character [c], [a+], and the text [w] as patterns. *)
Definition PChar (c : char) : Pattern := PClass (ClassChar c).
Definition PPlus (a : Pattern) : Pattern := PSeq a (PStar a).
Definition PWord (w : jsstring) : Pattern := fold_right (fun c p => PSeq (PChar c) p) PEps w.

(** A numeric text: a decimal literal and nothing else, white space
    around it aside. The literal is an optional sign, then [Infinity], or
    digits with an optional fraction, or a dot and digits, the last two
    with an optional exponent. *)
Definition numericPattern : Pattern :=
  let digit := PClass ClassDigit in
  let space := PClass ClassSpace in
  let sign := POpt (PAlt (PChar "+") (PChar "-")) in
  let exponent := POpt (PSeq (PAlt (PChar "e") (PChar "E")) (PSeq sign (PPlus digit))) in
  PSeq (PStar space)
    (PSeq sign
       (PSeq (PAlt (PWord (str "Infinity"))
                (PAlt (PSeq (PPlus digit)
                         (PSeq (POpt (PSeq (PChar ".") (PStar digit))) exponent))
                   (PSeq (PChar ".") (PSeq (PPlus digit) exponent))))
          (PStar space))).

Definition isNumeric (s : jsstring) : bool := test numericPattern s.

(** The claim C8 at one input, under the default separators: a text that
    is still not numeric once it is stripped gives [NaN]. *)
Definition NonNumericGivesNaN (cfg : Config) (amountString : jsstring) : Prop :=
  forall rx,
    RegExp_new (defaultThousandsSeparator cfg) = Returns rx ->
    isNumeric (strippedText rx (defaultDecimalPoint cfg) amountString) = false ->
    amountStringToIntegerWithDecimals cfg amountString None None = Returns NaN.

(** When the two revisions of the formatter give the same string for [n]
    cents, [r] being the cents beyond the whole units. *)
Definition revisionsAgree (policy : DecimalPolicy) (n : Z) : Prop :=
  let r := Z.abs n mod 100 in
  match policy with
  | showAlways => r mod 10 <> 0
  | hideIfZero => r = 0 \/ r mod 10 <> 0
  | hideAlways => if n <? 0 then r <= 50 else r < 50
  end.

(** The amount string of [toMoney] with the symbol the options resolve to,
    in the position and with the delimiter they resolve to. *)
Definition decorated (cfg : Config) (props : Props.t) (amountString : jsstring) : jsstring :=
  let symbol := ToString (resolvedSymbol cfg props) in
  let symbolDelimiter := orDefault (Props.symbolDelimiter props) (defaultSymbolDelimiter cfg) in
  match orDefault (Props.symbolPosition props) (defaultSymbolPosition cfg) with
  | before => symbol ++ symbolDelimiter ++ amountString
  | after => amountString ++ symbolDelimiter ++ symbol
  end.

(** The options [props] with [amountType] set. *)
Definition withAmountType (a : AmountType) (props : Props.t) : Props.t :=
  {| Props.amountType := Some a;
     Props.currency := Props.currency props;
     Props.decimalPoint := Props.decimalPoint props;
     Props.decimalPolicy := Props.decimalPolicy props;
     Props.thousandsSeparator := Props.thousandsSeparator props;
     Props.symbol := Props.symbol props;
     Props.symbolPosition := Props.symbolPosition props;
     Props.symbolDelimiter := Props.symbolDelimiter props;
     Props.hideSymbol := Props.hideSymbol props |}.

(** The cents [toMoney] formats: a BigInt as it is in a factory of cents,
    a number rounded, a float scaled and rounded; [undefined] counts as
    [NaN]. *)
Definition centsAmount (cfg : Config) (amount : option Amount) (props : Props.t) : Amount :=
  match orDefault (Props.amountType props) (defaultAmountType cfg) with
  | integerWithDecimals =>
      match amount with
      | Some (BigInt z) => BigInt z
      | _ => Number (Math_round (numberOf amount))
      end
  | floatNumber => Number (floatNumberToIntegerWithDecimals (numberOf amount))
  end.

(** A character that can serve as a separator and be read back: not a
    digit, not the minus sign, not the dollar sign. *)
Definition separatorChar (c : char) : bool :=
  negb (isDigit c) && negb (Char.eqb c "-") && negb (Char.eqb c "$").

(** A line terminator or a dot. *)
Definition breakOrDot (c : char) : Prop := isLineTerminator c = true \/ c = "."%char.

(** The separator [t] or a digit: what stands between the first digit and
    the fraction of a grouped amount. *)
Definition sepOrDigit (t c : char) : Prop := c = t \/ isDigit c = true.

(** The cents that the digits after the decimal point stand for, two
    digits at most. *)
Definition fractionCents (ds : jsstring) : Z :=
  digitsValue ds * 10 ^ (2 - Z.of_nat (List.length ds)).

(** The whole units of an amount string: the value of its digits, white
    space apart, up to the first character that is neither. *)
Definition wholeUnits (s : jsstring) : Z :=
  digitsValue (fst (span isDigit (filter (fun c => negb (isWhiteSpace c)) s))).

(** A character no number begins with and no default separator removes:
    not white space, not a digit, a sign, the dot, the comma or [I]. *)
Definition opaqueChar (c : char) : bool :=
  negb (isWhiteSpace c || isDigit c || existsb (Char.eqb c) (str "+-.,I")).

(** The number of the decimal literal of sign [neg], digits [m] and
    exponent [e], as [parseFloat] makes it. *)
Definition signedDecimal (neg : bool) (m e : Z) : number :=
  let x := r64 (inject_Z m * Qpower (10 # 1) e) in
  if neg then negate x else x.

(** The number [q] is [n] hundredths up to the rounding of binary64 for
    the amounts of at most [10^14] cents, and is zero when [n] is. *)
Definition hundredths (n : Z) (q : Q) : Prop :=
  (Qabs (q - inject_Z n * (1 # 100)) <= 1 # 16384)%Q /\ (n = 0 -> (q == 0)%Q).

(** * Properties *)

(** ** The model of the built-ins at values whose results are known *)

Example toLocaleString_values :
  map toLocaleString_deDE
    [ofZ 0; ofZ 5; parseFloat (str "5.5"); over100 (ofZ 123456789); parseFloat (str "-0.5");
     ofZ 1000; parseFloat (str "1.2346"); parseFloat (str "999.9996"); NegZero; NaN;
     Infinity true]
  = map str ["0"; "5"; "5,5"; "1.234.567,89"; "-0,5"; "1.000";
             "1,235"; "1.000"; "-0"; "NaN"; "-∞"]%string.
Proof. vm_compute. reflexivity. Qed.

Example toFixed2_values :
  map toFixed2
    [ofZ 5; parseFloat (str "5.5"); parseFloat (str "-0.5"); over100 (ofZ 199); NegZero;
     ofZ (10 ^ 21); ofZ (10 ^ 23); ofZ (2 ^ 70); ofZ (- (15 * 10 ^ 20))]
  = map str ["5.00"; "5.50"; "-0.50"; "1.99"; "0.00";
             "1e+21"; "1e+23"; "1.1805916207174113e+21"; "-1.5e+21"]%string.
Proof. vm_compute. reflexivity. Qed.

Example parseFloat_values :
  map parseFloat
    [str "12,34"; str "  -12.5abc"; str ".5"; str "5."; str "1e3"; str "1e"; str "-0";
     str "abc"; []; str "."; str "- 5"; str "1 000"; NBSP :: str "12"; str "1e400"]
  = [ofZ 12; Fin (-25 # 2); Fin (1 # 2); ofZ 5; ofZ 1000; ofZ 1; NegZero;
     NaN; NaN; NaN; NaN; ofZ 1; ofZ 12; Infinity false].
Proof. vm_compute. reflexivity. Qed.

Example Math_round_values :
  map Math_round
    (map parseFloat [str "0.5"; str "-0.5"; str "-0.51"; str "2.5"; str "-2.5"; str "2.49";
                     str "-0"; str "x"])
  = [ofZ 1; NegZero; ofZ (-1); ofZ 3; ofZ (-2); ofZ 2; NegZero; NaN].
Proof. vm_compute. reflexivity. Qed.

(** Where binary64 shows: 0.1 is not a tenth, 0.015 times 100 is 1.5, and
    beyond [2^53] not every integer is a number. *)
Example binary64_values :
  parseFloat (str "0.1") = Fin (3602879701896397 # 36028797018963968) /\
  times100 (parseFloat (str "0.015")) = Fin (3 # 2) /\
  ofZ (2 ^ 53 + 1) = ofZ (2 ^ 53) /\
  over100 (ofZ 1110096870514054) = Fin (1420923994257989 # 128) /\
  ofZ (10 ^ 309) = Infinity false.
Proof. vm_compute. repeat split. Qed.

Example replace_values :
  replaceAllClass (Char.eqb ".") (str "[$&$$]") [] (str "1.234.567") = str "1[.$]234[.$]567" /\
  replaceFirst (str ",") (str ".") [] (str "1,234,567") = str "1.234,567" /\
  replaceFirst [] (str ".") [] (str "12") = str ".12" /\
  replaceAllWord (str "aa") (str "b") [] (str "aaaaa") 0 = str "bba" /\
  map (split ",") [str "12,5"; str "12"; str "1,2,3"; []]
    = [[str "12"; str "5"]; [str "12"]; [str "1"; str "2"; str "3"]; [[]]].
Proof. vm_compute. repeat split. Qed.

Example RegExp_values :
  map RegExp_new [[NBSP]; str " "; str ","; str "."; str "("; str "*"; []]
  = [Returns (RxWord [NBSP]); Returns (RxWord (str " ")); Returns (RxWord (str ","));
     Returns RxAny; Throws SyntaxError; Throws SyntaxError; Returns RxEmpty].
Proof. vm_compute. reflexivity. Qed.

(** The literals of the source are read as code units. *)
Example str_values :
  str "€" = [8364%N] /\ str "£" = [163%N] /\ List.length (str "₽₮") = 2%nat /\
  isWhiteSpace NBSP = true /\ defaultThousandsSeparator defaults = [NBSP].
Proof. vm_compute. repeat split. Qed.

(** ** Characters and digits *)

Lemma mod10_cases (z : Z) :
  z mod 10 = 0 \/ z mod 10 = 1 \/ z mod 10 = 2 \/ z mod 10 = 3 \/ z mod 10 = 4 \/
  z mod 10 = 5 \/ z mod 10 = 6 \/ z mod 10 = 7 \/ z mod 10 = 8 \/ z mod 10 = 9.
Proof.
  pose proof (Z.mod_pos_bound z 10 ltac:(lia)). lia.
Qed.

Ltac by_digit z :=
  let H := fresh in
  destruct (mod10_cases z) as [H|[H|[H|[H|[H|[H|[H|[H|[H|H]]]]]]]]];
  rewrite H; reflexivity.

(** Turns comparisons of code units into propositions. *)
Ltac prop_of_bool :=
  repeat first
    [ rewrite andb_true_iff | rewrite orb_true_iff | rewrite andb_false_iff
    | rewrite orb_false_iff | rewrite negb_true_iff | rewrite negb_false_iff
    | rewrite N.leb_le | rewrite N.leb_gt | rewrite N.eqb_eq | rewrite N.eqb_neq ].

Ltac prop_of_bool_in H :=
  repeat first
    [ rewrite andb_true_iff in H | rewrite orb_true_iff in H | rewrite andb_false_iff in H
    | rewrite orb_false_iff in H | rewrite negb_true_iff in H | rewrite negb_false_iff in H
    | rewrite N.leb_le in H | rewrite N.leb_gt in H | rewrite N.eqb_eq in H
    | rewrite N.eqb_neq in H ].

Lemma Char_eqb_spec (a b : char) : reflect (a = b) (Char.eqb a b).
Proof. apply N.eqb_spec. Qed.

Lemma Char_eqb_refl (a : char) : Char.eqb a a = true.
Proof. apply N.eqb_refl. Qed.

Lemma Char_eqb_sym (a b : char) : Char.eqb a b = Char.eqb b a.
Proof. apply N.eqb_sym. Qed.

Lemma Char_eqb_neq (a b : char) : Char.eqb a b = false <-> a <> b.
Proof. apply N.eqb_neq. Qed.

Lemma isDigit_spec (c : char) : isDigit c = true <-> (48 <= c <= 57)%N.
Proof. unfold isDigit. prop_of_bool. reflexivity. Qed.

Lemma isDigit_other (c : char) :
  isDigit c = true -> isWhiteSpace c = false /\ 0 <= digitValue c <= 9.
Proof.
  intros H. apply isDigit_spec in H. unfold isWhiteSpace, digitValue, code.
  split; [prop_of_bool|]; lia.
Qed.

(** A digit is no character that is not a digit. *)
Lemma isDigit_neq (c x : char) :
  isDigit c = true -> isDigit x = false -> Char.eqb c x = false /\ Char.eqb x c = false.
Proof.
  intros Hc Hx. rewrite (Char_eqb_sym x c).
  destruct (Char_eqb_spec c x) as [->|_]; [congruence | split; reflexivity].
Qed.

(** Rewrites the comparisons of a digit [c] with the other characters. *)
Ltac digit_neq H :=
  repeat match goal with
  | |- context [Char.eqb ?x ?y] =>
      first
        [ rewrite (proj1 (isDigit_neq x y H ltac:(reflexivity)))
        | rewrite (proj2 (isDigit_neq y x H ltac:(reflexivity))) ]
  end.

Lemma isWhiteSpace_other (w : char) :
  isWhiteSpace w = true ->
  isDigit w = false /\ Char.eqb w "." = false /\ Char.eqb w "," = false /\
  Char.eqb w "e" = false /\ Char.eqb w "E" = false /\ Char.eqb w "-" = false /\
  Char.eqb w "+" = false /\ Char.eqb w "I" = false.
Proof.
  unfold isWhiteSpace, isDigit, Char.eqb. intros H. prop_of_bool_in H.
  repeat split; prop_of_bool; lia.
Qed.

Lemma isDigit_digitChar (z : Z) : isDigit (digitChar (z mod 10)) = true.
Proof. by_digit z. Qed.

Lemma digitValue_digitChar (z : Z) : digitValue (digitChar (z mod 10)) = z mod 10.
Proof. by_digit z. Qed.

Lemma digitsValue_snoc (a : jsstring) (c : char) :
  digitsValue (a ++ [c]) = digitsValue a * 10 + digitValue c.
Proof. unfold digitsValue. rewrite fold_left_app. reflexivity. Qed.

Lemma digitsFuel_isDigit (fuel : nat) (n : Z) :
  Forall (fun c => isDigit c = true) (digitsFuel fuel n).
Proof.
  revert n. induction fuel as [|f IH]; intros n; simpl.
  - constructor.
  - apply Forall_app. split.
    + destruct (n <? 10); [constructor | apply IH].
    + repeat constructor. apply isDigit_digitChar.
Qed.

Lemma digitsFuel_value (fuel : nat) (n : Z) :
  0 <= n < 2 ^ Z.of_nat fuel -> digitsValue (digitsFuel fuel n) = n.
Proof.
  revert n. induction fuel as [|f IH]; intros n Hn.
  - change (2 ^ Z.of_nat 0) with 1 in Hn. replace n with 0 by lia. reflexivity.
  - cbn [digitsFuel]. rewrite digitsValue_snoc, digitValue_digitChar.
    destruct (Z.ltb_spec n 10) as [Hlt|Hge].
    + cbn. rewrite Z.mod_small by lia. reflexivity.
    + rewrite IH.
      * pose proof (Z.div_mod n 10 ltac:(lia)). lia.
      * rewrite Nat2Z.inj_succ, Z.pow_succ_r in Hn by lia.
        split; [apply Z.div_pos; lia|].
        apply Z.div_lt_upper_bound; lia.
Qed.

Lemma digitsFuel_nonempty (fuel : nat) (n : Z) : digitsFuel (S fuel) n <> [].
Proof. simpl. intros H. apply app_eq_nil in H. destruct H as [_ H]. discriminate. Qed.

Lemma digits_isDigit (n : Z) : Forall (fun c => isDigit c = true) (digits n).
Proof. apply digitsFuel_isDigit. Qed.

Lemma digits_nonempty (n : Z) : digits n <> [].
Proof. apply digitsFuel_nonempty. Qed.

Lemma digits_value (n : Z) : 0 <= n -> digitsValue (digits n) = n.
Proof.
  intros Hn. apply digitsFuel_value. split; [exact Hn|].
  destruct (Z.eq_dec n 0) as [->|Hz]; [reflexivity|].
  rewrite Nat2Z.inj_succ, Z2Nat.id by apply Z.log2_nonneg.
  apply Z.log2_spec. lia.
Qed.

Lemma fixedDigits_isDigit (k : nat) (n : Z) :
  Forall (fun c => isDigit c = true) (fixedDigits k n).
Proof.
  revert n. induction k as [|k IH]; intros n; simpl.
  - constructor.
  - apply Forall_app. split; [apply IH|]. repeat constructor. apply isDigit_digitChar.
Qed.

Lemma fixedDigits_length (k : nat) (n : Z) : List.length (fixedDigits k n) = k.
Proof.
  revert n. induction k as [|k IH]; intros n; simpl; [reflexivity|].
  rewrite length_app, IH. simpl. lia.
Qed.

Lemma fixedDigits_value (k : nat) (n : Z) :
  digitsValue (fixedDigits k n) = n mod 10 ^ Z.of_nat k.
Proof.
  revert n. induction k as [|k IH]; intros n.
  - simpl. rewrite Z.mod_1_r. reflexivity.
  - cbn [fixedDigits]. rewrite digitsValue_snoc, digitValue_digitChar, IH.
    rewrite Nat2Z.inj_succ, Z.pow_succ_r by lia.
    rewrite Z.rem_mul_r; [lia | lia | apply Z.pow_pos_nonneg; lia].
Qed.

Lemma digitsValue_nonneg (D : jsstring) :
  Forall (fun c => isDigit c = true) D -> 0 <= digitsValue D.
Proof.
  intros H. unfold digitsValue.
  assert (G : forall acc, 0 <= acc ->
                0 <= fold_left (fun a c => a * 10 + digitValue c) D acc).
  { induction H as [|c r Hc _ IH]; intros acc Hacc; [exact Hacc|].
    cbn [fold_left]. apply IH. destruct (isDigit_other c Hc) as (_ & Hv). lia. }
  apply G. lia.
Qed.

Lemma digitsValue_shift (F : jsstring) (acc : Z) :
  fold_left (fun a c => a * 10 + digitValue c) F acc =
  acc * 10 ^ Z.of_nat (List.length F) + digitsValue F.
Proof.
  unfold digitsValue. revert acc. induction F as [|c r IH]; intros acc.
  - cbn. lia.
  - cbn [fold_left List.length]. rewrite IH, (IH (0 * 10 + digitValue c)).
    rewrite Nat2Z.inj_succ, Z.pow_succ_r by lia. lia.
Qed.

Lemma digitsValue_append (D F : jsstring) :
  digitsValue (D ++ F) = digitsValue D * 10 ^ Z.of_nat (List.length F) + digitsValue F.
Proof.
  unfold digitsValue at 1. rewrite fold_left_app. apply digitsValue_shift.
Qed.

(** ** Substitution, replacement and splitting *)

Lemma GetSubstitution_plain (m b a t : jsstring) :
  plain t -> GetSubstitution m b a t = t.
Proof.
  induction 1 as [|c r Hc _ IH]; simpl; [reflexivity|].
  rewrite Hc, IH. reflexivity.
Qed.

Lemma replaceAllClass_plain (p : char -> bool) (t b s : jsstring) :
  plain t -> replaceAllClass p t b s = flat_map (fun c => if p c then t else [c]) s.
Proof.
  intros Ht. revert b. induction s as [|c r IH]; intros b; simpl; [reflexivity|].
  rewrite IH. destruct (p c); [rewrite GetSubstitution_plain by exact Ht|]; reflexivity.
Qed.

Lemma replaceAllClass_delete (p : char -> bool) (b s : jsstring) :
  replaceAllClass p [] b s = filter (fun c => negb (p c)) s.
Proof.
  revert b. induction s as [|c r IH]; intros b; simpl; [reflexivity|].
  rewrite IH. destruct (p c); reflexivity.
Qed.

Lemma replaceAllClass_none (p : char -> bool) (t b s : jsstring) :
  Forall (fun c => p c = false) s -> replaceAllClass p t b s = s.
Proof.
  intros H. revert b. induction H as [|c r Hc _ IH]; intros b; [reflexivity|].
  cbn [replaceAllClass]. rewrite Hc, IH. reflexivity.
Qed.

Lemma replaceAllWord_char (x : char) (b s : jsstring) :
  replaceAllWord [x] [] b s 0 = filter (fun c => negb (Char.eqb x c)) s.
Proof.
  revert b. induction s as [|c r IH]; intros b; [reflexivity|].
  cbn. rewrite andb_true_r, IH. destruct (Char.eqb x c); reflexivity.
Qed.

Lemma replaceFirst_absent (x : char) (t b s : jsstring) :
  lacks x s -> replaceFirst [x] t b s = s.
Proof.
  intros H. revert b. induction H as [|c r Hc _ IH]; intros b; [reflexivity|].
  cbn. rewrite andb_true_r.
  destruct (Char_eqb_spec x c) as [->|_]; [contradiction|]. rewrite IH. reflexivity.
Qed.

Lemma replaceFirst_char (x y : char) (b A B : jsstring) :
  lacks x A -> Char.eqb y "$" = false ->
  replaceFirst [x] [y] b (A ++ x :: B) = A ++ y :: B.
Proof.
  intros H Hy. revert b. induction H as [|c r Hc _ IH]; intros b.
  - cbn. rewrite Char_eqb_refl, Hy. reflexivity.
  - cbn. rewrite andb_true_r.
    destruct (Char_eqb_spec x c) as [->|_]; [contradiction|]. rewrite IH. reflexivity.
Qed.

Lemma replaceFirst_prefix (x : char) (t b A B : jsstring) :
  lacks x A -> replaceFirst [x] t b (A ++ B) = A ++ replaceFirst [x] t (b ++ A) B.
Proof.
  intros H. revert b. induction H as [|c r Hc _ IH]; intros b.
  - rewrite app_nil_r. reflexivity.
  - cbn [app]. cbn [replaceFirst startsWith]. rewrite andb_true_r.
    destruct (Char_eqb_spec x c) as [->|_]; [contradiction|].
    rewrite IH, <- app_assoc. reflexivity.
Qed.

Lemma split_absent (sep : char) (s : jsstring) : lacks sep s -> split sep s = [s].
Proof.
  induction 1 as [|c r Hc _ IH]; [reflexivity|]. simpl.
  destruct (Char_eqb_spec c sep) as [->|_]; [contradiction|]. rewrite IH. reflexivity.
Qed.

Lemma split_app (sep : char) (A B : jsstring) :
  lacks sep A -> split sep (A ++ sep :: B) = A :: split sep B.
Proof.
  induction 1 as [|c r Hc _ IH]; simpl.
  - rewrite Char_eqb_refl. reflexivity.
  - destruct (Char_eqb_spec c sep) as [->|_]; [contradiction|]. rewrite IH. reflexivity.
Qed.

Lemma span_app (p : char -> bool) (A B : jsstring) :
  Forall (fun c => p c = true) A ->
  span p (A ++ B) = (A ++ fst (span p B), snd (span p B)).
Proof.
  induction 1 as [|c r Hc _ IH]; simpl.
  - destruct (span p B); reflexivity.
  - rewrite Hc, IH. reflexivity.
Qed.

Lemma span_all (p : char -> bool) (A : jsstring) :
  Forall (fun c => p c = true) A -> span p A = (A, []).
Proof.
  intros H. rewrite <- (app_nil_r A) at 1. rewrite span_app by exact H.
  simpl. rewrite app_nil_r. reflexivity.
Qed.

Lemma lacks_digits (x : char) (s : jsstring) :
  isDigit x = false -> Forall (fun c => isDigit c = true) s -> lacks x s.
Proof.
  intros Hx H. eapply Forall_impl; [|exact H]. intros c Hc ->. congruence.
Qed.

Lemma lacks_whiteSpace (x : char) (s : jsstring) :
  isWhiteSpace x = false -> Forall (fun c => isWhiteSpace c = true) s -> lacks x s.
Proof.
  intros Hx H. eapply Forall_impl; [|exact H]. intros c Hc ->. congruence.
Qed.

Lemma filter_keeps (p : char -> bool) (s : jsstring) :
  Forall (fun c => p c = true) s -> filter p s = s.
Proof.
  induction 1 as [|c r Hc _ IH]; simpl; [reflexivity|]. rewrite Hc, IH. reflexivity.
Qed.

Lemma filter_drops (p : char -> bool) (s : jsstring) :
  Forall (fun c => p c = false) s -> filter p s = [].
Proof.
  induction 1 as [|c r Hc _ IH]; simpl; [reflexivity|]. rewrite Hc. exact IH.
Qed.

Lemma filter_isDigit (s : jsstring) :
  Forall (fun c => isDigit c = true) (filter isDigit s).
Proof. apply Forall_forall. intros c Hc. apply filter_In in Hc. apply Hc. Qed.

(** Removing a character that the text lacks. *)
Lemma strip_lacks (t : char) (s : jsstring) :
  lacks t s -> filter (fun c => negb (Char.eqb t c)) s = s.
Proof.
  intros H. apply filter_keeps. eapply Forall_impl; [|exact H].
  intros c Hc. cbv beta. apply negb_true_iff, Char_eqb_neq. congruence.
Qed.

(** ** Grouping *)

Lemma group3_lacks (x : char) (ds : jsstring) :
  x <> "."%char -> lacks x ds -> lacks x (group3 ds).
Proof.
  intros Hx H. induction H as [|c r Hc _ IH]; simpl; [constructor|].
  constructor; [exact Hc|].
  destruct (_ && _); [constructor; [congruence | exact IH] | exact IH].
Qed.

Lemma flat_map_keeps (x : char) (t s : jsstring) :
  lacks x s -> flat_map (fun c => if Char.eqb x c then t else [c]) s = s.
Proof.
  induction 1 as [|c r Hc _ IH]; [reflexivity|]. cbn [flat_map].
  destruct (Char_eqb_spec x c) as [->|_]; [contradiction|]. rewrite IH. reflexivity.
Qed.

Lemma lacks_flat_map (x y : char) (t s : jsstring) :
  lacks x t -> lacks x s -> lacks x (flat_map (fun c => if Char.eqb y c then t else [c]) s).
Proof.
  intros Ht H. induction H as [|c r Hc _ IH]; [constructor|]. cbn [flat_map].
  apply Forall_app. split; [|exact IH].
  destruct (Char.eqb y c); [exact Ht | repeat constructor; exact Hc].
Qed.

Lemma lacks_minus (x : char) (neg : bool) : x <> "-"%char -> lacks x (minus neg).
Proof.
  intros Hx. destruct neg; [|constructor].
  constructor; [|constructor]. intros E. apply Hx. symmetry. exact E.
Qed.

(** The groups joined by one character, the character removed again. *)
Lemma unjoin_char (t : char) (ds : jsstring) :
  Forall (fun c => isDigit c = true) ds -> isDigit t = false ->
  filter (fun c => negb (Char.eqb t c)) (joined [t] ds) = ds.
Proof.
  intros H Ht. unfold joined. induction H as [|c r Hc _ IH]; [reflexivity|].
  cbn [group3 flat_map]. digit_neq Hc. cbn [app filter].
  rewrite (proj2 (isDigit_neq c t Hc Ht)). cbn [negb]. f_equal.
  destruct (_ && _); [|exact IH].
  cbn [flat_map]. change (Char.eqb "." ".") with true. cbn iota. cbn [app filter].
  rewrite Char_eqb_refl. cbn [negb]. exact IH.
Qed.

(** The digits of the groups joined by a text without digits. *)
Lemma digits_joined (t ds : jsstring) :
  Forall (fun c => isDigit c = true) ds -> Forall (fun c => isDigit c = false) t ->
  filter isDigit (joined t ds) = ds.
Proof.
  intros H Ht. unfold joined. induction H as [|c r Hc _ IH]; [reflexivity|].
  cbn [group3 flat_map]. digit_neq Hc. cbn [app filter]. rewrite Hc. f_equal.
  destruct (_ && _); [|exact IH].
  cbn [flat_map]. change (Char.eqb "." ".") with true. cbn iota.
  rewrite filter_app, (filter_drops isDigit t Ht). exact IH.
Qed.

(** ** Binary64 *)


(** *** Powers of two *)

Lemma pow2_pos (k : Z) : (0 < pow2 k)%Q.
Proof. apply Qpower_0_lt. reflexivity. Qed.

Lemma pow2_succ (k : Z) : (pow2 (k + 1) == (2 # 1) * pow2 k)%Q.
Proof.
  unfold pow2. rewrite Qpower_plus by discriminate.
  change ((2 # 1) ^ 1)%Q with (2 # 1)%Q. ring.
Qed.

Lemma pow2_pred (k : Z) : (pow2 k == (2 # 1) * pow2 (k - 1))%Q.
Proof. rewrite <- pow2_succ. replace (k - 1 + 1) with k by lia. reflexivity. Qed.

Lemma pow2_add (a b : Z) : (pow2 (a + b) == pow2 a * pow2 b)%Q.
Proof. unfold pow2. apply Qpower_plus. discriminate. Qed.

Lemma pow2_le (a b : Z) : a <= b -> (pow2 a <= pow2 b)%Q.
Proof. intros H. unfold pow2. apply Qpower_le_compat_l; [exact H | discriminate]. Qed.

Lemma pow2_lt (a b : Z) : a < b -> (pow2 a < pow2 b)%Q.
Proof. intros H. unfold pow2. apply Qpower_lt_compat_l; [exact H | reflexivity]. Qed.

Lemma pow2_lt_inv (a b : Z) : (pow2 a < pow2 b)%Q -> a < b.
Proof.
  intros H. destruct (Z_lt_le_dec a b) as [L|L]; [exact L|].
  apply pow2_le in L. lra.
Qed.

Lemma pow2_Z (k : Z) : 0 <= k -> (pow2 k == inject_Z (2 ^ k))%Q.
Proof. intros H. unfold pow2. rewrite Zpower_Qpower by exact H. reflexivity. Qed.

(** *** The binary exponent *)

Lemma Qabs_num_pos (q : Q) : ~ q == 0 -> 0 < Qnum (Qabs q).
Proof.
  intros H. destruct q as [n d]. unfold Qeq in H. cbn in *.
  rewrite Z.mul_1_r in H. lia.
Qed.

Lemma Q_num_den (a : Q) : (a * inject_Z (Z.pos (Qden a)) == inject_Z (Qnum a))%Q.
Proof.
  destruct a as [x y]. unfold Qeq, Qmult, inject_Z. cbn [Qnum Qden].
  rewrite Pos.mul_1_r. ring.
Qed.

Lemma exponent_spec (q : Q) :
  ~ q == 0 -> (pow2 (exponent q) <= Qabs q)%Q /\ (Qabs q < pow2 (exponent q + 1))%Q.
Proof.
  intros Hq. unfold exponent. cbv zeta.
  set (a := Qabs q).
  pose proof (Qabs_num_pos q Hq) as Hn. fold a in Hn.
  set (n := Qnum a) in *. set (d := Z.pos (Qden a)).
  assert (Hd : 0 < d) by (unfold d; lia).
  pose proof (Z.log2_spec n Hn) as [Ln Un].
  pose proof (Z.log2_spec d Hd) as [Ld Ud].
  pose proof (Z.log2_nonneg n) as Nn. pose proof (Z.log2_nonneg d) as Nd.
  set (ln := Z.log2 n) in *. set (ld := Z.log2 d) in *.
  rewrite <- Z.add_1_r in Un, Ud.
  assert (Ea : (a * inject_Z d == inject_Z n)%Q) by apply Q_num_den.
  assert (EP : (pow2 (ln - ld) * pow2 ld == pow2 ln)%Q).
  { rewrite <- pow2_add. replace (ln - ld + ld) with ln by lia. reflexivity. }
  pose proof (pow2_pos (ln - ld)) as PP. pose proof (pow2_pos ld) as PB.
  assert (QLn : (pow2 ln <= inject_Z n)%Q) by (rewrite pow2_Z by exact Nn; rewrite <- Zle_Qle; exact Ln).
  assert (QUn : (inject_Z n < (2 # 1) * pow2 ln)%Q).
  { rewrite <- pow2_succ, pow2_Z by lia. rewrite <- Zlt_Qlt. exact Un. }
  assert (QLd : (pow2 ld <= inject_Z d)%Q) by (rewrite pow2_Z by exact Nd; rewrite <- Zle_Qle; exact Ld).
  assert (QUd : (inject_Z d < (2 # 1) * pow2 ld)%Q).
  { rewrite <- pow2_succ, pow2_Z by lia. rewrite <- Zlt_Qlt. exact Ud. }
  assert (Ha : (0 <= a)%Q) by apply Qabs_nonneg.
  set (P := pow2 (ln - ld)) in *. set (B := pow2 ld) in *. set (A := pow2 ln) in *.
  set (D := inject_Z d) in *. set (N := inject_Z n) in *.
  assert (D0 : (0 < D)%Q) by lra.
  assert (PD : (P * B <= P * D)%Q) by (apply Qmult_le_l; assumption).
  assert (PD' : (P * D < P * ((2 # 1) * B))%Q) by (apply Qmult_lt_l; assumption).
  assert (Up : (a < (2 # 1) * P)%Q).
  { apply (proj1 (Qmult_lt_r a ((2 # 1) * P) D D0)). lra. }
  assert (Lo : (P < (2 # 1) * a)%Q).
  { apply (proj1 (Qmult_lt_r P ((2 # 1) * a) D D0)). lra. }
  destruct (Qle_bool P a) eqn:T.
  - apply Qle_bool_iff in T. split; [exact T|]. rewrite pow2_succ. exact Up.
  - assert (T' : (a < P)%Q).
    { destruct (Qlt_le_dec a P) as [L|L]; [exact L|].
      apply Qle_bool_iff in L. congruence. }
    replace (ln - ld - 1 + 1) with (ln - ld) by lia. split; [|exact T'].
    pose proof (pow2_pred (ln - ld)) as E. fold P in E. lra.
Qed.

(** *** Rounding to the nearest integer, a tie going to the even one *)

Lemma nearestEven_spec (x : Q) : (Qabs (inject_Z (nearestEven x) - x) <= 1 # 2)%Q.
Proof.
  unfold nearestEven. cbv zeta.
  pose proof (Qfloor_le x) as L. pose proof (Qlt_floor x) as U.
  rewrite inject_Z_plus in U. change (inject_Z 1) with 1%Q in U.
  apply Qabs_Qle_condition.
  destruct (Qcompare_spec (x - inject_Z (Qfloor x)) (1 # 2)) as [E|E|E].
  - destruct (Z.even (Qfloor x)); [|rewrite inject_Z_plus; change (inject_Z 1) with 1%Q]; lra.
  - lra.
  - rewrite inject_Z_plus. change (inject_Z 1) with 1%Q. lra.
Qed.

Lemma nearestEven_Z (z : Z) : nearestEven (inject_Z z) = z.
Proof.
  unfold nearestEven. cbv zeta. rewrite Qfloor_Z.
  destruct (Qcompare_spec (inject_Z z - inject_Z z) (1 # 2)) as [E|E|E];
    [lra | reflexivity | lra].
Qed.

Lemma nearestEven_comp (x y : Q) : (x == y)%Q -> nearestEven x = nearestEven y.
Proof.
  intros E. unfold nearestEven. cbv zeta. rewrite (Qfloor_comp x y E).
  assert (C : (x - inject_Z (Qfloor y) ?= 1 # 2)%Q = (y - inject_Z (Qfloor y) ?= 1 # 2)%Q).
  { rewrite E. reflexivity. }
  rewrite C. reflexivity.
Qed.

Lemma nearestEven_nonneg (x : Q) : (0 <= x)%Q -> 0 <= nearestEven x.
Proof.
  intros H. unfold nearestEven. cbv zeta.
  assert (F : 0 <= Qfloor x).
  { change 0 with (Qfloor 0). apply Qfloor_resp_le. exact H. }
  destruct (Qcompare _ _); [destruct (Z.even _)| |]; lia.
Qed.

Lemma nearestEven_nonpos (x : Q) : (x <= 0)%Q -> nearestEven x <= 0.
Proof.
  intros H. pose proof (nearestEven_spec x) as S. apply Qabs_Qle_condition in S.
  destruct (Z_le_gt_dec (nearestEven x) 0) as [L|G]; [exact L|].
  assert (Q1 : (1 <= inject_Z (nearestEven x))%Q).
  { change 1%Q with (inject_Z 1). rewrite <- Zle_Qle. lia. }
  lra.
Qed.

(** *** Rounding to binary64 *)

Lemma Qeq_bool_false (x y : Q) : ~ x == y -> Qeq_bool x y = false.
Proof.
  intros H. destruct (Qeq_bool x y) eqn:E; [|reflexivity].
  apply Qeq_bool_iff in E. contradiction.
Qed.

Lemma Qle_bool_false (x y : Q) : (y < x)%Q -> Qle_bool x y = false.
Proof.
  intros H. destruct (Qle_bool x y) eqn:E; [|reflexivity].
  apply Qle_bool_iff in E. lra.
Qed.

Lemma Qred_Z (z : Z) (v : Q) : (v == inject_Z z)%Q -> Qred v = inject_Z z.
Proof.
  intros E. rewrite (Qred_complete _ _ E). apply Qcanon.Qred_identity.
  cbn. apply Z.gcd_1_r.
Qed.

(** The error of [r64] on a number of the normal range below [2^p] is at
    most [2^(p-54)], half the distance of the binary64 values there. *)
Lemma r64_near (q : Q) (lo p : Z) :
  -1022 <= lo -> p <= 1023 ->
  (pow2 lo <= Qabs q)%Q -> (Qabs q < pow2 p)%Q ->
  exists q', r64 q = Fin q' /\ (Qabs (q' - q) <= pow2 (p - 54))%Q.
Proof.
  intros Hlo Hp Hl Hu.
  pose proof (pow2_pos lo) as Plo.
  assert (Hq : ~ q == 0).
  { intros E. rewrite E in Hl. change (Qabs 0) with 0%Q in Hl. lra. }
  destruct (exponent_spec q Hq) as [EL EU].
  assert (He1 : exponent q < p) by (apply pow2_lt_inv; lra).
  assert (He2 : lo < exponent q + 1) by (apply pow2_lt_inv; lra).
  unfold r64. rewrite (Qeq_bool_false _ _ Hq). cbv zeta.
  rewrite Z.max_l by lia.
  set (e := exponent q) in *. set (u := pow2 (e - 52)).
  assert (Pu : (0 < u)%Q) by apply pow2_pos.
  set (m := nearestEven (q / u)).
  pose proof (nearestEven_spec (q / u)) as S. fold m in S.
  assert (Sv : (Qabs (inject_Z m * u - q) <= u * (1 # 2))%Q).
  { setoid_replace (inject_Z m * u - q)%Q with ((inject_Z m - q / u) * u)%Q
      by (field; lra).
    rewrite Qabs_Qmult, (Qabs_pos u) by lra.
    rewrite (Qmult_comm u). apply Qmult_le_compat_r; [exact S | lra]. }
  assert (Eu : (pow2 e == pow2 52 * u)%Q).
  { unfold u. rewrite <- pow2_add. replace (52 + (e - 52)) with e by lia. reflexivity. }
  assert (P52 : (pow2 52 == inject_Z (2 ^ 52))%Q) by (apply pow2_Z; lia).
  assert (Big : (2 <= pow2 52)%Q).
  { rewrite P52. change 2%Q with (inject_Z 2). rewrite <- Zle_Qle. lia. }
  set (v := (inject_Z m * u)%Q) in *.
  assert (Hv : (Qabs q - u * (1 # 2) <= Qabs v)%Q /\ (Qabs v <= Qabs q + u * (1 # 2))%Q).
  { apply Qabs_Qle_condition in Sv.
    split; apply Qabs_case; intros; revert Sv; apply Qabs_case; intros; lra. }
  assert (Uu : (u <= pow2 e)%Q) by nra.
  assert (Hv0 : ~ v == 0).
  { intros E. rewrite E in Hv. change (Qabs 0) with 0%Q in Hv. nra. }
  rewrite (Qeq_bool_false _ _ Hv0).
  assert (Hover : (Qabs v < pow2 1024)%Q).
  { pose proof (pow2_le (p + 1) 1024 ltac:(lia)) as M.
    pose proof (pow2_le e p ltac:(lia)) as M2.
    rewrite pow2_succ in M. lra. }
  rewrite (Qle_bool_false _ _ Hover).
  exists (Qred v). split; [reflexivity|].
  rewrite Qred_correct.
  pose proof (pow2_le (e - 53) (p - 54) ltac:(lia)) as M3.
  assert (Eh : (u * (1 # 2) == pow2 (e - 53))%Q).
  { unfold u. pose proof (pow2_pred (e - 52)) as E. replace (e - 52 - 1) with (e - 53) in E by lia.
    lra. }
  lra.
Qed.

Lemma r64_zero : r64 0 = Fin 0.
Proof. reflexivity. Qed.

(** What [r64] makes of a number that is not zero. *)
Lemma r64_unfold (q : Q) :
  ~ q == 0 ->
  let e := Z.max (exponent q) (-1022) in
  let u := pow2 (e - 52) in
  let v := (inject_Z (nearestEven (q / u)) * u)%Q in
  r64 q =
  if Qeq_bool v 0 then (if Qneg q then NegZero else Fin 0)
  else if Qle_bool (pow2 1024) (Qabs v) then Infinity (Qneg q)
  else Fin (Qred v).
Proof. intros H. unfold r64. rewrite (Qeq_bool_false _ _ H). reflexivity. Qed.

(** An integer has a nonnegative binary exponent. *)
Lemma exponent_Z (z : Z) : z <> 0 -> 0 <= exponent (inject_Z z).
Proof.
  intros Hz.
  assert (Hq : ~ inject_Z z == 0).
  { intros E. unfold Qeq in E. cbn in E. lia. }
  destruct (exponent_spec _ Hq) as [_ U].
  assert (One : (1 <= Qabs (inject_Z z))%Q).
  { apply Qabs_case; intros H.
    - change 0%Q with (inject_Z 0) in H. rewrite <- Zle_Qle in H.
      change 1%Q with (inject_Z 1). rewrite <- Zle_Qle. lia.
    - change 0%Q with (inject_Z 0) in H. rewrite <- Zle_Qle in H.
      rewrite <- inject_Z_opp. change 1%Q with (inject_Z 1). rewrite <- Zle_Qle. lia. }
  assert (L : -1 < exponent (inject_Z z)).
  { replace (-1) with (0 - 1) by lia.
    assert (0 < exponent (inject_Z z) + 1); [|lia].
    apply pow2_lt_inv. change (pow2 0) with 1%Q. lra. }
  lia.
Qed.

Lemma Qabs_Z (z : Z) : (Qabs (inject_Z z) == inject_Z (Z.abs z))%Q.
Proof. unfold Qabs, inject_Z. reflexivity. Qed.

(** An integer of up to 53 bits is a binary64 value. *)
Lemma r64_Z (z : Z) : Z.abs z <= 2 ^ 53 -> r64 (inject_Z z) = Fin (inject_Z z).
Proof.
  intros Hz. destruct (Z.eq_dec z 0) as [->|Hn]; [reflexivity|].
  assert (Hq : ~ inject_Z z == 0).
  { intros E. unfold Qeq in E. cbn in E. lia. }
  rewrite (r64_unfold _ Hq). cbv zeta.
  pose proof (exponent_Z z Hn) as He0.
  destruct (exponent_spec _ Hq) as [EL EU].
  rewrite Z.max_l by lia.
  set (e := exponent (inject_Z z)) in *.
  assert (He : e <= 53).
  { assert (e < 54); [|lia]. apply pow2_lt_inv.
    assert ((Qabs (inject_Z z) <= pow2 53)%Q).
    { rewrite Qabs_Z, pow2_Z by lia. rewrite <- Zle_Qle. exact Hz. }
    pose proof (pow2_lt 53 54 ltac:(lia)). lra. }
  set (u := pow2 (e - 52)).
  assert (Pu : (0 < u)%Q) by apply pow2_pos.
  assert (Hint : exists w, (inject_Z z / u == inject_Z w)%Q).
  { destruct (Z_le_gt_dec e 52) as [L|G].
    - exists (z * 2 ^ (52 - e)). rewrite inject_Z_mult, <- pow2_Z by lia.
      unfold Qdiv. apply Qmult_comp; [reflexivity|].
      unfold u, pow2. rewrite <- Qpower_opp.
      replace (- (e - 52)) with (52 - e) by lia. reflexivity.
    - assert (e = 53) by lia. subst e.
      assert (Ez : Z.abs z = 2 ^ 53).
      { apply Z.le_antisymm; [exact Hz|].
        rewrite Zle_Qle, <- Qabs_Z, <- pow2_Z by lia.
        replace 53 with (exponent (inject_Z z)) at 1 by assumption. exact EL. }
      exists (z / 2). unfold u. replace (exponent (inject_Z z) - 52) with 1 by lia.
      change (pow2 1) with (2 # 1)%Q.
      assert (z = 2 * (z / 2)).
      { destruct (Z.abs_spec z) as [[_ A]|[_ A]]; rewrite Ez in A.
        - subst z. reflexivity.
        - assert (z = - 2 ^ 53) by lia. subst z. reflexivity. }
      rewrite H0 at 1. rewrite inject_Z_mult. field. }
  destruct Hint as (w & Ew).
  rewrite (nearestEven_comp _ _ Ew), nearestEven_Z.
  assert (Ev : (inject_Z w * u == inject_Z z)%Q).
  { rewrite <- Ew. field. lra. }
  rewrite (Qeq_bool_false (inject_Z w * u) 0) by (rewrite Ev; exact Hq).
  rewrite Qle_bool_false.
  - rewrite (Qred_Z z) by exact Ev. reflexivity.
  - rewrite Ev, Qabs_Z.
    assert ((inject_Z (Z.abs z) <= pow2 53)%Q).
    { rewrite pow2_Z by lia. rewrite <- Zle_Qle. exact Hz. }
    pose proof (pow2_lt 53 1024 ltac:(lia)). lra.
Qed.

(** The finite results of [r64] lie on the grid of the binary64 values of
    the exponent, within half a step of the number rounded. *)
Lemma r64_cases (q : Q) :
  ~ q == 0 ->
  let u := pow2 (Z.max (exponent q) (-1022) - 52) in
  r64 q = NegZero \/ r64 q = Fin 0 \/ r64 q = Infinity (Qneg q) \/
  exists m, r64 q = Fin (Qred (inject_Z m * u)) /\
            (Qabs (inject_Z m * u - q) <= u * (1 # 2))%Q.
Proof.
  intros Hq u. rewrite (r64_unfold q Hq). cbv zeta. fold u.
  assert (Pu : (0 < u)%Q) by apply pow2_pos.
  destruct (Qeq_bool _ 0); [destruct (Qneg q); tauto|].
  destruct (Qle_bool _ _); [tauto|].
  right. right. right. exists (nearestEven (q / u)). split; [reflexivity|].
  pose proof (nearestEven_spec (q / u)) as S.
  setoid_replace (inject_Z (nearestEven (q / u)) * u - q)%Q
    with ((inject_Z (nearestEven (q / u)) - q / u) * u)%Q by (field; lra).
  rewrite Qabs_Qmult, (Qabs_pos u) by lra.
  rewrite (Qmult_comm u). apply Qmult_le_compat_r; [exact S | lra].
Qed.

(** [r64] keeps the sign. *)
Lemma r64_nonneg (q : Q) :
  (0 <= q)%Q -> r64 q = Infinity false \/ exists q', r64 q = Fin q' /\ (0 <= q')%Q.
Proof.
  intros H. destruct (Qeq_dec q 0) as [E|Hq].
  - right. exists 0%Q. split; [|lra].
    unfold r64. rewrite (proj2 (Qeq_bool_iff q 0) E). reflexivity.
  - rewrite (r64_unfold q Hq). cbv zeta.
    assert (N : Qneg q = false) by (unfold Qneg; rewrite (proj2 (Qle_bool_iff 0 q) H); reflexivity).
    rewrite N.
    set (u := pow2 _). assert (Pu : (0 < u)%Q) by apply pow2_pos.
    destruct (Qeq_bool _ 0); [right; exists 0%Q; split; [reflexivity | lra]|].
    destruct (Qle_bool _ _); [left; reflexivity|].
    right. eexists. split; [reflexivity|]. rewrite Qred_correct.
    apply Qmult_le_0_compat; [|lra].
    change 0%Q with (inject_Z 0). rewrite <- Zle_Qle. apply nearestEven_nonneg.
    apply Qle_shift_div_l; lra.
Qed.

(** The binary64 value nearest to an integer is an integer or an
    infinity. *)
Lemma r64_integral (z : Z) :
  (exists s, r64 (inject_Z z) = Infinity s) \/ exists w, r64 (inject_Z z) = Fin (inject_Z w).
Proof.
  destruct (Z.eq_dec z 0) as [->|Hn]; [right; exists 0; reflexivity|].
  assert (Hq : ~ inject_Z z == 0).
  { intros E. unfold Qeq in E. cbn in E. lia. }
  rewrite (r64_unfold _ Hq). cbv zeta.
  pose proof (exponent_Z z Hn) as He0. rewrite Z.max_l by lia.
  set (e := exponent (inject_Z z)) in *. set (u := pow2 (e - 52)).
  destruct (Qeq_bool _ 0) eqn:V0.
  - apply Qeq_bool_iff in V0. right. exists 0.
    (* the value is not zero, but the case costs nothing *)
    destruct (Qneg (inject_Z z)) eqn:N; [|reflexivity].
    exfalso. apply Hq.
    pose proof (nearestEven_spec (inject_Z z / u)) as S.
    assert (Pu : (0 < u)%Q) by apply pow2_pos.
    assert (M0 : (inject_Z (nearestEven (inject_Z z / u)) == 0)%Q).
    { apply (Qmult_integral_l u); [lra|]. rewrite Qmult_comm. exact V0. }
    rewrite M0 in S. apply Qabs_Qle_condition in S.
    destruct (exponent_spec _ Hq) as [EL _]. fold e in EL.
    assert (Eu : (pow2 e == pow2 52 * u)%Q).
    { unfold u. rewrite <- pow2_add. replace (52 + (e - 52)) with e by lia. reflexivity. }
    assert (Big : (2 <= pow2 52)%Q).
    { rewrite pow2_Z by lia. change 2%Q with (inject_Z 2). rewrite <- Zle_Qle. lia. }
    assert (Hzu : (Qabs (inject_Z z) <= u * (1 # 2))%Q).
    { setoid_replace (inject_Z z) with ((inject_Z z / u) * u)%Q by (field; lra).
      rewrite Qabs_Qmult, (Qabs_pos u) by lra. rewrite (Qmult_comm u).
      apply Qmult_le_compat_r; [|lra].
      apply Qabs_Qle_condition. lra. }
    nra.
  - destruct (Qle_bool _ _); [left; eexists; reflexivity|].
    right. destruct (Z_le_gt_dec 52 e) as [L|G].
    + exists (nearestEven (inject_Z z / u) * 2 ^ (e - 52)). f_equal. apply Qred_Z.
      rewrite inject_Z_mult. apply Qmult_comp; [reflexivity|]. apply pow2_Z. lia.
    + exists z. f_equal. apply Qred_Z.
      assert (Ew : (inject_Z z / u == inject_Z (z * 2 ^ (52 - e)))%Q).
      { rewrite inject_Z_mult, <- pow2_Z by lia.
        unfold Qdiv. apply Qmult_comp; [reflexivity|].
        unfold u, pow2. rewrite <- Qpower_opp.
        replace (- (e - 52)) with (52 - e) by lia. reflexivity. }
      rewrite (nearestEven_comp _ _ Ew), nearestEven_Z, <- Ew. field.
      pose proof (pow2_pos (e - 52)). fold u in H. lra.
Qed.

(** The exponent and the binary64 value are those of the number, however
    the fraction is written. *)
Lemma exponent_comp (p q : Q) : ~ q == 0 -> (p == q)%Q -> exponent p = exponent q.
Proof.
  intros Hq E.
  assert (Hp : ~ p == 0) by (rewrite E; exact Hq).
  destruct (exponent_spec p Hp) as [L1 U1]. destruct (exponent_spec q Hq) as [L2 U2].
  assert (Ea : (Qabs p == Qabs q)%Q) by (rewrite E; reflexivity).
  assert (exponent p < exponent q + 1) by (apply pow2_lt_inv; lra).
  assert (exponent q < exponent p + 1) by (apply pow2_lt_inv; lra).
  lia.
Qed.

Lemma r64_comp (p q : Q) : (p == q)%Q -> r64 p = r64 q.
Proof.
  intros E. destruct (Qeq_dec q 0) as [Z0|Hq].
  - unfold r64. rewrite (proj2 (Qeq_bool_iff q 0) Z0).
    rewrite (proj2 (Qeq_bool_iff p 0)) by (rewrite E; exact Z0). reflexivity.
  - assert (Hp : ~ p == 0) by (rewrite E; exact Hq).
    rewrite (r64_unfold p Hp), (r64_unfold q Hq). cbv zeta.
    rewrite (exponent_comp p q Hq E).
    set (u := pow2 _).
    assert (En : nearestEven (p / u) = nearestEven (q / u))
      by (apply nearestEven_comp; rewrite E; reflexivity).
    rewrite En. unfold Qneg. rewrite (Qleb_comp 0%Q 0%Q (reflexivity _) p q E).
    destruct (Qeq_bool _ 0); [reflexivity|]. reflexivity.
Qed.

(** A number of 53 bits at most, scaled by a power of two of the range, is
    a binary64 value. *)
Lemma r64_dyadic (q : Q) (m j : Z) :
  (q == inject_Z m * pow2 j)%Q -> Z.abs m < 2 ^ 53 -> -1074 <= j <= 970 ->
  r64 q = Fin (Qred q).
Proof.
  intros Eq Hm Hj. destruct (Qeq_dec q 0) as [Z0|Hq].
  - unfold r64. rewrite (proj2 (Qeq_bool_iff q 0) Z0).
    f_equal. symmetry. apply (Qred_Z 0). exact Z0.
  - rewrite (r64_unfold q Hq). cbv zeta.
    destruct (exponent_spec q Hq) as [EL EU].
    pose proof (pow2_pos j) as Pj.
    assert (Ha : (Qabs q == inject_Z (Z.abs m) * pow2 j)%Q).
    { rewrite Eq, Qabs_Qmult, Qabs_Z, (Qabs_pos (pow2 j)) by lra. reflexivity. }
    assert (Hm' : (inject_Z (Z.abs m) < pow2 53)%Q).
    { rewrite pow2_Z by lia. rewrite <- Zlt_Qlt. exact Hm. }
    assert (He : exponent q < 53 + j).
    { apply pow2_lt_inv. rewrite pow2_add.
      assert ((inject_Z (Z.abs m) * pow2 j < pow2 53 * pow2 j)%Q)
        by (apply Qmult_lt_compat_r; lra).
      lra. }
    set (E := Z.max (exponent q) (-1022)).
    assert (HE : E - 52 <= j) by (unfold E; lia).
    set (u := pow2 (E - 52)).
    assert (Pu : (0 < u)%Q) by apply pow2_pos.
    assert (Ew : (q / u == inject_Z (m * 2 ^ (j - (E - 52))))%Q).
    { rewrite inject_Z_mult, <- pow2_Z by lia.
      replace j with ((j - (E - 52)) + (E - 52)) in Eq at 1 by lia.
      rewrite pow2_add in Eq. fold u in Eq. rewrite Eq. field. lra. }
    rewrite (nearestEven_comp _ _ Ew), nearestEven_Z.
    assert (Ev : (inject_Z (m * 2 ^ (j - (E - 52))) * u == q)%Q).
    { rewrite <- Ew. field. lra. }
    rewrite (Qeq_bool_false _ 0) by (rewrite Ev; exact Hq).
    rewrite Qle_bool_false.
    + f_equal. apply Qred_complete. exact Ev.
    + rewrite Ev.
      pose proof (pow2_le (exponent q + 1) 1024 ltac:(lia)). lra.
Qed.

Lemma isNaN_r64 (q : Q) : isNaN (r64 q) = false.
Proof.
  unfold r64. destruct (Qeq_bool q 0); [reflexivity|]. cbv zeta.
  destruct (Qeq_bool _ 0); [destruct (Qneg q); reflexivity|].
  destruct (Qle_bool _ _); reflexivity.
Qed.

Lemma Qneg_spec (q : Q) : Qneg q = true <-> (q < 0)%Q.
Proof.
  unfold Qneg. rewrite negb_true_iff. split; intros H.
  - destruct (Qlt_le_dec q 0) as [L|L]; [exact L|].
    apply Qle_bool_iff in L. congruence.
  - apply Qle_bool_false. exact H.
Qed.

Lemma Qneg_false (q : Q) : (0 <= q)%Q -> Qneg q = false.
Proof. intros H. unfold Qneg. rewrite (proj2 (Qle_bool_iff 0 q) H). reflexivity. Qed.

Lemma Qneg_true (q : Q) : (q < 0)%Q -> Qneg q = true.
Proof. apply Qneg_spec. Qed.

(** The floor of a number between an integer and the next. *)
Lemma Qfloor_between (q : Q) (z : Z) :
  (inject_Z z <= q)%Q -> (q < inject_Z z + 1)%Q -> Qfloor q = z.
Proof.
  intros L U. pose proof (Qfloor_le q) as FL. pose proof (Qlt_floor q) as FU.
  rewrite inject_Z_plus in FU. change (inject_Z 1) with 1%Q in FU.
  assert (A : (inject_Z z < inject_Z (Qfloor q) + 1)%Q) by lra.
  assert (B : (inject_Z (Qfloor q) < inject_Z z + 1)%Q) by lra.
  change 1%Q with (inject_Z 1) in A, B. rewrite <- inject_Z_plus in A, B.
  rewrite <- Zlt_Qlt in A, B. lia.
Qed.

(** [Math.round] of a number less than a half away from an integer. *)
Lemma Math_round_near (q : Q) (z : Z) :
  (inject_Z z - (1 # 2) <= q)%Q -> (q < inject_Z z + (1 # 2))%Q ->
  z <> 0 \/ (0 <= q)%Q ->
  Math_round (Fin q) = Fin (inject_Z z).
Proof.
  intros L U S. unfold Math_round.
  rewrite (Qfloor_between (q + (1 # 2)) z) by lra.
  destruct (Qle_bool (- (1 # 2)) q) eqn:A; [|reflexivity].
  destruct (Qneg q) eqn:B; [|reflexivity]. exfalso.
  apply Qle_bool_iff in A. apply Qneg_spec in B.
  destruct S as [S|S]; [|lra].
  assert (Hz : (inject_Z z < inject_Z 1)%Q /\ (inject_Z (-1) < inject_Z z)%Q).
  { change (inject_Z 1) with 1%Q. change (inject_Z (-1)) with (-1 # 1)%Q. split; lra. }
  destruct Hz as [H1 H2]. rewrite <- Zlt_Qlt in H1, H2. lia.
Qed.

Lemma Math_round_whole (z : Z) : Math_round (Fin (inject_Z z)) = Fin (inject_Z z).
Proof.
  apply Math_round_near; [lra | lra |].
  destruct (Z.eq_dec z 0) as [->|H]; [right; apply Qle_refl | left; exact H].
Qed.

(** An integer that is a number is what [Math.round] leaves as it is. *)
Lemma Math_round_ofZ (z : Z) : Math_round (ofZ z) = ofZ z.
Proof.
  unfold ofZ. destruct (r64_integral z) as [(s & ->)|(w & ->)]; [reflexivity|].
  apply Math_round_whole.
Qed.

Lemma ofZ_small (z : Z) : Z.abs z <= 2 ^ 53 -> ofZ z = Fin (inject_Z z).
Proof. apply r64_Z. Qed.

(** ** The string of an amount of whole cents *)

Lemma sameString_eq (a b : jsstring) : sameString a b = true -> a = b.
Proof.
  revert b. induction a as [|x a IH]; intros [|y b] H; try discriminate; [reflexivity|].
  simpl in H. apply andb_true_iff in H. destruct H as [H1 H2].
  apply N.eqb_eq in H1. rewrite H1, (IH b H2). reflexivity.
Qed.

Lemma below_100 (P : Z -> bool) :
  forallb P (map Z.of_nat (seq 0 100)) = true -> forall r, 0 <= r < 100 -> P r = true.
Proof.
  intros H r Hr. rewrite forallb_forall in H. apply H.
  apply in_map_iff. exists (Z.to_nat r). split; [lia | apply in_seq; lia].
Qed.

Lemma toFloat_cents (big : bool) (n : Z) :
  integerWithDecimalsToFloatNumber (cents big n) = over100 (ofZ n).
Proof. destruct big; reflexivity. Qed.

Lemma inject_Z_abs_le (z b : Z) : Z.abs z <= b -> (Qabs (inject_Z z) <= inject_Z b)%Q.
Proof. intros H. rewrite Qabs_Z, <- Zle_Qle. exact H. Qed.

Lemma inject_Z_abs_ge (z : Z) : z <> 0 -> (1 <= Qabs (inject_Z z))%Q.
Proof.
  intros H. rewrite Qabs_Z. change 1%Q with (inject_Z 1). rewrite <- Zle_Qle. lia.
Qed.

(** The binary64 value of [n] hundredths, [n] at most [10^14 + 99]. *)
Lemma r64_hundredths (n : Z) :
  Z.abs n <= 10 ^ 14 + 99 ->
  exists q, r64 (inject_Z n * (1 # 100)) = Fin q /\ hundredths n q.
Proof.
  intros Hn. destruct (Z.eq_dec n 0) as [->|Hz].
  - exists 0%Q. split; [reflexivity|]. split; [vm_compute; discriminate | reflexivity].
  - pose proof (inject_Z_abs_le n _ Hn) as HU. pose proof (inject_Z_abs_ge n Hz) as HL.
    assert (Ea : (Qabs (inject_Z n * (1 # 100)) == Qabs (inject_Z n) * (1 # 100))%Q)
      by (rewrite Qabs_Qmult; reflexivity).
    destruct (r64_near (inject_Z n * (1 # 100)) (-7) 40) as (q & E & Hq); [lia | lia | | |].
    + rewrite Ea. change (pow2 (-7)) with (1 # 128)%Q. lra.
    + rewrite Ea. apply Qle_lt_trans with (inject_Z (10 ^ 14 + 99) * (1 # 100))%Q; [lra|].
      vm_compute. reflexivity.
    + exists q. split; [exact E|]. split; [|contradiction].
      change (pow2 (40 - 54)) with (1 # 16384)%Q in Hq. exact Hq.
Qed.

(** The number of [n] cents, [n] at most [10^14]. *)
Lemma float_cents (n : Z) :
  Z.abs n <= 10 ^ 14 -> exists q, over100 (ofZ n) = Fin q /\ hundredths n q.
Proof.
  intros Hn. rewrite ofZ_small by lia. apply r64_hundredths. lia.
Qed.

(** The sign and the size of the number of [n] cents. *)
Lemma hundredths_abs (n : Z) (q : Q) :
  hundredths n q ->
  Qneg q = (n <? 0) /\
  (Qabs (Qabs q - inject_Z (Z.abs n) * (1 # 100)) <= 1 # 16384)%Q.
Proof.
  intros [H H0]. apply Qabs_Qle_condition in H.
  destruct (Z.ltb_spec n 0) as [Hn|Hn].
  - assert (Hz : (inject_Z n <= inject_Z (-1))%Q) by (rewrite <- Zle_Qle; lia).
    change (inject_Z (-1)) with (-1 # 1)%Q in Hz.
    assert (Hq : (q < 0)%Q) by lra.
    split; [apply Qneg_true; exact Hq|].
    rewrite (Qabs_neg q) by lra. replace (Z.abs n) with (- n) by lia.
    rewrite inject_Z_opp. apply Qabs_Qle_condition. lra.
  - assert (Hq : (0 <= q)%Q).
    { destruct (Z.eq_dec n 0) as [E|E].
      - rewrite (H0 E). apply Qle_refl.
      - assert (Hz : (inject_Z 1 <= inject_Z n)%Q) by (rewrite <- Zle_Qle; lia).
        change (inject_Z 1) with 1%Q in Hz. lra. }
    split; [apply Qneg_false; exact Hq|].
    rewrite (Qabs_pos q) by exact Hq. replace (Z.abs n) with n by lia.
    apply Qabs_Qle_condition. exact H.
Qed.

Lemma toLocaleString_cents (n : Z) (q : Q) :
  hundredths n q ->
  toLocaleString_deDE (Fin q) =
  minus (n <? 0) ++ group3 (digits (Z.abs n / 100)) ++ fractionOf (Z.abs n mod 100).
Proof.
  intros H. destruct (hundredths_abs n q H) as [Hs Ha].
  apply Qabs_Qle_condition in Ha.
  unfold toLocaleString_deDE, fractionOf. rewrite Hs.
  rewrite (Qfloor_between _ (10 * Z.abs n)).
  - replace (10 * Z.abs n / 1000) with (Z.abs n / 100)
      by (rewrite <- (Z.div_mul_cancel_l (Z.abs n) 100 10) by lia; reflexivity).
    replace ((10 * Z.abs n) mod 1000) with (10 * (Z.abs n mod 100))
      by (change 1000 with (10 * 100); rewrite Z.mul_mod_distr_l by lia; reflexivity).
    reflexivity.
  - rewrite inject_Z_mult. change (inject_Z 10) with (10 # 1)%Q. lra.
  - rewrite inject_Z_mult. change (inject_Z 10) with (10 # 1)%Q. lra.
Qed.

Lemma fractionOf_cases (r : Z) :
  0 <= r < 100 ->
  fractionOf r =
  if r =? 0 then []
  else if r mod 10 =? 0 then ","%char :: fixedDigits 1 (r / 10)
  else ","%char :: fixedDigits 2 r.
Proof.
  intros Hr. apply sameString_eq. revert r Hr. apply below_100. vm_compute. reflexivity.
Qed.

Lemma suitable_cents (policy : DecimalPolicy) (A : jsstring) (r : Z) :
  lacks "," A -> 0 <= r < 100 ->
  amountNiceSuitableString policy (A ++ fractionOf r) =
  A ++ match policy with
       | showAlways => ","%char :: fixedDigits 2 r
       | hideAlways => []
       | hideIfZero => if r =? 0 then [] else ","%char :: fixedDigits 2 r
       end.
Proof.
  intros HA Hr. rewrite (fractionOf_cases r Hr). unfold amountNiceSuitableString.
  destruct (Z.eqb_spec r 0) as [->|Hz].
  - rewrite app_nil_r, (split_absent _ _ HA).
    destruct policy; cbn [nth_error ToString falsy]; rewrite ?app_nil_r; reflexivity.
  - destruct (Z.eqb_spec (r mod 10) 0) as [Hm|Hm].
    + rewrite (split_app _ _ _ HA), split_absent
        by (apply lacks_digits; [reflexivity | apply fixedDigits_isDigit]).
      cbn [nth_error ToString falsy fixedDigits List.length app Nat.eqb].
      replace (r / 10 mod 10) with (r / 10)
        by (symmetry; apply Z.mod_small; split;
            [apply Z.div_pos; lia | apply Z.div_lt_upper_bound; lia]).
      rewrite Hm. destruct policy; rewrite <- ?app_assoc, ?app_nil_r; reflexivity.
    + rewrite (split_app _ _ _ HA), split_absent
        by (apply lacks_digits; [reflexivity | apply fixedDigits_isDigit]).
      cbn [nth_error ToString falsy fixedDigits List.length app Nat.eqb slice0 firstn].
      destruct policy; rewrite ?app_nil_r; reflexivity.
Qed.

Lemma lacks_units (x : char) (n : Z) :
  isDigit x = false -> x <> "-"%char -> x <> "."%char ->
  lacks x (minus (n <? 0) ++ group3 (digits (Z.abs n / 100))).
Proof.
  intros Hx Hm Hd. apply Forall_app. split.
  - apply lacks_minus. exact Hm.
  - apply group3_lacks; [exact Hd|]. apply lacks_digits; [exact Hx | apply digits_isDigit].
Qed.

Lemma substitute_canonical (d t : jsstring) (neg : bool) (D F : jsstring) :
  plain d -> plain t -> lacks "," t ->
  Forall (fun c => isDigit c = true) D ->
  F = [] \/ (exists ds, F = ","%char :: ds /\ Forall (fun c => isDigit c = true) ds) ->
  replaceAllClass (Char.eqb ",") d []
    (replaceAllClass (Char.eqb ".") t [] ((minus neg ++ group3 D) ++ F))
  = minus neg ++ joined t D ++ match F with
                               | [] => []
                               | _ :: ds => d ++ ds
                               end.
Proof.
  intros Hd Ht Hc HD HF. rewrite !replaceAllClass_plain by assumption.
  assert (HG : lacks "," (group3 D))
    by (apply group3_lacks; [discriminate | apply lacks_digits; [reflexivity | exact HD]]).
  rewrite !flat_map_app.
  rewrite (flat_map_keeps "." _ (minus neg)) by (apply lacks_minus; discriminate).
  rewrite (flat_map_keeps "," _ (minus neg)) by (apply lacks_minus; discriminate).
  rewrite (flat_map_keeps "," _ (flat_map _ (group3 D)))
    by (apply lacks_flat_map; assumption).
  rewrite <- app_assoc. unfold joined. f_equal. f_equal.
  destruct HF as [->|(ds & -> & Hds)]; [reflexivity|].
  cbn [flat_map]. change (Char.eqb "." ",") with false. cbn iota.
  rewrite (flat_map_keeps "." _ ds) by (apply lacks_digits; [reflexivity | exact Hds]).
  cbn [app flat_map]. rewrite Char_eqb_refl.
  rewrite (flat_map_keeps "," _ ds) by (apply lacks_digits; [reflexivity | exact Hds]).
  reflexivity.
Qed.

(** The string of [n] cents, for separators without a dollar sign, the
    thousands separator without a comma. *)
Lemma format_cents (cfg : Config) (big : bool) (n : Z) (d t : jsstring)
    (policy : DecimalPolicy) :
  Z.abs n <= 10 ^ 14 -> plain d -> plain t -> lacks "," t ->
  integerWithDecimalsToAmountString cfg (cents big n) (Some d) (Some t) (Some policy) =
  unitsOf t n ++ shownFraction d policy (Z.abs n mod 100).
Proof.
  intros Hn Hd Ht Hc. unfold integerWithDecimalsToAmountString. cbn [orDefault].
  rewrite toFloat_cents. destruct (float_cents n Hn) as (q & -> & Hq).
  rewrite (toLocaleString_cents n q Hq), app_assoc.
  rewrite suitable_cents
    by (first [apply lacks_units; [reflexivity | discriminate | discriminate]
              | apply Z.mod_pos_bound; lia]).
  unfold unitsOf, shownFraction.
  destruct policy; [destruct (_ =? 0)| |];
    rewrite (substitute_canonical d t) by
      (first [assumption | apply digits_isDigit | left; reflexivity
             | right; eexists; split; [reflexivity | apply fixedDigits_isDigit]]);
    rewrite <- app_assoc; reflexivity.
Qed.

(** The separators of a factory created without them. *)
Lemma default_separators (cfg : Config) :
  DefaultSeparators cfg ->
  exists t, defaultThousandsSeparator cfg = [t] /\ defaultDecimalPoint cfg = [","%char] /\
            isWhiteSpace t = true /\ (t = NBSP \/ t = " "%char).
Proof.
  intros [Hd [Ht|Ht]]; [exists NBSP | exists " "%char];
    (split; [exact Ht|]); (split; [exact Hd|]); (split; [reflexivity|]); tauto.
Qed.

Lemma whiteSpace_separator (t : char) :
  isWhiteSpace t = true ->
  plain [t] /\ lacks "," [t] /\ isDigit t = false /\ t <> "-"%char /\ t <> ","%char /\
  t <> "."%char /\ isSyntaxCharacter t = false.
Proof.
  intros H. destruct (isWhiteSpace_other t H) as (Hd & Hdot & Hcomma & _ & _ & Hm & _).
  apply Char_eqb_neq in Hdot, Hcomma, Hm.
  assert (Hs : isSyntaxCharacter t = false /\ Char.eqb t "$" = false).
  { unfold isWhiteSpace in H. unfold isSyntaxCharacter, existsb, Char.eqb.
    prop_of_bool_in H. change (str "^$\.*+?()[]{}|")
      with [94; 36; 92; 46; 42; 43; 63; 40; 41; 91; 93; 123; 125; 124]%N.
    split; prop_of_bool; lia. }
  destruct Hs as [Hs Hp].
  repeat split; try assumption; repeat constructor; assumption.
Qed.

(** The string of [n] cents under the separators of the factory. *)
Lemma format_default (cfg : Config) (big : bool) (n : Z) (t : char)
    (policy : DecimalPolicy) :
  Z.abs n <= 10 ^ 14 -> defaultDecimalPoint cfg = [","%char] ->
  defaultThousandsSeparator cfg = [t] -> isWhiteSpace t = true ->
  integerWithDecimalsToAmountString cfg (cents big n) None None (Some policy) =
  unitsOf [t] n ++ shownFraction (str ",") policy (Z.abs n mod 100).
Proof.
  intros Hn Hd Ht Hw. destruct (whiteSpace_separator t Hw) as (Hp & Hl & _).
  rewrite <- (format_cents cfg big n (str ",") [t] policy Hn) by
    (first [assumption | repeat constructor]).
  unfold integerWithDecimalsToAmountString. cbn [orDefault]. rewrite Hd, Ht. reflexivity.
Qed.

(** ** Reading a decimal back *)

Lemma span_stop (p : char -> bool) (A r : jsstring) :
  Forall (fun c => p c = true) A ->
  match r with
  | [] => True
  | c :: _ => p c = false
  end ->
  span p (A ++ r) = (A, r).
Proof.
  intros HA Hr. rewrite (span_app p A r HA).
  destruct r as [|c r']; [cbn; rewrite app_nil_r; reflexivity|].
  cbn [span]. rewrite Hr. cbn [fst snd]. rewrite app_nil_r. reflexivity.
Qed.

Lemma startsWith_digit (d : char) (r : jsstring) :
  isDigit d = true -> startsWith (d :: r) (str "Infinity") = false.
Proof.
  intros Hd. change (str "Infinity") with ("I"%char :: str "nfinity").
  cbn [startsWith]. digit_neq Hd. reflexivity.
Qed.

(** What [parseFloat] makes of digits after an optional minus sign,
    followed by something that is not a digit. *)
Lemma parseFloat_digits (neg : bool) (D r : jsstring) :
  D <> [] -> Forall (fun c => isDigit c = true) D ->
  match r with
  | [] => True
  | c :: _ => isDigit c = false
  end ->
  parseFloat (minus neg ++ D ++ r) =
  let '(fp, r2) :=
    match r with
    | c :: r' => if Char.eqb c "." then span isDigit r' else ([], r)
    | [] => ([], r)
    end in
  signedDecimal neg (digitsValue (D ++ fp)) (exponentPart r2 - Z.of_nat (List.length fp)).
Proof.
  intros HD HDd Hr. destruct D as [|d D']; [contradiction|].
  pose proof (Forall_inv HDd) as Hd.
  destruct (isDigit_other d Hd) as (Hws & _).
  assert (Hs : signOf (trimStart (minus neg ++ (d :: D') ++ r)) = (neg, (d :: D') ++ r)).
  { unfold trimStart. destruct neg.
    - reflexivity.
    - cbn [minus app span]. rewrite Hws. cbn [snd signOf]. digit_neq Hd. reflexivity. }
  unfold parseFloat. rewrite Hs.
  change ((d :: D') ++ r) with (d :: D' ++ r) at 1.
  rewrite (startsWith_digit d _ Hd), (span_stop isDigit (d :: D') r HDd Hr).
  destruct (match r with
            | [] => ([], r)
            | c :: r' => if Char.eqb c "." then span isDigit r' else ([], r)
            end) as [fp r2].
  reflexivity.
Qed.

Lemma parseFloat_decimal (neg : bool) (D F : jsstring) :
  D <> [] ->
  Forall (fun c => isDigit c = true) D ->
  Forall (fun c => isDigit c = true) F ->
  parseFloat (minus neg ++ D ++ "."%char :: F) =
  signedDecimal neg (digitsValue (D ++ F)) (0 - Z.of_nat (List.length F)).
Proof.
  intros HD HDd HF. rewrite (parseFloat_digits neg D _ HD HDd) by reflexivity.
  rewrite Char_eqb_refl, (span_all isDigit F HF). reflexivity.
Qed.

Lemma parseFloat_units (neg : bool) (D : jsstring) :
  D <> [] ->
  Forall (fun c => isDigit c = true) D ->
  parseFloat (minus neg ++ D) = signedDecimal neg (digitsValue D) 0.
Proof.
  intros HD HDd. rewrite <- (app_nil_r D) at 1.
  rewrite (parseFloat_digits neg D [] HD HDd I), app_nil_r. reflexivity.
Qed.

(** The value of the digits written for [n] cents. *)
Lemma cents_value (n : Z) :
  digitsValue (digits (Z.abs n / 100) ++ fixedDigits 2 (Z.abs n mod 100)) = Z.abs n.
Proof.
  rewrite digitsValue_append, fixedDigits_length, fixedDigits_value.
  rewrite digits_value by (apply Z.div_pos; lia).
  change (10 ^ Z.of_nat 2) with 100. rewrite Zmod_mod.
  pose proof (Z.div_mod (Z.abs n) 100 ltac:(lia)). lia.
Qed.

Lemma inject_Z_ge1 (z : Z) : 1 <= z -> (1 <= inject_Z z)%Q.
Proof. intros H. change 1%Q with (inject_Z 1). rewrite <- Zle_Qle. exact H. Qed.

Lemma inject_Z_le (z b : Z) : z <= b -> (inject_Z z <= inject_Z b)%Q.
Proof. intros H. rewrite <- Zle_Qle. exact H. Qed.

(** The decimal with two fraction digits of [n] cents is the number of
    [n] cents. *)
Lemma decimal_cents (n : Z) :
  Z.abs n <= 10 ^ 14 ->
  exists q, signedDecimal (n <? 0) (Z.abs n) (0 - 2) = Fin q /\ hundredths n q.
Proof.
  intros Hn. unfold signedDecimal. cbv zeta.
  change (Qpower (10 # 1) (0 - 2)) with (1 # 100)%Q.
  destruct (Z.eq_dec n 0) as [->|Hz].
  - exists 0%Q. split; [reflexivity|]. split; [vm_compute; discriminate | reflexivity].
  - pose proof (inject_Z_ge1 (Z.abs n) ltac:(lia)) as HL.
    pose proof (inject_Z_le (Z.abs n) _ Hn) as HU.
    assert (HB : (inject_Z (10 ^ 14) * (1 # 100) < pow2 40)%Q) by (vm_compute; reflexivity).
    destruct (r64_near (inject_Z (Z.abs n) * (1 # 100)) (-7) 40) as (q & E & Hq);
      [lia | lia | | |].
    + rewrite Qabs_pos by lra. change (pow2 (-7)) with (1 # 128)%Q. lra.
    + rewrite Qabs_pos by lra. lra.
    + change (pow2 (40 - 54)) with (1 # 16384)%Q in Hq. rewrite E.
      apply Qabs_Qle_condition in Hq.
      destruct (Z.ltb_spec n 0) as [Hs|Hs].
      * cbn [negate]. rewrite Qeq_bool_false by lra.
        exists (- q)%Q. split; [reflexivity|]. split; [|contradiction].
        replace n with (- Z.abs n) at 1 by lia. rewrite inject_Z_opp.
        apply Qabs_Qle_condition. lra.
      * exists q. split; [reflexivity|]. split; [|contradiction].
        replace n with (Z.abs n) at 1 by lia. apply Qabs_Qle_condition. lra.
Qed.

(** A number within 1/512 of [n] hundredths, scaled and rounded, is [n]:
    [n] below [2^51]. *)
Lemma times100_cents (n : Z) (q : Q) :
  Z.abs n < 2 ^ 51 ->
  (Qabs (q - inject_Z n * (1 # 100)) <= 1 # 512)%Q -> (n = 0 -> (q == 0)%Q) ->
  Math_round (times100 (Fin q)) = ofZ n.
Proof.
  intros Hn Hq H0. rewrite ofZ_small by lia. cbn [times100].
  destruct (Z.eq_dec n 0) as [->|Hz].
  - rewrite (r64_comp _ 0) by (rewrite (H0 eq_refl); reflexivity). reflexivity.
  - apply Qabs_Qle_condition in Hq.
    pose proof (inject_Z_ge1 (Z.abs n) ltac:(lia)) as HL.
    pose proof (inject_Z_le (Z.abs n) (2 ^ 51 - 1) ltac:(lia)) as HU.
    assert (HB : (inject_Z (2 ^ 51 - 1) + 1 == pow2 51)%Q) by (vm_compute; reflexivity).
    assert (Ha : (Qabs (q * (100 # 1) - inject_Z n) <= 100 # 512)%Q)
      by (apply Qabs_Qle_condition; lra).
    assert (Hs : (Qabs (inject_Z n) - (100 # 512) <= Qabs (q * (100 # 1)))%Q /\
                 (Qabs (q * (100 # 1)) <= Qabs (inject_Z n) + (100 # 512))%Q).
    { apply Qabs_Qle_condition in Ha.
      split; apply Qabs_case; intros; apply Qabs_case; intros; lra. }
    rewrite Qabs_Z in Hs.
    destruct (r64_near (q * (100 # 1)) (-1) 51) as (q' & E & Hq'); [lia | lia | | |].
    + change (pow2 (-1)) with (1 # 2)%Q. lra.
    + lra.
    + rewrite E. change (pow2 (51 - 54)) with (1 # 8)%Q in Hq'.
      apply Qabs_Qle_condition in Hq'.
      apply Math_round_near; [lra | lra | left; exact Hz].
Qed.

Lemma cents_of_hundredths (n : Z) (q : Q) :
  Z.abs n < 2 ^ 51 -> hundredths n q -> Math_round (times100 (Fin q)) = ofZ n.
Proof.
  intros Hn [Hq H0]. apply times100_cents; [exact Hn | | exact H0].
  apply Qle_trans with (1 # 16384)%Q; [exact Hq | discriminate].
Qed.

Lemma round_cents_decimal (n : Z) :
  Z.abs n <= 10 ^ 14 ->
  Math_round (times100 (signedDecimal (n <? 0) (Z.abs n) (0 - 2))) = ofZ n.
Proof.
  intros Hn. destruct (decimal_cents n Hn) as (q & -> & Hq).
  apply cents_of_hundredths; [lia | assumption].
Qed.

Lemma RegExp_new_char (t : char) :
  isSyntaxCharacter t = false -> RegExp_new [t] = Returns (RxWord [t]).
Proof. intros H. unfold RegExp_new. cbn [forallb]. rewrite H. reflexivity. Qed.

Lemma separatorChar_spec (c : char) :
  separatorChar c = true ->
  isDigit c = false /\ c <> "-"%char /\ Char.eqb c "$" = false.
Proof.
  unfold separatorChar. intros H.
  apply andb_true_iff in H. destruct H as [H H3]. apply andb_true_iff in H. destruct H as [H1 H2].
  apply negb_true_iff in H1, H2, H3. repeat split; try assumption.
  apply Char_eqb_neq. exact H2.
Qed.

(** Reading back what [showAlways] wrote, for separators of one character. *)
Lemma parse_cents (cfg : Config) (n : Z) (d t : char) :
  Z.abs n <= 10 ^ 14 ->
  separatorChar d = true -> separatorChar t = true ->
  isSyntaxCharacter t = false -> t <> d ->
  amountStringToIntegerWithDecimals cfg
    (unitsOf [t] n ++ shownFraction [d] showAlways (Z.abs n mod 100)) (Some [d]) (Some [t]) =
  Returns (ofZ n).
Proof.
  intros Hn Hd Ht Hsyn Htd.
  destruct (separatorChar_spec d Hd) as (Hdd & Hdm & Hd').
  destruct (separatorChar_spec t Ht) as (Htg & Htm & Ht').
  unfold amountStringToIntegerWithDecimals. cbn [orDefault].
  rewrite (RegExp_new_char t Hsyn). cbn [bind replaceAll]. rewrite replaceAllWord_char.
  unfold unitsOf, shownFraction.
  set (D := digits (Z.abs n / 100)). set (F := fixedDigits 2 (Z.abs n mod 100)).
  assert (HD : Forall (fun c => isDigit c = true) D) by apply digits_isDigit.
  assert (HF : Forall (fun c => isDigit c = true) F) by apply fixedDigits_isDigit.
  rewrite !filter_app, unjoin_char by assumption.
  rewrite (strip_lacks t (minus (n <? 0))) by (apply lacks_minus; exact Htm).
  rewrite (strip_lacks t [d]) by (repeat constructor; congruence).
  rewrite (strip_lacks t F) by (apply lacks_digits; assumption).
  cbn [app]. change (str ".") with ["."%char].
  rewrite replaceFirst_char; [| | reflexivity].
  2:{ apply Forall_app. split; [apply lacks_minus; exact Hdm|].
      apply lacks_digits; assumption. }
  rewrite <- app_assoc, parseFloat_decimal by (first [apply digits_nonempty | assumption]).
  unfold D, F. rewrite cents_value, fixedDigits_length.
  rewrite round_cents_decimal by exact Hn. reflexivity.
Qed.

Lemma parse_default (cfg : Config) (n : Z) (t : char) :
  Z.abs n <= 10 ^ 14 -> defaultDecimalPoint cfg = [","%char] ->
  defaultThousandsSeparator cfg = [t] -> isWhiteSpace t = true ->
  amountStringToIntegerWithDecimals cfg
    (unitsOf [t] n ++ shownFraction (str ",") showAlways (Z.abs n mod 100)) None None =
  Returns (ofZ n).
Proof.
  intros Hn Hd Ht Hw.
  destruct (whiteSpace_separator t Hw) as (_ & _ & Hg & Hm & Hc & _ & Hs).
  destruct (isWhiteSpace_other t Hw) as (_ & _ & _ & _ & _ & Hm' & _).
  assert (Hp : Char.eqb t "$" = false).
  { destruct (whiteSpace_separator t Hw) as (Hp & _). exact (Forall_inv Hp). }
  rewrite <- (parse_cents cfg n "," t Hn); try assumption; try reflexivity.
  - unfold amountStringToIntegerWithDecimals. cbn [orDefault]. rewrite Hd, Ht. reflexivity.
  - unfold separatorChar. rewrite Hg, Hm', Hp. reflexivity.
Qed.

(** The quotient by 100 of [n], scaled back: [n] below [2^51]. *)
Lemma scaled_back (n : Z) :
  Z.abs n < 2 ^ 51 -> Math_round (times100 (over100 (ofZ n))) = ofZ n.
Proof.
  intros Hn. rewrite ofZ_small by lia. cbn [over100].
  destruct (Z.eq_dec n 0) as [->|Hz]; [reflexivity|].
  pose proof (inject_Z_abs_le n (2 ^ 51 - 1) ltac:(lia)) as HU.
  pose proof (inject_Z_abs_ge n Hz) as HL.
  assert (Ea : (Qabs (inject_Z n / (100 # 1)) == Qabs (inject_Z n) * (1 # 100))%Q).
  { unfold Qdiv. rewrite Qabs_Qmult. reflexivity. }
  assert (HB : (inject_Z (2 ^ 51 - 1) * (1 # 100) < pow2 45)%Q) by (vm_compute; reflexivity).
  destruct (r64_near (inject_Z n / (100 # 1)) (-7) 45) as (q & E & Hq); [lia | lia | | |].
  - rewrite Ea. change (pow2 (-7)) with (1 # 128)%Q. lra.
  - rewrite Ea. lra.
  - rewrite E. rewrite <- (ofZ_small n) by lia.
    apply times100_cents; [exact Hn | exact Hq | contradiction].
Qed.

Lemma small_cents (n : Z) : Z.abs n <= 10 ^ 14 -> Z.abs n < 2 ^ 51.
Proof. intros H. apply Z.le_lt_trans with (10 ^ 14); [exact H | reflexivity]. Qed.

(** The units alone, read back and scaled. *)
Lemma round_signed_units (neg : bool) (m : Z) :
  0 <= m <= 10 ^ 12 ->
  Math_round (times100 (signedDecimal neg m 0)) =
  if neg && (m =? 0) then NegZero else ofZ ((if neg then -1 else 1) * (100 * m)).
Proof.
  intros Hm. unfold signedDecimal. cbv zeta.
  assert (B : 100 * 10 ^ 12 <= 2 ^ 53) by (vm_compute; discriminate).
  rewrite (r64_comp _ (inject_Z m))
    by (change (Qpower (10 # 1) 0) with 1%Q; apply Qmult_1_r).
  rewrite r64_Z by lia.
  destruct neg; cbn [andb negate].
  - destruct (Z.eqb_spec m 0) as [->|Hz]; [reflexivity|].
    rewrite Qeq_bool_false
      by (intros E; apply (proj1 (inject_Z_injective m 0)) in E; contradiction).
    cbn [times100].
    rewrite (r64_comp _ (inject_Z (-1 * (100 * m))))
      by (rewrite !inject_Z_mult; change (inject_Z 100) with (100 # 1)%Q;
          change (inject_Z (-1)) with (-1 # 1)%Q; ring).
    rewrite r64_Z, ofZ_small by lia. apply Math_round_whole.
  - cbn [times100].
    rewrite (r64_comp _ (inject_Z (1 * (100 * m))))
      by (rewrite !inject_Z_mult; change (inject_Z 100) with (100 # 1)%Q;
          change (inject_Z 1) with 1%Q; ring).
    rewrite r64_Z, ofZ_small by lia. apply Math_round_whole.
Qed.

(** Reading back grouped digits, for a thousands separator of one
    character, neither a digit nor the minus sign, and another decimal
    point. *)
Lemma parse_grouped (cfg : Config) (neg : bool) (k : Z) (d t : char) :
  0 <= k -> isDigit t = false -> t <> "-"%char -> isDigit d = false -> d <> "-"%char ->
  isSyntaxCharacter t = false ->
  amountStringToIntegerWithDecimals cfg (minus neg ++ joined [t] (digits k))
    (Some [d]) (Some [t]) =
  Returns (Math_round (times100 (signedDecimal neg k 0))).
Proof.
  intros Hk Htd Htm Hdd Hdm Hsyn. unfold amountStringToIntegerWithDecimals. cbn [orDefault].
  rewrite (RegExp_new_char t Hsyn). cbn [bind replaceAll].
  rewrite replaceAllWord_char, filter_app, unjoin_char
    by (first [apply digits_isDigit | exact Htd]).
  rewrite (strip_lacks t (minus neg)) by (apply lacks_minus; exact Htm).
  rewrite replaceFirst_absent.
  2:{ apply Forall_app. split; [apply lacks_minus; exact Hdm|].
      apply lacks_digits; [exact Hdd | apply digits_isDigit]. }
  rewrite parseFloat_units by (first [apply digits_nonempty | apply digits_isDigit]).
  rewrite digits_value by exact Hk. reflexivity.
Qed.

Lemma parse_grouped_default (cfg : Config) (neg : bool) (k : Z) (t : char) :
  0 <= k -> defaultDecimalPoint cfg = [","%char] ->
  defaultThousandsSeparator cfg = [t] -> isWhiteSpace t = true ->
  amountStringToIntegerWithDecimals cfg (minus neg ++ joined [t] (digits k)) None None =
  Returns (Math_round (times100 (signedDecimal neg k 0))).
Proof.
  intros Hk Hd Ht Hw.
  destruct (whiteSpace_separator t Hw) as (_ & _ & Hg & Hm & _ & _ & Hs).
  rewrite <- (parse_grouped cfg neg k "," t Hk Hg Hm eq_refl ltac:(discriminate) Hs).
  unfold amountStringToIntegerWithDecimals. cbn [orDefault]. rewrite Hd, Ht. reflexivity.
Qed.

Lemma units_bound (n : Z) : Z.abs n <= 10 ^ 14 -> 0 <= Z.abs n / 100 <= 10 ^ 12.
Proof.
  intros H. split; [apply Z.div_pos; lia|].
  apply Z.div_le_upper_bound; [lia|]. exact H.
Qed.

(** ** The derivative test decides the language of a pattern *)

Lemma nullable_Matches (p : Pattern) : nullable p = true <-> Matches p [].
Proof.
  induction p as [| |k|a IHa b IHb|a IHa b IHb|a IHa]; simpl.
  - split; [discriminate | intros H; inversion H].
  - split; [constructor | reflexivity].
  - split; [discriminate | intros H; inversion H].
  - rewrite andb_true_iff, IHa, IHb. split.
    + intros [Ha Hb]. exact (MSeq a b [] [] Ha Hb).
    + intros H. inversion H as [| |a' b' s t Ha Hb Hp Hs| | | |]; subst.
      apply app_eq_nil in Hs. destruct Hs; subst. split; assumption.
  - rewrite orb_true_iff, IHa, IHb. split.
    + intros [H|H]; [apply MAltL | apply MAltR]; exact H.
    + intros H. inversion H; subst; [left | right]; assumption.
  - split; [constructor | reflexivity].
Qed.

Lemma Matches_star_cons (a : Pattern) (c : char) (s : jsstring) :
  Matches (PStar a) (c :: s) ->
  exists s1 s2, s = s1 ++ s2 /\ Matches a (c :: s1) /\ Matches (PStar a) s2.
Proof.
  intros H. remember (PStar a) as p eqn:Hp. remember (c :: s) as w eqn:Hw.
  revert s Hw.
  induction H as [| | | | | |a' u t Hu _ Ht IHt]; intros s' Hw; try discriminate.
  injection Hp as ->. destruct u as [|d u].
  - apply IHt; [reflexivity | exact Hw].
  - injection Hw as -> <-. exists u, t. repeat split; assumption.
Qed.

Lemma derive_Matches (c : char) (p : Pattern) (s : jsstring) :
  Matches (derive c p) s <-> Matches p (c :: s).
Proof.
  revert s. induction p as [| |k|a IHa b IHb|a IHa b IHb|a IHa]; intros s; simpl.
  - split; intros H; inversion H.
  - split; intros H; inversion H.
  - destruct (inClass k c) eqn:E.
    + split; intros H; inversion H; subst; [constructor; exact E | constructor].
    + split; intros H; inversion H; subst. congruence.
  - assert (Hcons : forall t, Matches (PSeq (derive c a) b) t -> Matches (PSeq a b) (c :: t)).
    { intros t H. inversion H as [| |a' b' u v Hu Hv Hp Hs| | | |]; subst.
      apply (MSeq a b (c :: u) v); [apply IHa; exact Hu | exact Hv]. }
    assert (Hsplit : Matches (PSeq a b) (c :: s) ->
                     Matches (PSeq (derive c a) b) s \/
                     (Matches a [] /\ Matches (derive c b) s)).
    { intros H. inversion H as [| |a' b' u v Hu Hv Hp Hs| | | |]; subst.
      destruct u as [|d u].
      - right. simpl in Hs. subst v. split; [exact Hu | apply IHb; exact Hv].
      - injection Hs as -> <-. left. apply MSeq; [apply IHa; exact Hu | exact Hv]. }
    destruct (nullable a) eqn:E.
    + split.
      * intros H. inversion H; subst; [apply Hcons; assumption|].
        apply (MSeq a b [] (c :: s)); [apply nullable_Matches; exact E | apply IHb; assumption].
      * intros H. destruct (Hsplit H) as [H1|[_ H2]]; [apply MAltL | apply MAltR]; assumption.
    + split; [apply Hcons|].
      intros H. destruct (Hsplit H) as [H1|[H1 _]]; [exact H1|].
      apply nullable_Matches in H1. congruence.
  - split.
    + intros H. inversion H; subst; [apply MAltL; apply IHa | apply MAltR; apply IHb];
        assumption.
    + intros H. inversion H; subst; [apply MAltL; apply IHa | apply MAltR; apply IHb];
        assumption.
  - split.
    + intros H. inversion H as [| |a' b' u v Hu Hv Hp Hs| | | |]; subst.
      apply (MStarApp a (c :: u) v); [apply IHa; exact Hu | exact Hv].
    + intros H. destruct (Matches_star_cons a c s H) as (u & v & -> & Hu & Hv).
      apply MSeq; [apply IHa; exact Hu | exact Hv].
Qed.

Lemma test_Matches (p : Pattern) (s : jsstring) : test p s = true <-> Matches p s.
Proof.
  unfold test. revert p. induction s as [|c r IH]; intros p; simpl.
  - apply nullable_Matches.
  - rewrite IH. apply derive_Matches.
Qed.

(** ** The language of [amountStringRegex] *)

Ltac inv H := inversion H; subst; clear H.

Lemma Matches_star_all (a : Pattern) (P : char -> Prop) :
  (forall s, Matches a s -> Forall P s) ->
  forall s, Matches (PStar a) s -> Forall P s.
Proof.
  intros Ha s H. remember (PStar a) as p eqn:Hp.
  induction H as [| | | | | |a' u t Hu _ Ht IHt]; try discriminate.
  - constructor.
  - injection Hp as ->. apply Forall_app. split; [apply Ha; exact Hu | apply IHt; reflexivity].
Qed.

Lemma Matches_star_each (a : Pattern) (P : char -> Prop) :
  (forall c, P c -> Matches a [c]) ->
  forall s, Forall P s -> Matches (PStar a) s.
Proof.
  intros Ha s H. induction H as [|c r Hc _ IH]; [constructor|].
  apply (MStarApp a [c] r); [apply Ha; exact Hc | exact IH].
Qed.

Lemma Matches_seq_inv (a b : Pattern) (s : jsstring) :
  Matches (PSeq a b) s -> exists u v, s = u ++ v /\ Matches a u /\ Matches b v.
Proof. intros H. inv H. eauto. Qed.

Lemma Matches_alt_inv (a b : Pattern) (s : jsstring) :
  Matches (PAlt a b) s -> Matches a s \/ Matches b s.
Proof. intros H. inv H; auto. Qed.

Lemma Matches_eps_inv (s : jsstring) : Matches PEps s -> s = [].
Proof. intros H. inv H. reflexivity. Qed.

Lemma Matches_class_inv (k : CharClass) (s : jsstring) :
  Matches (PClass k) s -> exists c, s = [c] /\ inClass k c = true.
Proof. intros H. inv H. eauto. Qed.

Lemma Matches_class (k : CharClass) (s : jsstring) :
  Matches (PClass k) s -> Forall (fun c => inClass k c = true) s.
Proof.
  intros H. destruct (Matches_class_inv k s H) as (c & -> & Hc). repeat constructor. exact Hc.
Qed.

Lemma Matches_star_class (k : CharClass) (s : jsstring) :
  Matches (PStar (PClass k)) s <-> Forall (fun c => inClass k c = true) s.
Proof.
  split.
  - apply Matches_star_all. apply Matches_class.
  - apply Matches_star_each. intros c Hc. constructor. exact Hc.
Qed.

Lemma Matches_groups (s : jsstring) :
  Matches (PStar (PSeq (PStar (PClass ClassSpace)) (PStar (PClass ClassDigit)))) s <->
  Forall (fun c => isWhiteSpace c = true \/ isDigit c = true) s.
Proof.
  split.
  - apply Matches_star_all. intros t H.
    destruct (Matches_seq_inv _ _ _ H) as (u & v & -> & Hu & Hv).
    apply Matches_star_class in Hu. apply Matches_star_class in Hv.
    apply Forall_app. split; (eapply Forall_impl; [|eassumption]); cbn; tauto.
  - apply Matches_star_each. intros c [Hc|Hc].
    + apply (MSeq _ _ [c] []); [|constructor].
      apply Matches_star_class. repeat constructor. exact Hc.
    + apply (MSeq _ _ [] [c]); [constructor|].
      apply Matches_star_class. repeat constructor. exact Hc.
Qed.

Lemma Matches_upTo2 (s : jsstring) :
  Matches (PUpTo2 (PClass ClassDigit)) s <->
  Forall (fun c => isDigit c = true) s /\ (List.length s <= 2)%nat.
Proof.
  unfold PUpTo2, POpt. split.
  - intros H. destruct (Matches_alt_inv _ _ _ H) as [H1|H1].
    + destruct (Matches_seq_inv _ _ _ H1) as (u & v & -> & Hu & Hv).
      destruct (Matches_class_inv _ _ Hu) as (c & -> & Hc).
      destruct (Matches_alt_inv _ _ _ Hv) as [H2|H2].
      * destruct (Matches_class_inv _ _ H2) as (c' & -> & Hc').
        split; [repeat constructor; assumption | simpl; lia].
      * rewrite (Matches_eps_inv _ H2).
        split; [repeat constructor; assumption | simpl; lia].
    + rewrite (Matches_eps_inv _ H1). split; [constructor | simpl; lia].
  - intros [H L]. destruct s as [|c1 [|c2 [|c3 r]]]; [| | |simpl in L; lia].
    + apply MAltR. constructor.
    + apply MAltL. apply (MSeq _ _ [c1] []).
      * constructor. exact (Forall_inv H).
      * apply MAltR. constructor.
    + apply MAltL. apply (MSeq _ _ [c1] [c2]).
      * constructor. exact (Forall_inv H).
      * apply MAltL. constructor. exact (Forall_inv (Forall_inv_tail H)).
Qed.

Lemma Matches_amountPattern (d : char) (s : jsstring) :
  Matches (amountPattern d) s <-> AmountShape d s.
Proof.
  unfold amountPattern, AmountShape, POpt. split.
  - intros H.
    destruct (Matches_seq_inv _ _ _ H) as (l & s1 & -> & Hl & H1).
    destruct (Matches_seq_inv _ _ _ H1) as (f & s2 & -> & Hf & H2).
    destruct (Matches_seq_inv _ _ _ H2) as (r & fr & -> & Hr & Hfr).
    destruct (Matches_class_inv _ _ Hf) as (c & -> & Hc).
    apply Matches_star_class in Hl. apply Matches_groups in Hr.
    exists l, c, r, fr. repeat split; try assumption.
    destruct (Matches_alt_inv _ _ _ Hfr) as [H3|H3].
    + destruct (Matches_seq_inv _ _ _ H3) as (u & ds & -> & Hu & Hds).
      destruct (Matches_class_inv _ _ Hu) as (c' & -> & Hc').
      apply N.eqb_eq in Hc'. subst c'.
      apply Matches_upTo2 in Hds. right. exists ds. repeat split; tauto.
    + left. apply Matches_eps_inv. exact H3.
  - intros (l & f & r & fr & -> & Hl & Hf & Hr & Hfr).
    apply MSeq; [apply Matches_star_class; exact Hl|].
    apply (MSeq _ _ [f] (r ++ fr)); [constructor; exact Hf|].
    apply MSeq; [apply Matches_groups; exact Hr|].
    destruct Hfr as [->|(ds & -> & Hd & Hn)].
    + apply MAltR. constructor.
    + apply MAltL. apply (MSeq _ _ [d] ds).
      * constructor. apply Char_eqb_refl.
      * apply Matches_upTo2. split; assumption.
Qed.


(** ** The refinement of [zAmountRaw] never rejects what the pattern accepts *)

(** What a refinement accepts, the schema refined accepts and the check
    passes. *)
Lemma refine_success (schema : Schema jsstring) (check : jsstring -> bool)
    (message value a : jsstring) :
  refine schema check message value = Returns (Success a) ->
  schema value = Returns (Success a) /\ check a = true.
Proof.
  unfold refine. destruct (schema value) as [[v|m]| |]; cbn [bind]; try discriminate.
  - destruct (check v) eqn:C; [|discriminate]. intros E. injection E as <-. split; [reflexivity|].
    exact C.
  - destruct (check value); discriminate.
Qed.

(** Digits followed by the end of the text or by a comma. *)
Lemma parseFloat_integer (D rest : jsstring) :
  D <> [] ->
  Forall (fun c => isDigit c = true) D ->
  rest = [] \/ (exists r, rest = ","%char :: r) ->
  parseFloat (D ++ rest) = signedDecimal false (digitsValue D) 0.
Proof.
  intros HD HDd Hrest. change (D ++ rest) with (minus false ++ D ++ rest).
  rewrite (parseFloat_digits false D rest HD HDd).
  - destruct Hrest as [->|(r & ->)]; cbn; rewrite app_nil_r; reflexivity.
  - destruct Hrest as [->|(r & ->)]; [exact I | reflexivity].
Qed.

(** The text of an amount of the shape accepted, its white space removed. *)
Lemma stripped_shape (t : char) (s : jsstring) :
  isWhiteSpace t = true ->
  AmountShape "," s ->
  exists D rest,
    filter (fun c => negb (isWhiteSpace c)) s = D ++ rest /\
    D <> [] /\ Forall (fun c => isDigit c = true) D /\
    (rest = [] \/ exists r, rest = ","%char :: r) /\
    lacks t (D ++ rest).
Proof.
  intros Ht (l & f & r & fr & -> & Hl & Hf & Hr & Hfr).
  destruct (whiteSpace_separator t Ht) as (_ & _ & Htd & _ & Htc & _).
  exists (f :: filter (fun c => negb (isWhiteSpace c)) r), fr.
  assert (Hfr' : filter (fun c => negb (isWhiteSpace c)) fr = fr).
  { destruct Hfr as [->|(ds & -> & Hds & _)]; [reflexivity|].
    cbn [filter]. change (negb (isWhiteSpace ",")) with true. cbn iota. f_equal.
    apply filter_keeps. eapply Forall_impl; [|exact Hds].
    intros c Hc. cbv beta. destruct (isDigit_other c Hc) as (-> & _). reflexivity. }
  assert (HR : Forall (fun c => isDigit c = true)
                 (filter (fun c => negb (isWhiteSpace c)) r)).
  { induction Hr as [|c r' Hc _ IH]; [constructor|]. cbn [filter].
    destruct (isWhiteSpace c) eqn:E; cbn [negb]; [exact IH|].
    constructor; [destruct Hc; congruence | exact IH]. }
  destruct (isDigit_other f Hf) as (Hfw & _).
  repeat split.
  - rewrite filter_app. cbn [filter]. rewrite Hfw. cbn [negb].
    rewrite filter_drops
      by (eapply Forall_impl; [|exact Hl]; intros c Hc; cbv beta; rewrite Hc; reflexivity).
    rewrite filter_app, Hfr'. reflexivity.
  - discriminate.
  - constructor; assumption.
  - destruct Hfr as [->|(ds & -> & _)]; [left; reflexivity | right; eauto].
  - apply Forall_app. split.
    + apply lacks_digits; [exact Htd | constructor; assumption].
    + destruct Hfr as [->|(ds & -> & Hds & _)]; [constructor|].
      constructor; [congruence | apply lacks_digits; [exact Htd | exact Hds]].
Qed.

Lemma NonNegative_r64 (q : Q) : (0 <= q)%Q -> NonNegative (r64 q).
Proof.
  intros H. split; [apply isNaN_r64|].
  destruct (r64_nonneg q H) as [->|(q' & -> & Hq')]; [reflexivity|].
  unfold greaterEq, lessEq. change (ofZ 0) with (Fin 0). cbn [finite].
  apply Qle_bool_iff. exact Hq'.
Qed.

Lemma NonNegative_units (D : jsstring) :
  Forall (fun c => isDigit c = true) D -> NonNegative (signedDecimal false (digitsValue D) 0).
Proof.
  intros HD. unfold signedDecimal. apply NonNegative_r64.
  change (Qpower (10 # 1) 0) with 1%Q. rewrite Qmult_1_r.
  change 0%Q with (inject_Z 0). rewrite <- Zle_Qle. apply digitsValue_nonneg. exact HD.
Qed.

(** The number the refinements look at, for a thousands separator that is
    white space. *)
Lemma strippedNumber_whiteSpace (cfg : Config) (t : char) (s : jsstring) :
  defaultThousandsSeparator cfg = [t] -> isWhiteSpace t = true ->
  strippedNumber cfg s = parseFloat (filter (fun c => negb (isWhiteSpace c)) s).
Proof.
  intros Ht Hw. unfold strippedNumber. rewrite Ht, replaceAllClass_delete.
  rewrite replaceFirst_absent; [reflexivity|].
  apply Forall_forall. intros c Hc E. apply filter_In in Hc. destruct Hc as [_ Hc].
  rewrite E, Hw in Hc. discriminate.
Qed.

Lemma refinement_holds (cfg : Config) (t : char) (s : jsstring) :
  defaultThousandsSeparator cfg = [t] -> isWhiteSpace t = true ->
  AmountShape "," s -> NonNegative (strippedNumber cfg s).
Proof.
  intros Ht Hw Hs. rewrite (strippedNumber_whiteSpace cfg t s Ht Hw).
  destruct (stripped_shape t s Hw Hs) as (D & rest & -> & HD & HDd & Hrest & _).
  rewrite (parseFloat_integer D rest HD HDd Hrest). apply NonNegative_units. exact HDd.
Qed.

Lemma amountStringRegex_default (cfg : Config) :
  defaultDecimalPoint cfg = [","%char] -> amountStringRegex cfg = Returns (amountPattern ",").
Proof.
  intros Hd. unfold amountStringRegex, escapedDefaultDecimalPoint, safeDefaultDecimalPoint.
  rewrite Hd. reflexivity.
Qed.

(** [zAmountRaw] for the decimal point [,]: the pattern decides; the
    refinement adds its message when it fails too. *)
Lemma zAmountRaw_default (cfg : Config) (t : char) (s : jsstring) :
  defaultDecimalPoint cfg = [","%char] ->
  defaultThousandsSeparator cfg = [t] -> isWhiteSpace t = true ->
  zAmountRaw cfg s =
  Returns
    (if test (amountPattern ",") s then Success s
     else
       Failure
         (str "Should be a positive number with optional two decimal places" ::
          if negb (isNaN (strippedNumber cfg s)) && greaterEq (strippedNumber cfg s) (ofZ 0)
          then []
          else [str "Should be a positive number with with optional two decimal places"])).
Proof.
  intros Hd Ht Hw. unfold zAmountRaw, refine, string_regex.
  rewrite (amountStringRegex_default cfg Hd). cbn [bind].
  destruct (test (amountPattern ",") s) eqn:T.
  - apply test_Matches, Matches_amountPattern in T.
    destruct (refinement_holds cfg t s Ht Hw T) as [H1 H2]. rewrite H1, H2. reflexivity.
  - destruct (_ && _); reflexivity.
Qed.

(** The validators look at the two separators of the factory only. *)
Lemma zAmountRaw_ext (cfg cfg' : Config) (s : jsstring) :
  defaultDecimalPoint cfg = defaultDecimalPoint cfg' ->
  defaultThousandsSeparator cfg = defaultThousandsSeparator cfg' ->
  zAmountRaw cfg s = zAmountRaw cfg' s.
Proof.
  intros Hd Ht.
  unfold zAmountRaw, amountStringRegex, escapedDefaultDecimalPoint, safeDefaultDecimalPoint,
    strippedNumber.
  rewrite Hd, Ht. reflexivity.
Qed.

(** ** When [parseFloat] gives [NaN] *)

Lemma isNaN_negate (x : number) : isNaN (negate x) = isNaN x.
Proof. destruct x as [|neg| |q]; try reflexivity. cbn. destruct (Qeq_bool q 0); reflexivity. Qed.

Lemma isNaN_signedDecimal (neg : bool) (m e : Z) : isNaN (signedDecimal neg m e) = false.
Proof.
  unfold signedDecimal. cbv zeta. destruct neg; [rewrite isNaN_negate|]; apply isNaN_r64.
Qed.

Lemma isNaN_parseFloat (s : jsstring) : isNaN (parseFloat s) = negb (startsNumber s).
Proof.
  unfold parseFloat, startsNumber.
  destruct (signOf (trimStart s)) as [neg u]. cbn [snd].
  destruct (startsWith u (str "Infinity")); [reflexivity|]. cbn [orb].
  destruct u as [|c r]; [reflexivity|].
  cbn [span]. destruct (isDigit c) eqn:Hc.
  - destruct (span isDigit r) as [a b].
    destruct (match b with
              | c0 :: r0 => if Char.eqb c0 "." then span isDigit r0 else ([], b)
              | [] => ([], b)
              end) as [fp r2].
    cbn [app orb negb]. apply isNaN_signedDecimal.
  - cbn [orb]. destruct (Char.eqb c ".") eqn:Hdot; cbn [andb].
    + destruct r as [|d r']; [reflexivity|]. cbn [span].
      destruct (isDigit d).
      * destruct (span isDigit r') as [a b]. cbn [app negb]. apply isNaN_signedDecimal.
      * reflexivity.
    + reflexivity.
Qed.

Lemma isNaN_Math_round (x : number) : isNaN (Math_round x) = isNaN x.
Proof.
  destruct x as [|neg| |q]; try reflexivity. cbn [Math_round]. destruct (_ && _); reflexivity.
Qed.

Lemma isNaN_times100 (x : number) : isNaN (times100 x) = isNaN x.
Proof. destruct x as [|neg| |q]; try reflexivity. apply isNaN_r64. Qed.

Lemma isNaN_over100 (x : number) : isNaN (over100 x) = isNaN x.
Proof. destruct x as [|neg| |q]; try reflexivity. apply isNaN_r64. Qed.

Lemma isNaN_round_times100 (x : number) : isNaN (Math_round (times100 x)) = isNaN x.
Proof. rewrite isNaN_Math_round. apply isNaN_times100. Qed.

Lemma isNaN_true (x : number) : isNaN x = true -> x = NaN.
Proof. destruct x; try discriminate. reflexivity. Qed.

(** What [amountStringToIntegerWithDecimals] and [amountStringToFloatNumber]
    return once the pattern of the thousands separator is compiled. *)
Lemma toInteger_compiled (cfg : Config) (s : jsstring)
    (decimalPoint thousandsSeparator : option jsstring) (rx : RegExp) :
  RegExp_new (orDefault thousandsSeparator (defaultThousandsSeparator cfg)) = Returns rx ->
  let x := Math_round (times100 (parseFloat
             (strippedText rx (orDefault decimalPoint (defaultDecimalPoint cfg)) s))) in
  amountStringToIntegerWithDecimals cfg s decimalPoint thousandsSeparator = Returns x /\
  amountStringToFloatNumber cfg s decimalPoint thousandsSeparator = Returns (over100 x).
Proof.
  intros Hrx x. unfold amountStringToFloatNumber, amountStringToIntegerWithDecimals.
  cbn [orDefault]. rewrite Hrx. split; reflexivity.
Qed.

(** ** A numeric text begins with a number *)

Lemma Matches_word (w s : jsstring) : Matches (PWord w) s -> s = w.
Proof.
  revert s. induction w as [|c w IH]; intros s H; cbn [PWord fold_right] in H.
  - apply Matches_eps_inv. exact H.
  - destruct (Matches_seq_inv _ _ _ H) as (u & v & -> & Hu & Hv).
    destruct (Matches_class_inv _ _ Hu) as (c' & -> & Hc').
    apply N.eqb_eq in Hc'. subst c'. rewrite (IH v Hv). reflexivity.
Qed.

Lemma Matches_plus_digit (s : jsstring) :
  Matches (PPlus (PClass ClassDigit)) s -> exists d r, s = d :: r /\ isDigit d = true.
Proof.
  intros H. destruct (Matches_seq_inv _ _ _ H) as (u & v & -> & Hu & _).
  destruct (Matches_class_inv _ _ Hu) as (d & -> & Hd). exists d, v. split; [reflexivity|].
  exact Hd.
Qed.

Lemma startsNumber_head (ws sg u : jsstring) :
  Forall (fun c => isWhiteSpace c = true) ws ->
  sg = [] \/ sg = str "+" \/ sg = str "-" ->
  (exists r, u = str "Infinity" ++ r) \/
  (exists d r, u = d :: r /\ isDigit d = true) \/
  (exists d r, u = "."%char :: d :: r /\ isDigit d = true) ->
  startsNumber (ws ++ sg ++ u) = true.
Proof.
  intros Hws Hsg Hu.
  assert (Hhead : exists c r, u = c :: r /\ isWhiteSpace c = false /\
                    Char.eqb c "-" = false /\ Char.eqb c "+" = false /\
                    (startsWith u (str "Infinity") ||
                     (isDigit c || (Char.eqb c "." && match r with
                                                        | d :: _ => isDigit d
                                                        | [] => false
                                                        end))) = true).
  { destruct Hu as [(r & ->)|[(d & r & -> & Hd)|(d & r & -> & Hd)]].
    - eexists _, _. split; [reflexivity|]. repeat split; reflexivity.
    - exists d, r. split; [reflexivity|].
      destruct (isDigit_other d Hd) as (Hw & _). split; [exact Hw|].
      split; [digit_neq Hd; reflexivity|]. split; [digit_neq Hd; reflexivity|].
      rewrite Hd. apply orb_true_r.
    - exists "."%char, (d :: r). split; [reflexivity|]. repeat split; try reflexivity.
      rewrite Hd. apply orb_true_r. }
  destruct Hhead as (c & r & -> & Hw & Hm & Hp & Hn).
  unfold startsNumber, trimStart. rewrite (span_app _ _ _ Hws).
  change (str "+") with ["+"%char] in Hsg. change (str "-") with ["-"%char] in Hsg.
  destruct Hsg as [-> | [-> | ->]]; cbn [app span].
  - rewrite Hw. cbn [snd signOf]. rewrite Hm, Hp. cbn [snd]. exact Hn.
  - change (isWhiteSpace "+") with false. cbn [snd signOf].
    change (Char.eqb "+" "-") with false. change (Char.eqb "+" "+") with true.
    cbn [snd]. exact Hn.
  - change (isWhiteSpace "-") with false. cbn [snd signOf].
    change (Char.eqb "-" "-") with true. cbn [snd]. exact Hn.
Qed.

Lemma numeric_startsNumber (s : jsstring) : isNumeric s = true -> startsNumber s = true.
Proof.
  unfold isNumeric, numericPattern, POpt. intros H. apply test_Matches in H.
  destruct (Matches_seq_inv _ _ _ H) as (ws & s1 & -> & Hws & H1).
  destruct (Matches_seq_inv _ _ _ H1) as (sg & s2 & -> & Hsg & H2).
  destruct (Matches_seq_inv _ _ _ H2) as (u & ws2 & -> & Hu & _).
  apply Matches_star_class in Hws. rewrite app_assoc.
  rewrite <- (app_assoc ws sg). apply startsNumber_head; [exact Hws | |].
  - destruct (Matches_alt_inv _ _ _ Hsg) as [Hs|Hs].
    + destruct (Matches_alt_inv _ _ _ Hs) as [Hc|Hc];
        destruct (Matches_class_inv _ _ Hc) as (c & -> & E);
        apply N.eqb_eq in E; subst c; auto.
    + left. apply Matches_eps_inv. exact Hs.
  - destruct (Matches_alt_inv _ _ _ Hu) as [Hi|Hd].
    + left. exists ws2. rewrite (Matches_word _ _ Hi). reflexivity.
    + right. destruct (Matches_alt_inv _ _ _ Hd) as [Ha|Hb].
      * left. destruct (Matches_seq_inv _ _ _ Ha) as (a & b & -> & Hp & _).
        destruct (Matches_plus_digit a Hp) as (d & r & -> & Hd').
        exists d, ((r ++ b) ++ ws2). split; [|exact Hd'].
        rewrite <- !app_assoc. reflexivity.
      * right. destruct (Matches_seq_inv _ _ _ Hb) as (a & b & -> & Hdot & Hrest).
        destruct (Matches_class_inv _ _ Hdot) as (c & -> & E).
        apply N.eqb_eq in E. subst c.
        destruct (Matches_seq_inv _ _ _ Hrest) as (a & b' & -> & Hp & _).
        destruct (Matches_plus_digit a Hp) as (d & r & -> & Hd').
        exists d, ((r ++ b') ++ ws2). split; [|exact Hd'].
        rewrite <- !app_assoc. reflexivity.
Qed.


(** ** The earlier revision at an amount of whole cents *)

Lemma Qneg_Z (k : Z) : Qneg (inject_Z k) = (k <? 0).
Proof.
  destruct (Z.ltb_spec k 0) as [H|H].
  - apply Qneg_true. change 0%Q with (inject_Z 0). rewrite <- Zlt_Qlt. exact H.
  - apply Qneg_false. change 0%Q with (inject_Z 0). rewrite <- Zle_Qle. exact H.
Qed.

Lemma toLocaleString_whole (k : Z) :
  toLocaleString_deDE (Fin (inject_Z k)) = minus (k <? 0) ++ group3 (digits (Z.abs k)).
Proof.
  unfold toLocaleString_deDE.
  rewrite (Qfloor_between _ (1000 * Z.abs k)).
  - replace (1000 * Z.abs k / 1000) with (Z.abs k)
      by (rewrite Z.mul_comm, Z.div_mul by lia; reflexivity).
    replace ((1000 * Z.abs k) mod 1000) with 0
      by (rewrite Z.mul_comm, Z.mod_mul by lia; reflexivity).
    rewrite Qneg_Z. cbn. rewrite app_nil_r. reflexivity.
  - rewrite Qabs_Z, inject_Z_mult. change (inject_Z 1000) with (1000 # 1)%Q. lra.
  - rewrite Qabs_Z, inject_Z_mult. change (inject_Z 1000) with (1000 # 1)%Q. lra.
Qed.

(** A whole number of half units is a binary64 value. *)
Lemma over100_half (n : Z) :
  Z.abs n <= 10 ^ 14 -> n mod 50 = 0 ->
  exists q, over100 (ofZ n) = Fin q /\ (q == inject_Z n * (1 # 100))%Q.
Proof.
  intros Hn Hm. rewrite ofZ_small by lia. cbn [over100].
  exists (Qred (inject_Z n / (100 # 1))). split.
  - apply (r64_dyadic _ (n / 50) (-1)); [| |lia].
    + pose proof (Z.div_mod n 50 ltac:(lia)) as E. rewrite Hm, Z.add_0_r in E.
      rewrite E at 1. rewrite inject_Z_mult. change (pow2 (-1)) with (1 # 2)%Q.
      change (inject_Z 50) with (50 # 1)%Q. field.
    + assert (Z.abs (n / 50) <= Z.abs n); [|lia].
      pose proof (Z.div_mod n 50 ltac:(lia)) as E. rewrite Hm, Z.add_0_r in E. lia.
  - rewrite Qred_correct. unfold Qdiv. reflexivity.
Qed.

(** [Math.round] of the number of [n] cents. *)
Lemma Math_round_cents (n : Z) (q : Q) :
  hundredths n q -> (n mod 50 = 0 -> (q == inject_Z n * (1 # 100))%Q) ->
  Math_round (Fin q) =
  if (-50 <=? n) && (n <? 0) then NegZero else Fin (inject_Z ((n + 50) / 100)).
Proof.
  intros H Hx. destruct (hundredths_abs n q H) as [Hs _]. destruct H as [H H0].
  apply Qabs_Qle_condition in H.
  pose proof (Z.div_mod (n + 50) 100 ltac:(lia)) as E.
  pose proof (Z.mod_pos_bound (n + 50) 100 ltac:(lia)) as Hr.
  set (k := (n + 50) / 100) in *. set (r := (n + 50) mod 100) in *.
  assert (En : (inject_Z n == (100 # 1) * inject_Z k + inject_Z r - (50 # 1))%Q).
  { replace n with (100 * k + r - 50) at 1 by lia.
    unfold Zminus. rewrite inject_Z_plus, inject_Z_plus, inject_Z_mult. reflexivity. }
  assert (Hr' : (0 <= inject_Z r)%Q /\ (inject_Z r <= 99 # 1)%Q).
  { change 0%Q with (inject_Z 0). change (99 # 1)%Q with (inject_Z 99).
    rewrite <- !Zle_Qle. lia. }
  assert (Hq : (inject_Z k - (1 # 2) <= q)%Q /\ (q < inject_Z k + (1 # 2))%Q).
  { destruct (Z.eq_dec (n mod 50) 0) as [M|M].
    - rewrite (Hx M). lra.
    - assert (1 <= r).
      { destruct (Z.eq_dec r 0) as [R|R]; [|lia]. exfalso. apply M.
        replace n with (50 + (2 * k - 2) * 50) by lia.
        rewrite Z.mod_add by lia. reflexivity. }
      assert ((1 <= inject_Z r)%Q) by (apply inject_Z_ge1; assumption).
      lra. }
  unfold Math_round. rewrite Hs.
  rewrite (Qfloor_between (q + (1 # 2)) k) by lra.
  replace (Qle_bool (- (1 # 2)) q) with (-50 <=? n); [reflexivity|].
  destruct (Z.leb_spec (-50) n) as [L|L]; symmetry.
  - apply Qle_bool_iff.
    assert ((- (1 # 2) <= inject_Z k - (1 # 2))%Q); [|lra].
    assert ((0 <= inject_Z k)%Q); [|lra].
    change 0%Q with (inject_Z 0). rewrite <- Zle_Qle. lia.
  - apply Qle_bool_false.
    assert ((inject_Z k + (1 # 2) <= - (1 # 2))%Q); [|lra].
    assert ((inject_Z k <= inject_Z (-1))%Q) by (rewrite <- Zle_Qle; lia).
    change (inject_Z (-1)) with (-1 # 1)%Q in *. lra.
Qed.

Lemma rounded_whole_units (n : Z) :
  Z.abs n mod 100 = 0 -> Z.abs ((n + 50) / 100) = Z.abs n / 100.
Proof.
  intros Hr. pose proof (Z.div_mod (Z.abs n) 100 ltac:(lia)) as E. rewrite Hr in E.
  set (q := Z.abs n / 100) in *.
  assert (Hq : 0 <= q) by (apply Z.div_pos; lia).
  destruct (Z.abs_spec n) as [[Hn Ha]|[Hn Ha]].
  - replace (n + 50) with (q * 100 + 50) by lia.
    rewrite Z.div_add_l, (Z.div_small 50 100) by lia. lia.
  - replace (n + 50) with (- q * 100 + 50) by lia.
    rewrite Z.div_add_l, (Z.div_small 50 100) by lia. lia.
Qed.

Lemma rounded_units (n : Z) :
  Z.abs ((n + 50) / 100) = Z.abs n / 100 <->
  if n <? 0 then Z.abs n mod 100 <= 50 else Z.abs n mod 100 < 50.
Proof.
  pose proof (Z.div_mod (Z.abs n) 100 ltac:(lia)) as E.
  pose proof (Z.mod_pos_bound (Z.abs n) 100 ltac:(lia)) as Hr.
  set (q := Z.abs n / 100) in *. set (r := Z.abs n mod 100) in *.
  assert (Hq : 0 <= q) by (apply Z.div_pos; lia).
  destruct (Z.ltb_spec n 0) as [Hn|Hn].
  - replace (n + 50) with (- q * 100 + (50 - r)) by lia. rewrite Z.div_add_l by lia.
    destruct (Z_le_gt_dec r 50) as [H|H].
    + rewrite (Z.div_small (50 - r) 100) by lia. lia.
    + replace ((50 - r) / 100) with (-1)
        by (apply Z.div_unique with (150 - r); lia).
      lia.
  - replace (n + 50) with (q * 100 + (r + 50)) by lia. rewrite Z.div_add_l by lia.
    destruct (Z_lt_ge_dec r 50) as [H|H].
    + rewrite (Z.div_small (r + 50) 100) by lia. lia.
    + replace ((r + 50) / 100) with 1
        by (apply Z.div_unique with (r - 50); lia).
      lia.
Qed.

(** The rounded units the earlier revision writes under [hideAlways]. *)
Lemma rounded_cents (n : Z) (q : Q) :
  hundredths n q -> (n mod 50 = 0 -> (q == inject_Z n * (1 # 100))%Q) ->
  toLocaleString_deDE (Math_round (Fin q)) =
  minus (n <? 0) ++ group3 (digits (Z.abs ((n + 50) / 100))).
Proof.
  intros H Hx. rewrite (Math_round_cents n q H Hx).
  destruct (Z.leb_spec (-50) n) as [H1|H1], (Z.ltb_spec n 0) as [H2|H2]; cbn [andb].
  - replace ((n + 50) / 100) with 0
      by (symmetry; apply Z.div_small; lia).
    reflexivity.
  - rewrite toLocaleString_whole.
    replace ((n + 50) / 100 <? 0) with false; [reflexivity|].
    symmetry. apply Z.ltb_ge. apply Z.div_pos; lia.
  - rewrite toLocaleString_whole.
    replace ((n + 50) / 100 <? 0) with true; [reflexivity|].
    symmetry. apply Z.ltb_lt. apply Z.div_lt_upper_bound; lia.
  - lia.
Qed.

(** ** [toFixed(2)] ends in [.00] for whole units only *)

Lemma endsWith_dot00 (s : jsstring) :
  endsWith s (str ".00") =
  match rev s with
  | c :: b :: a :: _ => Char.eqb "0" c && (Char.eqb "0" b && Char.eqb "." a)
  | _ => false
  end.
Proof.
  unfold endsWith. change (rev (str ".00")) with ["0"; "0"; "."]%char.
  destruct (rev s) as [|c [|b [|a K]]]; cbn [startsWith];
    rewrite ?andb_true_r, ?andb_false_r; reflexivity.
Qed.

Lemma endsWith_lacks_dot (s : jsstring) : lacks "." s -> endsWith s (str ".00") = false.
Proof.
  intros H. rewrite endsWith_dot00. apply Forall_rev in H.
  destruct (rev s) as [|c [|b [|a K]]]; try reflexivity.
  assert (Ha : Char.eqb "." a = false).
  { apply Char_eqb_neq. intros <-.
    exact (Forall_inv (Forall_inv_tail (Forall_inv_tail H)) eq_refl). }
  rewrite Ha, !andb_false_r. reflexivity.
Qed.

Lemma endsWith_exponent (Y J : jsstring) :
  J <> [] -> Forall (fun c => isDigit c = true) J ->
  endsWith (Y ++ str "e+" ++ J) (str ".00") = false.
Proof.
  intros HJ HJd. rewrite endsWith_dot00, !rev_app_distr.
  apply Forall_rev in HJd.
  assert (HK : rev J <> []) by (intros E; apply HJ; rewrite <- (rev_involutive J), E; reflexivity).
  change (rev (str "e+")) with ["+"; "e"]%char.
  destruct (rev J) as [|a [|b [|c K]]]; [contradiction| | |]; cbn [app].
  - change (Char.eqb "0" "+") with false. rewrite andb_false_r. reflexivity.
  - change (Char.eqb "." "+") with false. rewrite !andb_false_r. reflexivity.
  - pose proof (Forall_inv (Forall_inv_tail (Forall_inv_tail HJd))) as Hc. cbv beta in Hc.
    digit_neq Hc. rewrite !andb_false_r. reflexivity.
Qed.

Lemma endsWith_exponential (neg : bool) (z : Z) :
  endsWith (minus neg ++ exponential z) (str ".00") = false.
Proof.
  unfold exponential.
  destruct (stripTrailingZeros (digits z)) as [|d [|e r]].
  - apply endsWith_lacks_dot. apply Forall_app. split.
    + apply lacks_minus. discriminate.
    + apply lacks_digits; [reflexivity | apply digits_isDigit].
  - change (minus neg ++ d :: str "e+" ++ digits (Z.of_nat (List.length (digits z)) - 1))
      with (minus neg ++ [d] ++ str "e+" ++ digits (Z.of_nat (List.length (digits z)) - 1)).
    rewrite app_assoc. apply endsWith_exponent; [apply digits_nonempty | apply digits_isDigit].
  - change (minus neg ++ d :: "."%char :: (e :: r) ++ str "e+"
                ++ digits (Z.of_nat (List.length (digits z)) - 1))
      with (minus neg ++ (d :: "."%char :: e :: r) ++ str "e+"
                ++ digits (Z.of_nat (List.length (digits z)) - 1)).
    rewrite app_assoc. apply endsWith_exponent; [apply digits_nonempty | apply digits_isDigit].
Qed.

Lemma fixedDigits_zero (r : Z) :
  0 <= r < 100 ->
  (Char.eqb "0" (digitChar (r mod 10)) && Char.eqb "0" (digitChar (r / 10 mod 10)))
  = (r =? 0).
Proof.
  intros Hr. apply Bool.eqb_prop. revert r Hr. apply below_100. vm_compute. reflexivity.
Qed.

(** When the string of [toFixed(2)] ends in [.00]: the number is below
    [10^21] and its hundredths, rounded, are whole units. *)
Lemma toFixed2_dot00 (q : Q) :
  endsWith (toFixed2 (Fin q)) (str ".00") =
  negb (Qle_bool (inject_Z (10 ^ 21)) (Qabs q)) &&
  (Qfloor (Qabs q * (100 # 1) + (1 # 2)) mod 100 =? 0).
Proof.
  unfold toFixed2.
  destruct (Qle_bool _ _); [apply endsWith_exponential|]. cbn [negb andb].
  set (m := Qfloor _). set (r := m mod 100).
  assert (Hr : 0 <= r < 100) by (apply Z.mod_pos_bound; lia).
  cbn [fixedDigits app].
  change (minus (Qneg q) ++ digits (m / 100)
            ++ "."%char :: [digitChar (r / 10 mod 10); digitChar (r mod 10)])
    with (minus (Qneg q) ++ digits (m / 100)
            ++ ["."%char; digitChar (r / 10 mod 10); digitChar (r mod 10)]).
  rewrite app_assoc, endsWith_dot00, rev_app_distr. cbn [rev app].
  rewrite andb_assoc, fixedDigits_zero by exact Hr.
  change (Char.eqb "." ".") with true. apply andb_true_r.
Qed.

Lemma decimalsExist_cents (n : Z) (q : Q) :
  Z.abs n <= 10 ^ 14 -> hundredths n q -> Z.abs n mod 100 <> 0 ->
  endsWith (toFixed2 (Fin q)) (str ".00") = false.
Proof.
  intros Hn H Hr. destruct (hundredths_abs n q H) as [_ Ha].
  apply Qabs_Qle_condition in Ha.
  rewrite toFixed2_dot00, (Qfloor_between _ (Z.abs n)) by lra.
  destruct (Z.eqb_spec (Z.abs n mod 100) 0); [contradiction|]. apply andb_false_r.
Qed.

Lemma fraction_padded (r : Z) :
  0 <= r < 100 -> (fractionOf r = ","%char :: fixedDigits 2 r <-> r mod 10 <> 0).
Proof.
  intros Hr. rewrite (fractionOf_cases r Hr).
  destruct (Z.eqb_spec r 0) as [->|Hz].
  - split; [discriminate | intros H; exfalso; apply H; reflexivity].
  - destruct (Z.eqb_spec (r mod 10) 0) as [Hm|Hm].
    + split; [|contradiction]. intros H. apply (f_equal (@List.length char)) in H.
      cbn [List.length] in H. rewrite !fixedDigits_length in H. discriminate.
    + split; [intros _; exact Hm | reflexivity].
Qed.

Lemma fractionOf_shape (r : Z) :
  0 <= r < 100 ->
  fractionOf r = [] \/
  exists ds, fractionOf r = ","%char :: ds /\ Forall (fun c => isDigit c = true) ds.
Proof.
  intros Hr. rewrite (fractionOf_cases r Hr).
  destruct (r =? 0); [left; reflexivity | right].
  destruct (r mod 10 =? 0); eexists; (split; [reflexivity | apply fixedDigits_isDigit]).
Qed.

(** The separators of the factory put in the string of the locale. *)
Lemma substitute_default (t : char) (neg : bool) (D : jsstring) (r : Z) :
  isWhiteSpace t = true -> Forall (fun c => isDigit c = true) D -> 0 <= r < 100 ->
  replaceAllClass (Char.eqb ",") [","%char] []
    (replaceAllClass (Char.eqb ".") [t] [] (minus neg ++ group3 D ++ fractionOf r))
  = minus neg ++ joined [t] D ++ fractionOf r.
Proof.
  intros Hw HD Hr. destruct (whiteSpace_separator t Hw) as (Hp & Hl & _).
  destruct (fractionOf_shape r Hr) as [E|(ds & E & Hds)]; rewrite E;
    rewrite app_assoc, (substitute_canonical [","%char] [t])
      by (first [assumption | left; reflexivity | right; eexists; split; [reflexivity | exact Hds]
                | solve [repeat constructor]]);
    reflexivity.
Qed.

(** Under the separators of the factory, the string the earlier revision
    gives. *)
Lemma earlier_cents (cfg : Config) (big : bool) (n : Z) (t : char) (policy : DecimalPolicy) :
  Z.abs n <= 10 ^ 14 -> defaultDecimalPoint cfg = [","%char] ->
  defaultThousandsSeparator cfg = [t] -> isWhiteSpace t = true ->
  Earlier.integerWithDecimalsToAmountString cfg (cents big n) None None (Some policy) =
  let r := Z.abs n mod 100 in
  match policy with
  | showAlways => unitsOf [t] n ++ fractionOf r
  | hideAlways => minus (n <? 0) ++ joined [t] (digits (Z.abs ((n + 50) / 100)))
  | hideIfZero => if r =? 0 then unitsOf [t] n else unitsOf [t] n ++ fractionOf r
  end.
Proof.
  intros Hn Hd Ht Hw. unfold Earlier.integerWithDecimalsToAmountString. cbn [orDefault].
  rewrite Hd, Ht, toFloat_cents. cbv zeta.
  destruct (float_cents n Hn) as (q & Eq & Hq). rewrite Eq.
  assert (Hx : n mod 50 = 0 -> (q == inject_Z n * (1 # 100))%Q).
  { intros M. destruct (over100_half n Hn M) as (q' & Eq' & Hq').
    rewrite Eq in Eq'. injection Eq' as ->. exact Hq'. }
  assert (Hr : 0 <= Z.abs n mod 100 < 100) by (apply Z.mod_pos_bound; lia).
  assert (E : replaceAllClass (Char.eqb ",") [","%char] []
                (replaceAllClass (Char.eqb ".") [t] [] (toLocaleString_deDE (Fin q))) =
              unitsOf [t] n ++ fractionOf (Z.abs n mod 100)).
  { rewrite (toLocaleString_cents n q Hq), substitute_default
      by (first [assumption | apply digits_isDigit]).
    unfold unitsOf. rewrite app_assoc. reflexivity. }
  assert (R : replaceAllClass (Char.eqb ",") [","%char] []
                (replaceAllClass (Char.eqb ".") [t] []
                   (toLocaleString_deDE (Math_round (Fin q)))) =
              minus (n <? 0) ++ joined [t] (digits (Z.abs ((n + 50) / 100)))).
  { rewrite (rounded_cents n q Hq Hx).
    pose proof (substitute_default t (n <? 0) (digits (Z.abs ((n + 50) / 100))) 0 Hw
                  (digits_isDigit _) ltac:(lia)) as S.
    change (fractionOf 0) with (@nil char) in S. rewrite !app_nil_r in S. exact S. }
  destruct policy.
  - destruct (Z.eqb_spec (Z.abs n mod 100) 0) as [Hz|Hz].
    + destruct (negb _).
      * rewrite E, Hz. apply app_nil_r.
      * rewrite R, rounded_whole_units by exact Hz. reflexivity.
    + rewrite (decimalsExist_cents n q Hn Hq Hz). exact E.
  - exact E.
  - exact R.
Qed.

Lemma units_value (t : jsstring) (neg : bool) (k : Z) :
  0 <= k -> Forall (fun c => isDigit c = false) t ->
  digitsValue (filter isDigit (minus neg ++ joined t (digits k))) = k.
Proof.
  intros Hk Ht. rewrite filter_app, digits_joined by (first [apply digits_isDigit | exact Ht]).
  replace (filter isDigit (minus neg)) with (@nil char) by (destruct neg; reflexivity).
  apply digits_value. exact Hk.
Qed.

(** Two integers less than one apart are equal. *)
Lemma inject_Z_close (a b : Z) :
  (inject_Z a - 1 < inject_Z b)%Q -> (inject_Z b < inject_Z a + 1)%Q -> a = b.
Proof.
  intros L U. change 1%Q with (inject_Z 1) in L, U.
  assert (L' : (inject_Z a < inject_Z b + inject_Z 1)%Q) by lra.
  rewrite <- inject_Z_plus in L', U. rewrite <- Zlt_Qlt in L', U. lia.
Qed.

(** The quotient by 100 of an integer, as a number: when its hundredths
    round to whole units, it is an integer. *)
Lemma over100_whole (w : Z) (v : Q) :
  r64 (inject_Z w / (100 # 1)) = Fin v ->
  Qfloor (Qabs v * (100 # 1) + (1 # 2)) mod 100 = 0 ->
  exists k, (v == inject_Z k)%Q.
Proof.
  intros E HM. destruct (Z.eq_dec w 0) as [->|Hw].
  - exists 0. change (r64 (inject_Z 0 / (100 # 1))) with (Fin 0) in E.
    injection E as <-. reflexivity.
  - set (q := (inject_Z w / (100 # 1))%Q) in *.
    assert (Eq : (q == inject_Z w * (1 # 100))%Q) by reflexivity.
    assert (Hq : ~ q == 0).
    { intros Z0. rewrite Eq in Z0.
      assert (W : (inject_Z w == inject_Z 0)%Q) by (change (inject_Z 0) with 0%Q; lra).
      exact (Hw (proj1 (inject_Z_injective w 0) W)). }
    pose proof (r64_cases q Hq) as C. cbv zeta in C.
    set (j := Z.max (exponent q) (-1022) - 52) in C.
    destruct C as [C|[C|[C|(m & C & Hm)]]]; rewrite C in E; try discriminate.
    { exists 0. injection E as <-. reflexivity. }
    set (u := pow2 j) in *.
    assert (Pu : (0 < u)%Q) by apply pow2_pos.
    assert (Ev : (v == inject_Z m * u)%Q).
    { apply (f_equal finite) in E. cbn [finite] in E. rewrite <- E. apply Qred_correct. }
    clear E C.
    rewrite <- Ev in Hm.
    pose proof (Z.div_mod (Qfloor (Qabs v * (100 # 1) + (1 # 2))) 100 ltac:(lia)) as EM.
    rewrite HM, Z.add_0_r in EM.
    pose proof (Qfloor_le (Qabs v * (100 # 1) + (1 # 2))) as FL.
    pose proof (Qlt_floor (Qabs v * (100 # 1) + (1 # 2))) as FU.
    rewrite inject_Z_plus in FU. change (inject_Z 1) with 1%Q in FU.
    set (N := Qfloor (Qabs v * (100 # 1) + (1 # 2)) / 100) in *.
    rewrite EM, inject_Z_mult in FL, FU. change (inject_Z 100) with (100 # 1)%Q in FL, FU.
    destruct (Z_le_gt_dec (-6) j) as [J|J].
    + (* the binary64 values are 1/64 apart at least *)
      set (K := m * 2 ^ (j + 6)).
      assert (EK : (v * (64 # 1) == inject_Z K)%Q).
      { unfold K. rewrite inject_Z_mult, <- pow2_Z, pow2_add by lia. fold u.
        change (pow2 6) with (64 # 1)%Q. rewrite Ev. ring. }
      assert (EA : (Qabs v * (64 # 1) == inject_Z (Z.abs K))%Q).
      { rewrite <- Qabs_Z, <- EK, Qabs_Qmult. reflexivity. }
      assert (HK : 64 * N = Z.abs K).
      { apply inject_Z_close; rewrite inject_Z_mult;
          change (inject_Z 64) with (64 # 1)%Q; lra. }
      exists (K / 64).
      assert (K = 64 * (K / 64)).
      { destruct (Z.abs_spec K) as [[_ A]|[_ A]].
        - rewrite A in HK. rewrite <- HK, Z.mul_comm, Z.div_mul by lia. lia.
        - replace K with (- N * 64) by lia. rewrite Z.div_mul by lia. lia. }
      assert (EK' : (inject_Z K == (64 # 1) * inject_Z (K / 64))%Q).
      { rewrite H at 1. rewrite inject_Z_mult. reflexivity. }
      lra.
    + (* the rounding moves the quotient by 1/256 at most *)
      assert (Hu : (u <= 1 # 128)%Q).
      { change (1 # 128)%Q with (pow2 (-7)). apply pow2_le. lia. }
      pose proof (Qabs_triangle_reverse v q) as T1.
      pose proof (Qabs_triangle_reverse q v) as T2.
      assert (Hs : (Qabs (q - v) == Qabs (v - q))%Q).
      { setoid_replace (q - v)%Q with (- (v - q))%Q by ring. apply Qabs_opp. }
      rewrite Hs in T2.
      assert (Ea : (Qabs q == inject_Z (Z.abs w) * (1 # 100))%Q).
      { rewrite Eq, Qabs_Qmult, Qabs_Z. reflexivity. }
      assert (HW : 100 * N = Z.abs w).
      { apply inject_Z_close; rewrite inject_Z_mult;
          change (inject_Z 100) with (100 # 1)%Q; lra. }
      set (s := w / 100).
      assert (Es : w = 100 * s).
      { unfold s. destruct (Z.abs_spec w) as [[_ A]|[_ A]].
        - rewrite A in HW. rewrite <- HW, Z.mul_comm, Z.div_mul by lia. lia.
        - replace w with (- N * 100) by lia. rewrite Z.div_mul by lia. lia. }
      assert (Eqs : (q == inject_Z s)%Q).
      { rewrite Eq, Es, inject_Z_mult. change (inject_Z 100) with (100 # 1)%Q. field. }
      set (P := s * 2 ^ (- j)).
      assert (EP : (inject_Z P * u == q)%Q).
      { unfold P. rewrite inject_Z_mult, <- pow2_Z by lia. unfold u.
        rewrite <- Qmult_assoc, <- pow2_add. replace (- j + j) with 0 by lia.
        change (pow2 0) with 1%Q. rewrite Eqs. ring. }
      assert (Hd : (Qabs ((inject_Z m - inject_Z P) * u) <= u * (1 # 2))%Q).
      { setoid_replace ((inject_Z m - inject_Z P) * u)%Q with (v - q)%Q
          by (rewrite Ev, <- EP; ring).
        exact Hm. }
      rewrite Qabs_Qmult, (Qabs_pos u) in Hd by lra.
      assert (Hd' : (Qabs (inject_Z m - inject_Z P) <= 1 # 2)%Q).
      { apply Qmult_le_r with u; [exact Pu|]. rewrite (Qmult_comm (1 # 2)). exact Hd. }
      apply Qabs_Qle_condition in Hd'.
      assert (m = P) by (apply inject_Z_close; lra).
      exists s. rewrite Ev, H, EP. exact Eqs.
Qed.

Lemma toLocaleString_comp (p q : Q) :
  (p == q)%Q -> toLocaleString_deDE (Fin p) = toLocaleString_deDE (Fin q).
Proof.
  intros E. unfold toLocaleString_deDE.
  rewrite (Qfloor_comp (Qabs p * (1000 # 1) + (1 # 2)) (Qabs q * (1000 # 1) + (1 # 2)))
    by (rewrite E; reflexivity).
  unfold Qneg. rewrite (Qleb_comp 0%Q 0%Q (reflexivity _) p q E). reflexivity.
Qed.

(** Rounding an integer changes nothing in its string. *)
Lemma toLocaleString_round (v : Q) (k : Z) :
  (v == inject_Z k)%Q ->
  toLocaleString_deDE (Math_round (Fin v)) = toLocaleString_deDE (Fin v).
Proof.
  intros E. rewrite (Math_round_near v k).
  - symmetry. apply toLocaleString_comp. exact E.
  - lra.
  - lra.
  - destruct (Z.eq_dec k 0) as [K|K]; [right | left; exact K].
    rewrite E, K. apply Qle_refl.
Qed.

(** In the earlier revision, the number [hideIfZero] formats has the
    string of the number itself. *)
Lemma earlier_suitable (n : Z) :
  let x := over100 (ofZ n) in
  toLocaleString_deDE
    (if negb (endsWith (toFixed2 x) (str ".00")) then x else Math_round x)
  = toLocaleString_deDE x.
Proof.
  cbv zeta. unfold ofZ.
  destruct (r64_integral n) as [(s & ->)|(w & ->)]; [destruct s; reflexivity|].
  cbn [over100].
  destruct (r64 (inject_Z w / (100 # 1))) as [|s| |v] eqn:E;
    try (destruct (negb _); reflexivity).
  destruct (endsWith (toFixed2 (Fin v)) (str ".00")) eqn:D; [|reflexivity].
  cbn [negb]. rewrite toFixed2_dot00 in D. apply andb_true_iff in D. destruct D as [_ D].
  apply Z.eqb_eq in D. destruct (over100_whole w v E D) as (k & Hk).
  apply (toLocaleString_round v k Hk).
Qed.

(** * The claims *)

(** C1. Under the default decimal point [,] and the default thousands
    separator (the no-break space of the code, or the blank of the
    specification), an amount of [n] whole cents, given as a number or as
    a BigInt, formatted with the policy [showAlways] and read back by
    [amountStringToIntegerWithDecimals], gives [n] again: for every [n] of
    at most [10^14] in absolute value, a range in which the binary64
    quotient [n / 100] still shows its two decimals. *)
Theorem roundtrip_showAlways (cfg : Config) (big : bool) (n : Z) :
  DefaultSeparators cfg -> Z.abs n <= 10 ^ 14 ->
  amountStringToIntegerWithDecimals cfg
    (integerWithDecimalsToAmountString cfg (cents big n) None None (Some showAlways))
    None None
  = Returns (ofZ n).
Proof.
  intros Hs Hn. destruct (default_separators cfg Hs) as (t & Ht & Hd & Hw & _).
  rewrite (format_default cfg big n t showAlways Hn Hd Ht Hw).
  apply parse_default; assumption.
Qed.

Lemma roundtrip_showAlways_witness :
  DefaultSeparators defaults /\ Z.abs (-123456) <= 10 ^ 14 /\
  amountStringToIntegerWithDecimals defaults
    (integerWithDecimalsToAmountString defaults (cents false (-123456)) None None
       (Some showAlways))
    None None
  = Returns (ofZ (-123456)).
Proof.
  assert (Hs : DefaultSeparators defaults) by (split; [reflexivity | left; reflexivity]).
  assert (Hn : Z.abs (-123456) <= 10 ^ 14) by (vm_compute; discriminate).
  split; [exact Hs|]. split; [exact Hn|].
  exact (roundtrip_showAlways defaults false (-123456) Hs Hn).
Defined.

(** C2, amended. The decimal policy under the default separators: 500
    cents give "5" with [hideIfZero] and "5,00" with [showAlways], 550
    cents give "5,50" with [hideIfZero], 199 cents give "1" with
    [hideAlways]. For every amount of whole cents of at most [10^14] in
    absolute value, [hideAlways] gives the sign and the digits of the units
    [|n| / 100], the quotient rounded towards zero, grouped by the
    thousands separator, and [showAlways] gives that string followed by
    the comma and the two digits of the cents. *)
Theorem decimal_policy (cfg : Config) :
  DefaultSeparators cfg ->
  integerWithDecimalsToAmountString cfg (Number (ofZ 500)) None None (Some hideIfZero)
    = str "5" /\
  integerWithDecimalsToAmountString cfg (Number (ofZ 550)) None None (Some hideIfZero)
    = str "5,50" /\
  integerWithDecimalsToAmountString cfg (Number (ofZ 500)) None None (Some showAlways)
    = str "5,00" /\
  integerWithDecimalsToAmountString cfg (Number (ofZ 199)) None None (Some hideAlways)
    = str "1" /\
  forall (big : bool) (n : Z),
    Z.abs n <= 10 ^ 14 ->
    integerWithDecimalsToAmountString cfg (cents big n) None None (Some hideAlways)
      = minus (n <? 0) ++ joined (defaultThousandsSeparator cfg) (digits (Z.abs n / 100)) /\
    integerWithDecimalsToAmountString cfg (cents big n) None None (Some showAlways)
      = integerWithDecimalsToAmountString cfg (cents big n) None None (Some hideAlways)
          ++ str "," ++ fixedDigits 2 (Z.abs n mod 100).
Proof.
  intros Hs. destruct (default_separators cfg Hs) as (t & Ht & Hd & Hw & _).
  assert (Small : forall n, Z.abs n <= 1000 -> Z.abs n <= 10 ^ 14)
    by (intros n H; apply Z.le_trans with 1000; [exact H | vm_compute; discriminate]).
  pose proof (fun n p H => format_default cfg false n t p (Small n H) Hd Ht Hw) as E.
  cbn [cents] in E.
  rewrite !E by (vm_compute; discriminate).
  do 4 (split; [vm_compute; reflexivity|]).
  intros big n Hn. rewrite !(format_default cfg big n t _ Hn Hd Ht Hw), Ht.
  cbn [shownFraction]. rewrite app_nil_r. split; reflexivity.
Qed.

Lemma decimal_policy_witness :
  DefaultSeparators defaults /\
  integerWithDecimalsToAmountString defaults (Number (ofZ 199)) None None (Some hideAlways)
    = str "1".
Proof.
  assert (Hs : DefaultSeparators defaults) by (split; [reflexivity | left; reflexivity]).
  split; [exact Hs|].
  exact (proj1 (proj2 (proj2 (proj2 (decimal_policy defaults Hs))))).
Defined.

(** C2 as it is stated fails for large amounts: 60000000000000096 cents
    have the units 600000000000000, and [hideAlways] writes
    600000000000001, the cents rounded into the units by the division in
    binary64. *)
Lemma hideAlways_rounds_large :
  integerWithDecimalsToAmountString defaults (Number (ofZ 60000000000000096)) None None
    (Some hideAlways) = joined [NBSP] (str "600000000000001") /\
  Z.abs 60000000000000096 / 100 = 600000000000000.
Proof. split; vm_compute; reflexivity. Qed.

(** C3. A thousands separator that is the comma is not kept apart from
    the decimal point: 123456 cents, asked for with the thousands separator
    [,] and the decimal point [.], come out as "1.234.56": the comma is
    nowhere and the dot stands between the groups too, where the claim
    has the comma between the groups only and the dot before the fraction
    only. *)
Theorem separators_collide (cfg : Config) :
  integerWithDecimalsToAmountString cfg (Number (ofZ 123456))
    (Some (str ".")) (Some (str ",")) (Some showAlways)
  = str "1.234.56".
Proof. vm_compute. reflexivity. Qed.

(** C4. The range check of [zAmountRawLimited] reads the digits before the
    decimal point only: with the bounds 0 and 1000 the string "10,50" is
    accepted and transformed to 1050 cents, which is more than 1000, and
    its float value 10.5 is above [max / 100]. "15,00" is rejected and
    "5,00" gives 500. *)
Theorem limited_ignores_fraction :
  zAmountIntegerWithDecimalsLimited defaults (ofZ 0) (ofZ 1000) (str "10,50")
    = Returns (Success (ofZ 1050)) /\
  lessEq (ofZ 1050) (ofZ 1000) = false /\
  (exists x, amountStringToFloatNumber defaults (str "10,50") None None = Returns x /\
             lessEq x (over100 (ofZ 1000)) = false) /\
  (exists message,
     zAmountIntegerWithDecimalsLimited defaults (ofZ 0) (ofZ 1000) (str "15,00")
       = Returns (Failure message)) /\
  zAmountIntegerWithDecimalsLimited defaults (ofZ 0) (ofZ 1000) (str "5,00")
    = Returns (Success (ofZ 500)).
Proof.
  split; [vm_compute; reflexivity|].
  split; [vm_compute; reflexivity|].
  split; [eexists; split; vm_compute; reflexivity|].
  split; [eexists; vm_compute; reflexivity|].
  vm_compute; reflexivity.
Qed.

(** C5. [amountStringToIntegerWithDecimals] and [amountStringToFloatNumber]
    throw a SyntaxError when the thousands separator is [(]: the separator
    is handed to [new RegExp] as it is. *)
Theorem separator_throws (cfg : Config) (amountString : jsstring) :
  amountStringToIntegerWithDecimals cfg amountString None (Some (str "("))
    = Throws SyntaxError /\
  amountStringToFloatNumber cfg amountString None (Some (str "("))
    = Throws SyntaxError.
Proof. split; reflexivity. Qed.

(** C6. With the default decimal point and thousands separator,
    [zAmountRaw] accepts a string exactly when it has the shape the
    specification describes (optional leading white space, a digit, any
    further digits and white space, then optionally the comma and up to
    two digits; white space being what [\s] matches, the no-break space
    included) and its stripped value parses as a number that is at least
    0; the second condition follows from the first. Every other string is
    rejected with messages. "-5" is rejected with the message of the
    pattern and that of the refinement, "12,345" with the message of the
    pattern; "12,34" is accepted, and so is "1 234,50" written with a
    no-break space. *)
Theorem zAmountRaw_accepts (cfg : Config) :
  DefaultSeparators cfg ->
  (forall s,
     zAmountRaw cfg s = Returns (Success s) <->
     AmountShape "," s /\ NonNegative (strippedNumber cfg s)) /\
  (forall s, AmountShape "," s -> NonNegative (strippedNumber cfg s)) /\
  (forall s,
     zAmountRaw cfg s = Returns (Success s) \/
     exists messages, zAmountRaw cfg s = Returns (Failure messages)) /\
  zAmountRaw cfg (str "-5")
    = Returns
        (Failure
           [str "Should be a positive number with optional two decimal places";
            str "Should be a positive number with with optional two decimal places"]) /\
  zAmountRaw cfg (str "12,345")
    = Returns (Failure [str "Should be a positive number with optional two decimal places"]) /\
  zAmountRaw cfg (str "12,34") = Returns (Success (str "12,34")) /\
  zAmountRaw cfg ("1"%char :: NBSP :: str "234,50")
    = Returns (Success ("1"%char :: NBSP :: str "234,50")).
Proof.
  intros Hs. destruct (default_separators cfg Hs) as (t & Ht & Hd & Hw & Hc).
  pose proof (fun s => zAmountRaw_default cfg t s Hd Ht Hw) as E.
  pose proof (fun s => strippedNumber_whiteSpace cfg t s Ht Hw) as N.
  split; [|split; [|split; [|split; [|split; [|split]]]]].
  - intros s. rewrite E. destruct (test (amountPattern ",") s) eqn:T.
    + apply test_Matches, Matches_amountPattern in T.
      split; [intros _; split; [exact T | apply (refinement_holds cfg t); assumption]
             | reflexivity].
    + split; [discriminate|]. intros [H _].
      apply Matches_amountPattern, test_Matches in H. congruence.
  - intros s. apply (refinement_holds cfg t); assumption.
  - intros s. rewrite E. destruct (test (amountPattern ",") s); [left | right; eexists];
      reflexivity.
  - rewrite E, N. vm_compute. reflexivity.
  - rewrite E, N. vm_compute. reflexivity.
  - rewrite E. vm_compute. reflexivity.
  - rewrite E. vm_compute. reflexivity.
Qed.

Lemma zAmountRaw_accepts_witness :
  DefaultSeparators defaults /\
  zAmountRaw defaults (str "12,34") = Returns (Success (str "12,34")).
Proof.
  assert (Hs : DefaultSeparators defaults) by (split; [reflexivity | left; reflexivity]).
  split; [exact Hs|].
  exact (proj1 (proj2 (proj2 (proj2 (proj2 (proj2 (zAmountRaw_accepts defaults Hs))))))).
Defined.

(** C7. [toMoney] puts the resolved symbol before or after the formatted
    amount, as [symbolPosition] says, with [symbolDelimiter] in between:
    for every whole number of cents and every options record that leaves
    [amountType] and [hideSymbol] unset, in a factory whose amounts are
    cents. With the default currency [usd] and the built-in symbols,
    [toMoney(1500)] is "$15" and
    [toMoney(1550, {currency: 'eur', symbolPosition: 'after', symbolDelimiter: ' '})]
    is "15,50 €". *)
Theorem toMoney_decorates :
  (forall (cfg : Config) (n : Z) (props : Props.t),
     defaultAmountType cfg = integerWithDecimals ->
     Props.amountType props = None ->
     Props.hideSymbol props = None ->
     let amountString :=
       integerWithDecimalsToAmountString cfg (Number (ofZ n))
         (Props.decimalPoint props) (Props.thousandsSeparator props)
         (Props.decimalPolicy props) in
     let symbol := ToString (resolvedSymbol cfg props) in
     let symbolDelimiter := orDefault (Props.symbolDelimiter props) (defaultSymbolDelimiter cfg) in
     toMoney cfg (AmountAndRest (Number (ofZ n)) props) =
     match orDefault (Props.symbolPosition props) (defaultSymbolPosition cfg) with
     | before => symbol ++ symbolDelimiter ++ amountString
     | after => amountString ++ symbolDelimiter ++ symbol
     end) /\
  (forall cs : list Currency,
     let cfg := createMoneyThings (onlyCurrencies (usd :: cs)) in
     toMoney cfg (OneAmount (Number (ofZ 1500))) = str "$15" /\
     toMoney cfg
       (AmountAndRest (Number (ofZ 1550))
          {| Props.amountType := None;
             Props.currency := Some eur;
             Props.decimalPoint := None;
             Props.decimalPolicy := None;
             Props.thousandsSeparator := None;
             Props.symbol := None;
             Props.symbolPosition := Some after;
             Props.symbolDelimiter := Some (str " ");
             Props.hideSymbol := None |})
     = str "15,50 €").
Proof.
  split.
  - intros cfg n props Ha Hp Hh. unfold toMoney, resolvedSymbol. cbn [toMoneyProps].
    rewrite Ha, Hp, Hh. cbn [orDefault numberOf].
    rewrite Math_round_ofZ.
    assert (E : forall a, integerWithDecimalsToAmountString cfg a
                  (Some (orDefault (Props.decimalPoint props) (defaultDecimalPoint cfg)))
                  (Some (orDefault (Props.thousandsSeparator props)
                           (defaultThousandsSeparator cfg)))
                  (Some (orDefault (Props.decimalPolicy props) (defaultDecimalPolicy cfg)))
                = integerWithDecimalsToAmountString cfg a (Props.decimalPoint props)
                    (Props.thousandsSeparator props) (Props.decimalPolicy props)).
    { intros a. destruct (Props.decimalPoint props), (Props.thousandsSeparator props),
        (Props.decimalPolicy props); reflexivity. }
    rewrite E. destruct (Props.symbol props), (Props.currency props); reflexivity.
  - intros cs. split; vm_compute; reflexivity.
Qed.

Lemma toMoney_decorates_witness :
  toMoney defaults
    (AmountAndRest (Number (ofZ 1550))
       (Props.Build_t None None None None None None (Some after) (Some (str " ")) None))
  = str "15,50 $".
Proof.
  exact (proj1 toMoney_decorates defaults 1550
           (Props.Build_t None None None None None None (Some after) (Some (str " ")) None)
           eq_refl eq_refl eq_refl).
Defined.

(** C8, amended. Once the thousands separators are removed and the first
    decimal point is replaced by a dot, a text that does not begin with a
    number (it is then not numeric) gives [NaN], from
    [amountStringToIntegerWithDecimals] and from
    [amountStringToFloatNumber]; a text that begins with a number gives a
    result that is not [NaN], whatever follows the number. *)
Theorem NaN_without_number (cfg : Config) (s : jsstring)
    (decimalPoint thousandsSeparator : option jsstring) (rx : RegExp) :
  RegExp_new (orDefault thousandsSeparator (defaultThousandsSeparator cfg)) = Returns rx ->
  let text := strippedText rx (orDefault decimalPoint (defaultDecimalPoint cfg)) s in
  (startsNumber text = false ->
   isNumeric text = false /\
   amountStringToIntegerWithDecimals cfg s decimalPoint thousandsSeparator = Returns NaN /\
   amountStringToFloatNumber cfg s decimalPoint thousandsSeparator = Returns NaN) /\
  (startsNumber text = true ->
   exists x,
     amountStringToIntegerWithDecimals cfg s decimalPoint thousandsSeparator = Returns x /\
     amountStringToFloatNumber cfg s decimalPoint thousandsSeparator = Returns (over100 x) /\
     isNaN x = false /\ isNaN (over100 x) = false).
Proof.
  intros Hrx text.
  destruct (toInteger_compiled cfg s decimalPoint thousandsSeparator rx Hrx) as [E1 E2].
  fold text in E1, E2.
  assert (Hx : isNaN (Math_round (times100 (parseFloat text))) = negb (startsNumber text))
    by (rewrite isNaN_round_times100; apply isNaN_parseFloat).
  split; intros Hs; rewrite Hs in Hx; cbn [negb] in Hx.
  - apply isNaN_true in Hx. rewrite Hx in E1, E2. split; [|split; assumption].
    destruct (isNumeric text) eqn:E; [|reflexivity].
    apply numeric_startsNumber in E. congruence.
  - eexists. split; [exact E1|]. split; [exact E2|]. split; [exact Hx|].
    rewrite isNaN_over100. exact Hx.
Qed.

Lemma NaN_without_number_witness :
  RegExp_new (orDefault None (defaultThousandsSeparator defaults))
    = Returns (RxWord [NBSP]) /\
  amountStringToIntegerWithDecimals defaults (str "abc") None None = Returns NaN /\
  amountStringToFloatNumber defaults (str "abc") None None = Returns NaN.
Proof.
  split; [reflexivity|].
  exact (proj2
           (proj1 (NaN_without_number defaults (str "abc") None None (RxWord [NBSP])
                     eq_refl)
              eq_refl)).
Defined.

(** C8 as it is stated fails at "12abc": the text is not numeric, and the
    result is the 1200 cents of its leading number. *)
Lemma NaN_for_non_numeric_fails :
  amountStringToIntegerWithDecimals defaults (str "12abc") None None = Returns (ofZ 1200) /\
  ~ NonNumericGivesNaN defaults (str "12abc").
Proof.
  split; [vm_compute; reflexivity|].
  intros H. specialize (H (RxWord [NBSP]) eq_refl eq_refl).
  vm_compute in H. discriminate H.
Qed.

(** C9, amended. Dividing a whole number of cents by 100 and scaling the
    result back with [floatNumberToIntegerWithDecimals] gives the number of
    cents again for every integer below [2^51] in absolute value, given as
    a number or as a BigInt. *)
Theorem scaling_roundtrip (big : bool) (n : Z) :
  Z.abs n < 2 ^ 51 ->
  floatNumberToIntegerWithDecimals (integerWithDecimalsToFloatNumber (cents big n)) = ofZ n.
Proof.
  intros Hn. rewrite toFloat_cents. apply scaled_back. exact Hn.
Qed.

Lemma scaling_roundtrip_witness :
  Z.abs (-123456) < 2 ^ 51 /\
  floatNumberToIntegerWithDecimals (integerWithDecimalsToFloatNumber (cents true (-123456)))
  = ofZ (-123456).
Proof.
  assert (Hn : Z.abs (-123456) < 2 ^ 51) by (vm_compute; reflexivity).
  split; [exact Hn|]. exact (scaling_roundtrip true (-123456) Hn).
Defined.

(** C9 as it is stated fails at 4000000000000002: the quotient by 100 is
    rounded to binary64, its product with 100 is halfway to the next
    integer, and [Math.round] gives 4000000000000003. *)
Lemma scaling_roundtrip_fails :
  floatNumberToIntegerWithDecimals
    (integerWithDecimalsToFloatNumber (Number (ofZ 4000000000000002)))
  = ofZ 4000000000000003 /\
  ofZ 4000000000000003 <> ofZ 4000000000000002.
Proof. split; [vm_compute; reflexivity | vm_compute; discriminate]. Qed.

(** C10, amended. Under the default separators the two revisions of the
    formatter give the same string for [n] whole cents, [n] of at most
    [10^14] in absolute value, exactly when: the policy is [showAlways] and
    the cents are not a multiple of ten; or the policy is [hideIfZero] and
    the cents are zero or not a multiple of ten; or the policy is
    [hideAlways] and the cents are below 50, or exactly 50 for a negative
    amount. *)
Theorem revisions_agree (cfg : Config) (big : bool) (n : Z) (policy : DecimalPolicy) :
  DefaultSeparators cfg -> Z.abs n <= 10 ^ 14 ->
  integerWithDecimalsToAmountString cfg (cents big n) None None (Some policy) =
  Earlier.integerWithDecimalsToAmountString cfg (cents big n) None None (Some policy)
  <-> revisionsAgree policy n.
Proof.
  intros Hs Hn. destruct (default_separators cfg Hs) as (t & Ht & Hd & Hw & _).
  destruct (whiteSpace_separator t Hw) as (_ & _ & Htd & _).
  rewrite (format_default cfg big n t policy Hn Hd Ht Hw),
    (earlier_cents cfg big n t policy Hn Hd Ht Hw).
  assert (Hr : 0 <= Z.abs n mod 100 < 100) by (apply Z.mod_pos_bound; lia).
  unfold revisionsAgree. cbv zeta. set (r := Z.abs n mod 100) in *.
  change (str ",") with [","%char].
  destruct policy; cbn [shownFraction app].
  - destruct (Z.eqb_spec r 0) as [Hz|Hz].
    + rewrite app_nil_r. split; [intros _; left; exact Hz | reflexivity].
    + rewrite <- (fraction_padded r Hr). split.
      * intros H. apply app_inv_head in H. right. symmetry. exact H.
      * intros [H|H]; [contradiction|]. rewrite H. reflexivity.
  - rewrite <- (fraction_padded r Hr). split.
    + intros H. apply app_inv_head in H. symmetry. exact H.
    + intros H. rewrite H. reflexivity.
  - pose proof (rounded_units n) as Hu. fold r in Hu.
    rewrite app_nil_r, <- Hu. unfold unitsOf. split.
    + intros H. apply (f_equal (fun s => digitsValue (filter isDigit s))) in H.
      rewrite !units_value in H
        by (first [apply Z.abs_nonneg | apply Z.div_pos; lia | repeat constructor; exact Htd]).
      symmetry. exact H.
    + intros H. rewrite H. reflexivity.
Qed.

Lemma revisions_agree_witness :
  DefaultSeparators defaults /\ Z.abs (-1234555) <= 10 ^ 14 /\
  revisionsAgree hideIfZero (-1234555) /\
  integerWithDecimalsToAmountString defaults (cents false (-1234555)) None None
    (Some hideIfZero) =
  Earlier.integerWithDecimalsToAmountString defaults (cents false (-1234555)) None None
    (Some hideIfZero).
Proof.
  assert (Hs : DefaultSeparators defaults) by (split; [reflexivity | left; reflexivity]).
  assert (Hn : Z.abs (-1234555) <= 10 ^ 14) by (vm_compute; discriminate).
  assert (H : revisionsAgree hideIfZero (-1234555)) by (right; vm_compute; discriminate).
  split; [exact Hs|]. split; [exact Hn|]. split; [exact H|].
  exact (proj2 (revisions_agree defaults false (-1234555) hideIfZero Hs Hn) H).
Defined.

(** C10 as it is stated fails: for 500 cents under [showAlways] the
    current revision gives "5,00" and the earlier one gives "5". *)
Lemma revisions_differ :
  integerWithDecimalsToAmountString defaults (Number (ofZ 500)) None None (Some showAlways)
    = str "5,00" /\
  Earlier.integerWithDecimalsToAmountString defaults (Number (ofZ 500)) None None
    (Some showAlways) = str "5" /\
  ~ (forall (n : Z) (policy : DecimalPolicy),
       integerWithDecimalsToAmountString defaults (Number (ofZ n)) None None (Some policy) =
       Earlier.integerWithDecimalsToAmountString defaults (Number (ofZ n)) None None
         (Some policy)).
Proof.
  split; [vm_compute; reflexivity|]. split; [vm_compute; reflexivity|].
  intros H. specialize (H 500 showAlways). vm_compute in H. discriminate H.
Qed.

(** * Further properties of the code *)

(** ** Scaling and the float entry points *)

Lemma format_resolved (cfg : Config) (amount : Amount)
    (decimalPoint thousandsSeparator : option jsstring) (decimalPolicy : option DecimalPolicy) :
  integerWithDecimalsToAmountString cfg amount
    (Some (orDefault decimalPoint (defaultDecimalPoint cfg)))
    (Some (orDefault thousandsSeparator (defaultThousandsSeparator cfg)))
    (Some (orDefault decimalPolicy (defaultDecimalPolicy cfg)))
  = integerWithDecimalsToAmountString cfg amount decimalPoint thousandsSeparator decimalPolicy.
Proof. destruct decimalPoint, thousandsSeparator, decimalPolicy; reflexivity. Qed.

Lemma format_number_or_bigint (cfg : Config) (big : bool) (n : Z)
    (decimalPoint thousandsSeparator : option jsstring) (decimalPolicy : option DecimalPolicy) :
  integerWithDecimalsToAmountString cfg (cents big n) decimalPoint thousandsSeparator
    decimalPolicy
  = integerWithDecimalsToAmountString cfg (Number (ofZ n)) decimalPoint thousandsSeparator
      decimalPolicy.
Proof. destruct big; reflexivity. Qed.

(** X1. [floatNumberToAmountString] at the float of [n] whole cents gives
    the string [integerWithDecimalsToAmountString] gives for the cents,
    whatever the configuration, the separators and the policy: for [n]
    below [2^51] in absolute value, where the float scaled back is [n]. *)
Theorem float_string_of_cents (cfg : Config) (big : bool) (n : Z)
    (decimalPoint thousandsSeparator : option jsstring) (decimalPolicy : option DecimalPolicy) :
  Z.abs n < 2 ^ 51 ->
  floatNumberToAmountString cfg (integerWithDecimalsToFloatNumber (cents big n))
    decimalPoint thousandsSeparator decimalPolicy
  = integerWithDecimalsToAmountString cfg (cents big n) decimalPoint thousandsSeparator
      decimalPolicy.
Proof.
  intros Hn. unfold floatNumberToAmountString, floatNumberToIntegerWithDecimals.
  rewrite toFloat_cents, scaled_back, format_resolved by exact Hn.
  symmetry. apply format_number_or_bigint.
Qed.

Lemma float_string_of_cents_witness :
  Z.abs 1234567 < 2 ^ 51 /\
  floatNumberToAmountString defaults (integerWithDecimalsToFloatNumber (cents false 1234567))
    (Some (str ".")) (Some (str ",")) (Some hideIfZero)
  = integerWithDecimalsToAmountString defaults (cents false 1234567)
      (Some (str ".")) (Some (str ",")) (Some hideIfZero).
Proof.
  assert (Hn : Z.abs 1234567 < 2 ^ 51) by (vm_compute; reflexivity).
  split; [exact Hn|].
  exact (float_string_of_cents defaults false 1234567 _ _ _ Hn).
Defined.

(** X16. [floatNumberToIntegerWithDecimals] rounds the binary64 product
    [x * 100], not the product itself: for a number [x] from 0.01 to
    [10^12] in absolute value the result is an integer [k] with
    [|k - 100 x| <= 1/2 + 1/128]. The product of 0.015 and 100 is 1.5 in
    binary64, and the result is 2, where the nearest integer to the exact
    product of that number (which is below 0.015) and 100 is 1. *)
Theorem cents_nearest (q : Q) :
  (1 # 100 <= Qabs q)%Q -> (Qabs q <= inject_Z (10 ^ 12))%Q ->
  (exists k : Z,
     floatNumberToIntegerWithDecimals (Fin q) = Fin (inject_Z k) /\
     (Qabs (inject_Z k - q * (100 # 1)) <= (1 # 2) + (1 # 128))%Q) /\
  floatNumberToIntegerWithDecimals (parseFloat (str "0.015")) = ofZ 2 /\
  (finite (parseFloat (str "0.015")) * (100 # 1) < 3 # 2)%Q.
Proof.
  intros HL HU. split; [|split; [vm_compute; reflexivity | vm_compute; reflexivity]].
  unfold floatNumberToIntegerWithDecimals. cbn [times100].
  assert (Ha : (Qabs (q * (100 # 1)) == Qabs q * (100 # 1))%Q)
    by (rewrite Qabs_Qmult; reflexivity).
  assert (HB : (inject_Z (10 ^ 12) * (100 # 1) < pow2 47)%Q) by (vm_compute; reflexivity).
  destruct (r64_near (q * (100 # 1)) 0 47) as (q' & E & Hq'); [lia | lia | | |].
  - rewrite Ha. change (pow2 0) with 1%Q. lra.
  - rewrite Ha. lra.
  - rewrite E. change (pow2 (47 - 54)) with (1 # 128)%Q in Hq'.
    apply Qabs_Qle_condition in Hq'.
    pose proof (Qfloor_le (q' + (1 # 2))) as FL. pose proof (Qlt_floor (q' + (1 # 2))) as FU.
    rewrite inject_Z_plus in FU. change (inject_Z 1) with 1%Q in FU.
    exists (Qfloor (q' + (1 # 2))). split.
    + unfold Math_round.
      destruct (Qle_bool (- (1 # 2)) q' && Qneg q') eqn:B; [|reflexivity]. exfalso.
      apply andb_true_iff in B. destruct B as [B1 B2].
      apply Qle_bool_iff in B1. apply Qneg_spec in B2.
      assert (HA : (1 <= Qabs (q * (100 # 1)))%Q) by (rewrite Ha; lra).
      revert HA. apply Qabs_case; intros; lra.
    + apply Qabs_Qle_condition. lra.
Qed.

Lemma cents_nearest_witness :
  (1 # 100 <= Qabs (5 # 4))%Q /\ (Qabs (5 # 4) <= inject_Z (10 ^ 12))%Q /\
  exists k : Z,
    floatNumberToIntegerWithDecimals (Fin (5 # 4)) = Fin (inject_Z k) /\
    (Qabs (inject_Z k - (5 # 4) * (100 # 1)) <= (1 # 2) + (1 # 128))%Q.
Proof.
  assert (H1 : (1 # 100 <= Qabs (5 # 4))%Q) by (vm_compute; discriminate).
  assert (H2 : (Qabs (5 # 4) <= inject_Z (10 ^ 12))%Q) by (vm_compute; discriminate).
  split; [exact H1|]. split; [exact H2|].
  exact (proj1 (cents_nearest (5 # 4) H1 H2)).
Defined.

(** ** Reading back what the formatter wrote *)

(** X3. Under the default separators the round trip holds for the
    policy [hideIfZero] as it does for [showAlways]: an amount of [n] whole
    cents, [n] of at most [10^14] in absolute value, formatted with
    [hideIfZero] and read back, gives [n]. *)
Theorem roundtrip_hideIfZero (cfg : Config) (big : bool) (n : Z) :
  DefaultSeparators cfg -> Z.abs n <= 10 ^ 14 ->
  amountStringToIntegerWithDecimals cfg
    (integerWithDecimalsToAmountString cfg (cents big n) None None (Some hideIfZero))
    None None
  = Returns (ofZ n).
Proof.
  intros Hs Hn. destruct (default_separators cfg Hs) as (t & Ht & Hd & Hw & _).
  rewrite (format_default cfg big n t hideIfZero Hn Hd Ht Hw). cbn [shownFraction].
  destruct (Z.eqb_spec (Z.abs n mod 100) 0) as [Hz|Hz].
  - rewrite app_nil_r. unfold unitsOf.
    rewrite parse_grouped_default by (first [assumption | apply Z.div_pos; lia]).
    rewrite round_signed_units by (apply units_bound; exact Hn).
    pose proof (Z.div_mod (Z.abs n) 100 ltac:(lia)) as E. rewrite Hz in E.
    f_equal. destruct (Z.ltb_spec n 0) as [Hn0|Hn0]; cbn [andb].
    + destruct (Z.eqb_spec (Z.abs n / 100) 0) as [H0|_]; [lia|].
      replace (-1 * (100 * (Z.abs n / 100))) with n by lia. reflexivity.
    + replace (1 * (100 * (Z.abs n / 100))) with n by lia. reflexivity.
  - exact (parse_default cfg n t Hn Hd Ht Hw).
Qed.

Lemma roundtrip_hideIfZero_witness :
  DefaultSeparators defaults /\ Z.abs (-1234500) <= 10 ^ 14 /\
  amountStringToIntegerWithDecimals defaults
    (integerWithDecimalsToAmountString defaults (cents true (-1234500)) None None
       (Some hideIfZero))
    None None
  = Returns (ofZ (-1234500)).
Proof.
  assert (Hs : DefaultSeparators defaults) by (split; [reflexivity | left; reflexivity]).
  assert (Hn : Z.abs (-1234500) <= 10 ^ 14) by (vm_compute; discriminate).
  split; [exact Hs|]. split; [exact Hn|].
  exact (roundtrip_hideIfZero defaults true (-1234500) Hs Hn).
Defined.

(** X4. Under the default separators, what [hideAlways] wrote reads back
    as the whole units in cents, [100 * (n quot 100)], the cents beyond
    them lost, for [n] of at most [10^14] in absolute value; for an amount
    between -100 and 0 the string is "-0" and the result is the negative
    zero. *)
Theorem readback_hideAlways (cfg : Config) (big : bool) (n : Z) :
  DefaultSeparators cfg -> Z.abs n <= 10 ^ 14 ->
  amountStringToIntegerWithDecimals cfg
    (integerWithDecimalsToAmountString cfg (cents big n) None None (Some hideAlways))
    None None
  = Returns (if (-100 <? n) && (n <? 0) then NegZero else ofZ (100 * Z.quot n 100)).
Proof.
  intros Hs Hb. destruct (default_separators cfg Hs) as (t & Ht & Hd & Hw & _).
  rewrite (format_default cfg big n t hideAlways Hb Hd Ht Hw). cbn [shownFraction].
  rewrite app_nil_r. unfold unitsOf.
  rewrite parse_grouped_default by (first [assumption | apply Z.div_pos; lia]).
  rewrite round_signed_units by (apply units_bound; exact Hb).
  assert (Hq : Z.quot n 100 = Z.sgn n * (Z.abs n / 100)).
  { destruct (Z.abs_spec n) as [[Hn Ha]|[Hn Ha]]; rewrite Ha.
    - rewrite Z.quot_div_nonneg by lia.
      destruct (Z.eq_dec n 0) as [->|Hz]; [reflexivity|]. rewrite Z.sgn_pos by lia. lia.
    - rewrite Z.sgn_neg by lia. rewrite <- (Z.opp_involutive n) at 1.
      rewrite Z.quot_opp_l, Z.quot_div_nonneg by lia. lia. }
  pose proof (Z.div_pos (Z.abs n) 100 ltac:(lia) ltac:(lia)) as Hm.
  f_equal. destruct (Z.ltb_spec n 0) as [Hn|Hn]; cbn [andb].
  - destruct (Z.eqb_spec (Z.abs n / 100) 0) as [H0|H0].
    + destruct (Z.ltb_spec (-100) n) as [_|Hl]; [reflexivity|].
      exfalso. assert (1 <= Z.abs n / 100) by (apply Z.div_le_lower_bound; lia). lia.
    + destruct (Z.ltb_spec (-100) n) as [Hl|_].
      * exfalso. apply H0. apply Z.div_small. lia.
      * replace (100 * Z.quot n 100) with (-1 * (100 * (Z.abs n / 100)))
          by (rewrite Hq, Z.sgn_neg by lia; lia).
        reflexivity.
  - rewrite andb_false_r.
    replace (100 * Z.quot n 100) with (1 * (100 * (Z.abs n / 100))); [reflexivity|].
    rewrite Hq. destruct (Z.eq_dec n 0) as [->|Hz]; [reflexivity|].
    rewrite Z.sgn_pos by lia. lia.
Qed.

Lemma readback_hideAlways_witness :
  DefaultSeparators defaults /\ Z.abs (-1234599) <= 10 ^ 14 /\
  amountStringToIntegerWithDecimals defaults
    (integerWithDecimalsToAmountString defaults (cents false (-1234599)) None None
       (Some hideAlways))
    None None
  = Returns (ofZ (-1234500)).
Proof.
  assert (Hs : DefaultSeparators defaults) by (split; [reflexivity | left; reflexivity]).
  assert (Hn : Z.abs (-1234599) <= 10 ^ 14) by (vm_compute; discriminate).
  split; [exact Hs|]. split; [exact Hn|].
  exact (readback_hideAlways defaults false (-1234599) Hs Hn).
Defined.

Lemma toFloat_of_integer (cfg : Config) (s : jsstring)
    (decimalPoint thousandsSeparator : option jsstring) :
  amountStringToFloatNumber cfg s decimalPoint thousandsSeparator =
  let* x := amountStringToIntegerWithDecimals cfg s decimalPoint thousandsSeparator in
  Returns (over100 x).
Proof. destruct decimalPoint, thousandsSeparator; reflexivity. Qed.

(** X2. Under the default separators the float entry points are inverse
    to each other at whole cents: the float of [n] cents, [n] of at most
    [10^14] in absolute value, written by [floatNumberToAmountString] with
    [showAlways] and read by [amountStringToFloatNumber], is the float of
    [n] cents again. *)
Theorem float_roundtrip (cfg : Config) (big : bool) (n : Z) :
  DefaultSeparators cfg -> Z.abs n <= 10 ^ 14 ->
  amountStringToFloatNumber cfg
    (floatNumberToAmountString cfg (integerWithDecimalsToFloatNumber (cents big n))
       None None (Some showAlways))
    None None
  = Returns (integerWithDecimalsToFloatNumber (cents big n)).
Proof.
  intros Hs Hn. destruct (default_separators cfg Hs) as (t & Ht & Hd & Hw & _).
  unfold floatNumberToAmountString, floatNumberToIntegerWithDecimals.
  rewrite toFloat_cents, scaled_back, format_resolved by (apply small_cents; exact Hn).
  change (Number (ofZ n)) with (cents false n).
  rewrite (format_default cfg false n t showAlways Hn Hd Ht Hw).
  rewrite toFloat_of_integer, (parse_default cfg n t Hn Hd Ht Hw). reflexivity.
Qed.

Lemma float_roundtrip_witness :
  DefaultSeparators defaults /\ Z.abs 1234567 <= 10 ^ 14 /\
  amountStringToFloatNumber defaults
    (floatNumberToAmountString defaults (integerWithDecimalsToFloatNumber (cents false 1234567))
       None None (Some showAlways))
    None None
  = Returns (integerWithDecimalsToFloatNumber (cents false 1234567)).
Proof.
  assert (Hs : DefaultSeparators defaults) by (split; [reflexivity | left; reflexivity]).
  assert (Hn : Z.abs 1234567 <= 10 ^ 14) by (vm_compute; discriminate).
  split; [exact Hs|]. split; [exact Hn|].
  exact (float_roundtrip defaults false 1234567 Hs Hn).
Defined.

(** ** [toMoney] *)

Lemma toMoney_eq (cfg : Config) (args : ToMoneyArgs) :
  toMoney cfg args =
  let '(amount, props) := toMoneyProps args in
  let amountString :=
    integerWithDecimalsToAmountString cfg (centsAmount cfg amount props)
      (Props.decimalPoint props) (Props.thousandsSeparator props)
      (Props.decimalPolicy props) in
  if orDefault (Props.hideSymbol props) false then amountString
  else decorated cfg props amountString.
Proof.
  unfold toMoney, decorated, resolvedSymbol, centsAmount.
  destruct (toMoneyProps args) as [amount props].
  rewrite format_resolved.
  destruct (Props.symbol props), (Props.currency props); reflexivity.
Qed.

(** X8. [toMoney] gives the same string for a BigInt and for the number of
    the same value, with every options record and in a factory of either
    amount type, whether the amount is passed beside the options or inside
    them. *)
Theorem toMoney_bigint_as_number (cfg : Config) (z : Z) (props : Props.t) :
  toMoney cfg (AmountAndRest (BigInt z) props)
    = toMoney cfg (AmountAndRest (Number (ofZ z)) props) /\
  toMoney cfg (OneProps (BigInt z) props)
    = toMoney cfg (OneProps (Number (ofZ z)) props).
Proof.
  assert (E : integerWithDecimalsToAmountString cfg (centsAmount cfg (Some (BigInt z)) props)
                (Props.decimalPoint props) (Props.thousandsSeparator props)
                (Props.decimalPolicy props)
              = integerWithDecimalsToAmountString cfg
                  (centsAmount cfg (Some (Number (ofZ z))) props)
                  (Props.decimalPoint props) (Props.thousandsSeparator props)
                  (Props.decimalPolicy props)).
  { unfold centsAmount.
    destruct (orDefault (Props.amountType props) (defaultAmountType cfg)); [|reflexivity].
    cbn [numberOf]. rewrite Math_round_ofZ.
    exact (format_number_or_bigint cfg true z _ _ _). }
  split; rewrite !toMoney_eq; cbn [toMoneyProps]; rewrite E; reflexivity.
Qed.

(** X9. A BigInt passed to [toMoney] as the only argument is not
    formatted: the call destructures the BigInt, finds no amount in it, and
    writes "NaN" with the default symbol, whatever the BigInt. (Stated for a
    factory whose default policy is not [showAlways]; there the text is
    "NaN" followed by the decimal point and "00".) *)
Theorem toMoney_lone_bigint (cfg : Config) (z : Z) :
  defaultDecimalPolicy cfg <> showAlways ->
  toMoney cfg (OneAmount (BigInt z)) = decorated cfg Props.none (str "NaN").
Proof.
  intros Hp. rewrite toMoney_eq. cbn [toMoneyProps Props.hideSymbol Props.none orDefault].
  f_equal. unfold centsAmount, integerWithDecimalsToAmountString. cbn [Props.amountType
    Props.none Props.decimalPoint Props.thousandsSeparator Props.decimalPolicy orDefault].
  assert (E : integerWithDecimalsToFloatNumber
                (match defaultAmountType cfg with
                 | integerWithDecimals => Number (Math_round (numberOf None))
                 | floatNumber => Number (floatNumberToIntegerWithDecimals (numberOf None))
                 end) = NaN) by (destruct (defaultAmountType cfg); reflexivity).
  rewrite E. cbn [toLocaleString_deDE].
  assert (S : amountNiceSuitableString (defaultDecimalPolicy cfg) (str "NaN") = str "NaN")
    by (destruct (defaultDecimalPolicy cfg); [reflexivity | contradiction | reflexivity]).
  rewrite S, !replaceAllClass_none by (repeat constructor). reflexivity.
Qed.

Lemma toMoney_lone_bigint_witness :
  defaultDecimalPolicy defaults <> showAlways /\
  toMoney defaults (OneAmount (BigInt 1500)) = str "$NaN".
Proof.
  assert (H : defaultDecimalPolicy defaults <> showAlways) by discriminate.
  split; [exact H|]. exact (toMoney_lone_bigint defaults 1500 H).
Defined.

(** X10. With the amount type [floatNumber], [toMoney] at the float of [n]
    whole cents gives the string it gives for [n] with the amount type
    [integerWithDecimals], the other options being the same: for [n] below
    [2^51] in absolute value. *)
Theorem toMoney_float_as_cents (cfg : Config) (n : Z) (props : Props.t) :
  Z.abs n < 2 ^ 51 ->
  toMoney cfg
    (AmountAndRest (Number (integerWithDecimalsToFloatNumber (Number (ofZ n))))
       (withAmountType floatNumber props))
  = toMoney cfg (AmountAndRest (Number (ofZ n)) (withAmountType integerWithDecimals props)).
Proof.
  intros Hn. rewrite !toMoney_eq. cbn [toMoneyProps]. unfold centsAmount.
  cbn [withAmountType Props.amountType orDefault numberOf].
  unfold floatNumberToIntegerWithDecimals. cbn [integerWithDecimalsToFloatNumber].
  rewrite scaled_back, Math_round_ofZ by exact Hn. reflexivity.
Qed.

Lemma toMoney_float_as_cents_witness :
  Z.abs 1550 < 2 ^ 51 /\
  toMoney defaults
    (AmountAndRest (Number (integerWithDecimalsToFloatNumber (Number (ofZ 1550))))
       (withAmountType floatNumber Props.none))
  = toMoney defaults
      (AmountAndRest (Number (ofZ 1550)) (withAmountType integerWithDecimals Props.none)).
Proof.
  assert (Hn : Z.abs 1550 < 2 ^ 51) by (vm_compute; reflexivity).
  split; [exact Hn|]. exact (toMoney_float_as_cents defaults 1550 Props.none Hn).
Defined.

(** X12. When no symbol is given and the currency has none in the symbol
    map (or there is no currency at all: the factory was made with an empty
    list), [toMoney] writes the text "undefined" where the symbol
    belongs. *)
Theorem toMoney_missing_symbol (cfg : Config) (amount : Amount) (props : Props.t) :
  resolvedSymbol cfg props = None ->
  Props.hideSymbol props = None ->
  let amountString :=
    integerWithDecimalsToAmountString cfg (centsAmount cfg (Some amount) props)
      (Props.decimalPoint props) (Props.thousandsSeparator props)
      (Props.decimalPolicy props) in
  let symbolDelimiter := orDefault (Props.symbolDelimiter props) (defaultSymbolDelimiter cfg) in
  toMoney cfg (AmountAndRest amount props) =
  match orDefault (Props.symbolPosition props) (defaultSymbolPosition cfg) with
  | before => str "undefined" ++ symbolDelimiter ++ amountString
  | after => amountString ++ symbolDelimiter ++ str "undefined"
  end.
Proof.
  intros Hs Hh. rewrite toMoney_eq. cbn [toMoneyProps]. rewrite Hh. cbn [orDefault].
  unfold decorated. rewrite Hs. reflexivity.
Qed.

Lemma toMoney_missing_symbol_witness :
  resolvedSymbol (createMoneyThings (onlyCurrencies [])) Props.none = None /\
  Props.hideSymbol Props.none = None /\
  toMoney (createMoneyThings (onlyCurrencies [])) (AmountAndRest (Number (ofZ 1550)) Props.none)
  = str "undefined15,50".
Proof.
  split; [reflexivity|]. split; [reflexivity|].
  exact (toMoney_missing_symbol (createMoneyThings (onlyCurrencies []))
           (Number (ofZ 1550)) Props.none eq_refl eq_refl).
Defined.

(** ** Separators chosen by the caller *)

(** X6. When the thousands separator asked for has no comma in it, and
    neither separator has a dollar sign, the separators are substituted as
    asked: the string of [n] whole cents, [n] of at most [10^14] in
    absolute value, is the sign, the groups of three digits of the units
    joined by the thousands separator and, where the policy shows a
    fraction, the decimal point and the two digits of the cents. *)
Theorem separators_substituted (cfg : Config) (big : bool) (n : Z)
    (decimalPoint thousandsSeparator : jsstring) (policy : DecimalPolicy) :
  Z.abs n <= 10 ^ 14 ->
  plain decimalPoint -> plain thousandsSeparator -> lacks "," thousandsSeparator ->
  integerWithDecimalsToAmountString cfg (cents big n)
    (Some decimalPoint) (Some thousandsSeparator) (Some policy)
  = minus (n <? 0) ++ joined thousandsSeparator (digits (Z.abs n / 100)) ++
    match policy with
    | showAlways => decimalPoint ++ fixedDigits 2 (Z.abs n mod 100)
    | hideAlways => []
    | hideIfZero =>
        if Z.abs n mod 100 =? 0 then [] else decimalPoint ++ fixedDigits 2 (Z.abs n mod 100)
    end.
Proof.
  intros Hn Hd Ht Hc.
  rewrite (format_cents cfg big n decimalPoint thousandsSeparator policy Hn Hd Ht Hc).
  unfold unitsOf, shownFraction. rewrite <- app_assoc. destruct policy; reflexivity.
Qed.

Lemma separators_substituted_witness :
  Z.abs 123456789 <= 10 ^ 14 /\
  plain (str ".") /\ plain (str "'") /\ lacks "," (str "'") /\
  integerWithDecimalsToAmountString defaults (cents false 123456789)
    (Some (str ".")) (Some (str "'")) (Some showAlways)
  = str "1'234'567.89".
Proof.
  assert (Hn : Z.abs 123456789 <= 10 ^ 14) by (vm_compute; discriminate).
  assert (Hd : plain (str ".")) by (repeat constructor).
  assert (Ht : plain (str "'")) by (repeat constructor).
  assert (Hc : lacks "," (str "'")) by (repeat constructor; discriminate).
  split; [exact Hn|]. split; [exact Hd|]. split; [exact Ht|]. split; [exact Hc|].
  exact (separators_substituted defaults false 123456789 (str ".") (str "'") showAlways
           Hn Hd Ht Hc).
Defined.

(** X5. The round trip holds for separators chosen by the caller:
    with a thousands separator and a decimal point of one character each,
    different from each other, neither a digit, the minus sign or the
    dollar sign, the thousands separator neither the comma nor a syntax
    character of regular expressions, an amount of [n] whole cents, [n] of
    at most [10^14] in absolute value, formatted with [showAlways] and
    read back with the same separators gives [n]. *)
Theorem roundtrip_separators (cfg : Config) (big : bool) (n : Z) (d t : char) :
  Z.abs n <= 10 ^ 14 ->
  separatorChar d = true -> separatorChar t = true ->
  isSyntaxCharacter t = false -> t <> ","%char -> t <> d ->
  amountStringToIntegerWithDecimals cfg
    (integerWithDecimalsToAmountString cfg (cents big n) (Some [d]) (Some [t])
       (Some showAlways))
    (Some [d]) (Some [t])
  = Returns (ofZ n).
Proof.
  intros Hn Hd Ht Hsyn Hcomma Htd.
  destruct (separatorChar_spec d Hd) as (_ & _ & Hd').
  destruct (separatorChar_spec t Ht) as (_ & _ & Ht').
  rewrite (format_cents cfg big n _ _ showAlways Hn) by
    (repeat constructor; assumption).
  apply parse_cents; assumption.
Qed.

Lemma roundtrip_separators_witness :
  Z.abs (-123456789) <= 10 ^ 14 /\
  separatorChar "." = true /\ separatorChar "'" = true /\
  isSyntaxCharacter "'" = false /\ "'"%char <> ","%char /\ "'"%char <> "."%char /\
  amountStringToIntegerWithDecimals defaults
    (integerWithDecimalsToAmountString defaults (cents false (-123456789))
       (Some ["."%char]) (Some ["'"%char]) (Some showAlways))
    (Some ["."%char]) (Some ["'"%char])
  = Returns (ofZ (-123456789)).
Proof.
  assert (Hn : Z.abs (-123456789) <= 10 ^ 14) by (vm_compute; discriminate).
  assert (H1 : "'"%char <> ","%char) by discriminate.
  assert (H2 : "'"%char <> "."%char) by discriminate.
  repeat (split; [first [reflexivity | assumption]|]).
  exact (roundtrip_separators defaults false (-123456789) "." "'" Hn eq_refl eq_refl eq_refl
           H1 H2).
Defined.

(** ** The dot as thousands separator *)

Lemma breakOrDot_replaceFirst (pattern b s : jsstring) :
  Forall breakOrDot s -> Forall breakOrDot (replaceFirst pattern (str ".") b s).
Proof.
  intros H. revert b. induction H as [|c r Hc Hr IH]; intros b.
  - cbn [replaceFirst]. destruct (startsWith [] pattern).
    + rewrite GetSubstitution_plain by (repeat constructor).
      destruct pattern; repeat constructor; right; reflexivity.
    + constructor.
  - cbn [replaceFirst]. destruct (startsWith (c :: r) pattern).
    + rewrite GetSubstitution_plain by (repeat constructor).
      constructor; [right; reflexivity|].
      assert (Hcr : Forall breakOrDot (c :: r)) by (constructor; assumption).
      apply Forall_forall. intros x Hx. rewrite Forall_forall in Hcr. apply Hcr.
      rewrite <- (firstn_skipn (List.length pattern) (c :: r)). apply in_or_app. right.
      exact Hx.
    + constructor; [exact Hc | apply IH].
Qed.

Lemma isLineTerminator_other (c : char) :
  isLineTerminator c = true -> isWhiteSpace c = true /\ isDigit c = false.
Proof.
  unfold isLineTerminator, isWhiteSpace, isDigit. intros H. prop_of_bool_in H.
  split; prop_of_bool; lia.
Qed.

Lemma breakOrDot_no_number (s : jsstring) : Forall breakOrDot s -> startsNumber s = false.
Proof.
  unfold startsNumber, trimStart. induction 1 as [|c r Hc Hr IH]; [reflexivity|].
  cbn [span]. destruct Hc as [Hc | ->].
  - destruct (isLineTerminator_other c Hc) as [Hw _].
    rewrite Hw. destruct (span isWhiteSpace r) as [a b]. exact IH.
  - change (isWhiteSpace ".") with false. cbn [snd signOf].
    change (Char.eqb "." "-") with false. change (Char.eqb "." "+") with false.
    cbn [snd]. change (startsWith ("."%char :: r) (str "Infinity")) with false.
    change (isDigit ".") with false. cbn [orb]. rewrite Char_eqb_refl. cbn [andb].
    destruct Hr as [|d r' Hd _]; [reflexivity|].
    destruct Hd as [Hd | ->]; [|reflexivity].
    destruct (isLineTerminator_other d Hd) as [_ Hg]. exact Hg.
Qed.

(** X7. With the dot as thousands separator nothing can be read back:
    the dot, handed to [new RegExp] as it is, matches every character, so
    that [amountStringToIntegerWithDecimals] and
    [amountStringToFloatNumber] give [NaN] for every amount string and
    every decimal point. *)
Theorem dot_separator_reads_NaN (cfg : Config) (amountString : jsstring)
    (decimalPoint : option jsstring) :
  amountStringToIntegerWithDecimals cfg amountString decimalPoint (Some (str "."))
    = Returns NaN /\
  amountStringToFloatNumber cfg amountString decimalPoint (Some (str "."))
    = Returns NaN.
Proof.
  assert (E : amountStringToIntegerWithDecimals cfg amountString decimalPoint (Some (str "."))
              = Returns NaN).
  { unfold amountStringToIntegerWithDecimals. cbn [orDefault].
    change (RegExp_new (str ".")) with (Returns RxAny). cbn [bind replaceAll].
    rewrite replaceAllClass_delete.
    set (text := replaceFirst _ _ _ _).
    assert (Hn : isNaN (parseFloat text) = true).
    { rewrite isNaN_parseFloat. apply negb_true_iff. apply breakOrDot_no_number.
      apply breakOrDot_replaceFirst. apply Forall_forall. intros c Hc.
      apply filter_In in Hc. destruct Hc as [_ Hc]. left.
      apply negb_true_iff, negb_false_iff in Hc. exact Hc. }
    rewrite (isNaN_true _ Hn). reflexivity. }
  split; [exact E|]. rewrite toFloat_of_integer, E. reflexivity.
Qed.

(** ** The earlier revision, read back *)

(** X17. In the earlier revision [hideAlways] rounds where the current one
    cuts: under the default separators, [n] whole cents, [n] of at most
    [10^14] in absolute value, written by the formatter of [part_000] with
    [hideAlways] and read back give [n] rounded to the nearest hundred, a
    half going up; the amounts from -50 to -1 give the negative zero. *)
Theorem earlier_hideAlways_rounds (cfg : Config) (big : bool) (n : Z) :
  DefaultSeparators cfg -> Z.abs n <= 10 ^ 14 ->
  amountStringToIntegerWithDecimals cfg
    (Earlier.integerWithDecimalsToAmountString cfg (cents big n) None None (Some hideAlways))
    None None
  = Returns (if (-50 <=? n) && (n <? 0) then NegZero else ofZ (100 * ((n + 50) / 100))).
Proof.
  intros Hs Hn. destruct (default_separators cfg Hs) as (t & Ht & Hd & Hw & _).
  rewrite (earlier_cents cfg big n t hideAlways Hn Hd Ht Hw). cbv zeta.
  rewrite parse_grouped_default by (first [assumption | apply Z.abs_nonneg]).
  pose proof (Z.div_mod (n + 50) 100 ltac:(lia)) as E.
  pose proof (Z.mod_pos_bound (n + 50) 100 ltac:(lia)) as Hr.
  set (q := (n + 50) / 100) in *.
  assert (B : 100 * 10 ^ 12 = 10 ^ 14) by reflexivity.
  assert (B' : 10 ^ 12 >= 1) by (vm_compute; discriminate).
  rewrite round_signed_units by lia.
  destruct (Z.ltb_spec n 0) as [Hn0|Hn0], (Z.leb_spec (-50) n) as [Hl|Hl]; cbn [andb].
  - replace (Z.abs q =? 0) with true by (symmetry; apply Z.eqb_eq; lia). reflexivity.
  - replace (Z.abs q =? 0) with false by (symmetry; apply Z.eqb_neq; lia).
    replace (-1 * (100 * Z.abs q)) with (100 * q) by lia. reflexivity.
  - replace (1 * (100 * Z.abs q)) with (100 * q) by lia. reflexivity.
  - lia.
Qed.

Lemma earlier_hideAlways_rounds_witness :
  DefaultSeparators defaults /\ Z.abs 123450 <= 10 ^ 14 /\
  amountStringToIntegerWithDecimals defaults
    (Earlier.integerWithDecimalsToAmountString defaults (cents false 123450) None None
       (Some hideAlways))
    None None
  = Returns (ofZ 123500).
Proof.
  assert (Hs : DefaultSeparators defaults) by (split; [reflexivity | left; reflexivity]).
  assert (Hn : Z.abs 123450 <= 10 ^ 14) by (vm_compute; discriminate).
  split; [exact Hs|]. split; [exact Hn|].
  exact (earlier_hideAlways_rounds defaults false 123450 Hs Hn).
Defined.

(** X20. In the earlier revision [showAlways] shows nothing more than
    [hideIfZero]: for every whole number of cents, every decimal point and
    every thousands separator the formatter of [part_000] gives the same
    string under the two policies. *)
Theorem earlier_showAlways_hides (cfg : Config) (big : bool) (n : Z)
    (decimalPoint thousandsSeparator : option jsstring) :
  Earlier.integerWithDecimalsToAmountString cfg (cents big n) decimalPoint thousandsSeparator
    (Some showAlways)
  = Earlier.integerWithDecimalsToAmountString cfg (cents big n) decimalPoint thousandsSeparator
      (Some hideIfZero).
Proof.
  unfold Earlier.integerWithDecimalsToAmountString. cbn [orDefault].
  rewrite toFloat_cents. cbv zeta.
  rewrite (earlier_suitable n). reflexivity.
Qed.

(** ** The value of a validated amount *)

Lemma trimStart_app (ws s : jsstring) :
  Forall (fun c => isWhiteSpace c = true) ws -> trimStart (ws ++ s) = trimStart s.
Proof.
  unfold trimStart. induction 1 as [|c r Hc _ IH]; [reflexivity|].
  cbn [app span]. rewrite Hc. destruct (span isWhiteSpace (r ++ s)). exact IH.
Qed.

Lemma parseFloat_trim (ws s : jsstring) :
  Forall (fun c => isWhiteSpace c = true) ws -> parseFloat (ws ++ s) = parseFloat s.
Proof. intros H. unfold parseFloat. rewrite (trimStart_app ws s H). reflexivity. Qed.

(** Digits cut short by white space. *)
Lemma parseFloat_cut (D : jsstring) (w : char) (r : jsstring) :
  D <> [] ->
  Forall (fun c => isDigit c = true) D ->
  isWhiteSpace w = true ->
  parseFloat (D ++ w :: r) = signedDecimal false (digitsValue D) 0.
Proof.
  intros HD HDd Hw.
  destruct (isWhiteSpace_other w Hw) as (W1 & W2 & _ & W3 & W4 & _).
  change (D ++ w :: r) with (minus false ++ D ++ w :: r).
  rewrite (parseFloat_digits false D (w :: r) HD HDd W1), W2.
  cbn [exponentPart]. rewrite W3, W4. cbn [orb List.length]. rewrite app_nil_r. reflexivity.
Qed.

Lemma strip_sepOrDigit (t : char) (s : jsstring) :
  isDigit t = false ->
  Forall (sepOrDigit t) s -> filter (fun c => negb (Char.eqb t c)) s = filter isDigit s.
Proof.
  intros Ht. induction 1 as [|c r Hc _ IH]; [reflexivity|]. cbn [filter]. rewrite IH.
  destruct Hc as [-> | Hc].
  - rewrite Char_eqb_refl, Ht. reflexivity.
  - rewrite Hc, (proj2 (isDigit_neq c t Hc Ht)). reflexivity.
Qed.

Lemma strip_whiteSpace (t : char) (s : jsstring) :
  Forall (fun c => isWhiteSpace c = true) s ->
  Forall (fun c => isWhiteSpace c = true) (filter (fun c => negb (Char.eqb t c)) s).
Proof.
  intros H. apply Forall_forall. intros c Hc. apply filter_In in Hc.
  rewrite Forall_forall in H. apply H, Hc.
Qed.

(** The text of a well-formed amount after the separators are removed. *)
Lemma strip_amount (t : char) (leading : jsstring) (first : char) (rest tail : jsstring) :
  isDigit t = false ->
  isDigit first = true ->
  Forall (sepOrDigit t) rest ->
  filter (fun c => negb (Char.eqb t c)) (leading ++ first :: rest ++ tail) =
  filter (fun c => negb (Char.eqb t c)) leading ++
  (first :: filter isDigit rest) ++ filter (fun c => negb (Char.eqb t c)) tail.
Proof.
  intros Ht Hf Hr. rewrite filter_app. cbn [filter].
  rewrite (proj2 (isDigit_neq first t Hf Ht)). cbn [negb].
  rewrite filter_app, (strip_sepOrDigit t rest) by assumption. reflexivity.
Qed.

(** Reading an amount without a fraction, or one cut short by white space
    that is not the thousands separator. *)
Lemma read_units (cfg : Config) (t : char) (leading : jsstring) (first : char)
    (rest tail : jsstring) :
  defaultDecimalPoint cfg = [","%char] ->
  defaultThousandsSeparator cfg = [t] -> isWhiteSpace t = true ->
  Forall (fun c => isWhiteSpace c = true) leading ->
  isDigit first = true ->
  Forall (sepOrDigit t) rest ->
  tail = [] \/ (exists w r, tail = w :: r /\ isWhiteSpace w = true /\ w <> t) ->
  digitsValue (first :: filter isDigit rest) <= 10 ^ 12 ->
  amountStringToIntegerWithDecimals cfg (leading ++ first :: rest ++ tail) None None =
  Returns (ofZ (100 * digitsValue (first :: filter isDigit rest))).
Proof.
  intros Hd Ht Hw Hl Hf Hr Htail Hb.
  destruct (whiteSpace_separator t Hw) as (_ & _ & Htd & _ & _ & _ & Hsyn).
  unfold amountStringToIntegerWithDecimals. cbn [orDefault].
  rewrite Hd, Ht, (RegExp_new_char t Hsyn).
  cbn [bind replaceAll]. rewrite replaceAllWord_char, strip_amount by assumption.
  set (L := filter _ leading). set (D := first :: filter isDigit rest) in *.
  assert (HL : Forall (fun c => isWhiteSpace c = true) L) by (apply strip_whiteSpace, Hl).
  assert (HD : Forall (fun c => isDigit c = true) D)
    by (constructor; [exact Hf | apply filter_isDigit]).
  assert (HLD : lacks "," (L ++ D)).
  { apply Forall_app. split; [apply lacks_whiteSpace; [reflexivity | exact HL]|].
    apply lacks_digits; [reflexivity | exact HD]. }
  assert (Hv : 0 <= digitsValue D) by (apply digitsValue_nonneg, HD).
  destruct Htail as [-> | (w & r & -> & Hww & Hwt)].
  - cbn [filter]. rewrite app_nil_r, (replaceFirst_absent _ _ _ _ HLD), parseFloat_trim by exact HL.
    pose proof (parseFloat_units false D ltac:(discriminate) HD) as E.
    change (minus false ++ D) with D in E. rewrite E.
    rewrite round_signed_units by lia. cbn [andb].
    replace (1 * (100 * digitsValue D)) with (100 * digitsValue D) by lia. reflexivity.
  - cbn [filter]. destruct (Char_eqb_spec t w) as [E|_]; [congruence|]. cbn [negb].
    rewrite app_assoc, replaceFirst_prefix by exact HLD.
    destruct (isWhiteSpace_other w Hww) as (_ & _ & Wc & _).
    cbn [replaceFirst startsWith]. rewrite Char_eqb_sym, Wc. cbn [andb].
    rewrite <- app_assoc, parseFloat_trim by exact HL.
    rewrite parseFloat_cut by (first [discriminate | assumption]).
    rewrite round_signed_units by lia. cbn [andb].
    replace (1 * (100 * digitsValue D)) with (100 * digitsValue D) by lia. reflexivity.
Qed.

Lemma fractionCents_bound (ds : jsstring) :
  Forall (fun c => isDigit c = true) ds ->
  (List.length ds <= 2)%nat ->
  0 <= fractionCents ds <= 99.
Proof.
  intros H Hlen. unfold fractionCents, digitsValue.
  destruct ds as [|a [|b [|c ds']]]; cbn [List.length fold_left] in *; [| | |lia].
  - change (10 ^ (2 - Z.of_nat 0)) with 100. lia.
  - destruct (isDigit_other a (Forall_inv H)) as (_ & Ha).
    change (10 ^ (2 - Z.of_nat 1)) with 10. lia.
  - destruct (isDigit_other a (Forall_inv H)) as (_ & Ha).
    destruct (isDigit_other b (Forall_inv (Forall_inv_tail H))) as (_ & Hb).
    change (10 ^ (2 - Z.of_nat 2)) with 1. lia.
Qed.

(** The decimal of the units [u] and a fraction of up to two digits is
    the number of its hundredths. *)
Lemma decimal_hundredths (u : Z) (ds : jsstring) :
  (List.length ds <= 2)%nat ->
  (inject_Z (u * 10 ^ Z.of_nat (List.length ds) + digitsValue ds)
     * Qpower (10 # 1) (0 - Z.of_nat (List.length ds))
   == inject_Z (100 * u + fractionCents ds) * (1 # 100))%Q.
Proof.
  intros Hlen. unfold fractionCents.
  destruct ds as [|a [|b [|c ds']]]; cbn [List.length] in *; [| | |lia].
  - change (Qpower (10 # 1) (0 - Z.of_nat 0)) with 1%Q.
    change (10 ^ Z.of_nat 0) with 1. change (10 ^ (2 - Z.of_nat 0)) with 100.
    change (digitsValue []) with 0.
    rewrite !inject_Z_plus, !inject_Z_mult. change (inject_Z 0) with 0%Q.
    change (inject_Z 100) with (100 # 1)%Q. change (inject_Z 1) with 1%Q. ring.
  - change (Qpower (10 # 1) (0 - Z.of_nat 1)) with (1 # 10)%Q.
    change (10 ^ Z.of_nat 1) with 10. change (10 ^ (2 - Z.of_nat 1)) with 10.
    rewrite !inject_Z_plus, !inject_Z_mult.
    change (inject_Z 100) with (100 # 1)%Q. change (inject_Z 10) with (10 # 1)%Q. ring.
  - change (Qpower (10 # 1) (0 - Z.of_nat 2)) with (1 # 100)%Q.
    change (10 ^ Z.of_nat 2) with 100. change (10 ^ (2 - Z.of_nat 2)) with 1.
    rewrite !inject_Z_plus, !inject_Z_mult.
    change (inject_Z 100) with (100 # 1)%Q. change (inject_Z 1) with 1%Q. ring.
Qed.

Lemma round_fraction (u : Z) (ds : jsstring) :
  0 <= u <= 10 ^ 12 ->
  Forall (fun c => isDigit c = true) ds ->
  (List.length ds <= 2)%nat ->
  Math_round
    (times100 (signedDecimal false (u * 10 ^ Z.of_nat (List.length ds) + digitsValue ds)
                 (0 - Z.of_nat (List.length ds))))
  = ofZ (100 * u + fractionCents ds).
Proof.
  intros Hu Hds Hlen. unfold signedDecimal. cbv zeta.
  rewrite (r64_comp _ _ (decimal_hundredths u ds Hlen)).
  pose proof (fractionCents_bound ds Hds Hlen) as Hf.
  assert (B : 100 * 10 ^ 12 = 10 ^ 14) by reflexivity.
  assert (Hk : Z.abs (100 * u + fractionCents ds) <= 10 ^ 14 + 99) by lia.
  destruct (r64_hundredths _ Hk) as (q & -> & Hq).
  apply cents_of_hundredths; [lia | assumption].
Qed.

(** Reading an amount with a fraction of up to two digits, whatever
    character the decimal point is. *)
Lemma read_fraction_at (cfg : Config) (d t : char) (leading : jsstring) (first : char)
    (rest ds : jsstring) :
  defaultDecimalPoint cfg = [d] ->
  defaultThousandsSeparator cfg = [t] -> isWhiteSpace t = true ->
  isDigit d = false ->
  isWhiteSpace d = false ->
  Forall (fun c => isWhiteSpace c = true) leading ->
  isDigit first = true ->
  Forall (sepOrDigit t) rest ->
  Forall (fun c => isDigit c = true) ds ->
  (List.length ds <= 2)%nat ->
  digitsValue (first :: filter isDigit rest) <= 10 ^ 12 ->
  amountStringToIntegerWithDecimals cfg (leading ++ first :: rest ++ d :: ds) None None =
  Returns (ofZ (100 * digitsValue (first :: filter isDigit rest) + fractionCents ds)).
Proof.
  intros Hd Ht Hw Hdd Hdw Hl Hf Hr Hds Hlen Hb.
  destruct (whiteSpace_separator t Hw) as (_ & _ & Htd & _ & _ & _ & Hsyn).
  unfold amountStringToIntegerWithDecimals. cbn [orDefault].
  rewrite Hd, Ht, (RegExp_new_char t Hsyn).
  cbn [bind replaceAll]. rewrite replaceAllWord_char, strip_amount by assumption.
  set (L := filter _ leading). set (D := first :: filter isDigit rest) in *.
  assert (HL : Forall (fun c => isWhiteSpace c = true) L) by (apply strip_whiteSpace, Hl).
  assert (HD : Forall (fun c => isDigit c = true) D)
    by (constructor; [exact Hf | apply filter_isDigit]).
  assert (HLD : lacks d (L ++ D)).
  { apply Forall_app. split.
    - apply lacks_whiteSpace; assumption.
    - apply lacks_digits; assumption. }
  assert (Hv : 0 <= digitsValue D) by (apply digitsValue_nonneg, HD).
  cbn [filter]. destruct (Char_eqb_spec t d) as [E|_]; [congruence|]. cbn [negb].
  rewrite (strip_lacks t ds) by (apply lacks_digits; assumption).
  change (str ".") with ["."%char].
  rewrite app_assoc, replaceFirst_char; [|exact HLD | reflexivity].
  rewrite <- app_assoc, parseFloat_trim by exact HL.
  pose proof (parseFloat_decimal false D ds ltac:(discriminate) HD Hds) as E.
  replace (parseFloat _)
    with (signedDecimal false (digitsValue (D ++ ds)) (0 - Z.of_nat (List.length ds)))
    by (symmetry; exact E).
  rewrite digitsValue_append, round_fraction by (first [assumption | lia]). reflexivity.
Qed.

Lemma read_fraction (cfg : Config) (t : char) (leading : jsstring) (first : char)
    (rest ds : jsstring) :
  defaultDecimalPoint cfg = [","%char] ->
  defaultThousandsSeparator cfg = [t] -> isWhiteSpace t = true ->
  Forall (fun c => isWhiteSpace c = true) leading ->
  isDigit first = true ->
  Forall (sepOrDigit t) rest ->
  Forall (fun c => isDigit c = true) ds ->
  (List.length ds <= 2)%nat ->
  digitsValue (first :: filter isDigit rest) <= 10 ^ 12 ->
  amountStringToIntegerWithDecimals cfg (leading ++ first :: rest ++ ","%char :: ds) None None =
  Returns (ofZ (100 * digitsValue (first :: filter isDigit rest) + fractionCents ds)).
Proof.
  intros Hd Ht Hw. apply (read_fraction_at cfg "," t leading first rest ds Hd Ht Hw);
    reflexivity.
Qed.

Lemma zAmountRaw_shape (cfg : Config) (t : char) (s : jsstring) :
  defaultDecimalPoint cfg = [","%char] ->
  defaultThousandsSeparator cfg = [t] -> isWhiteSpace t = true ->
  zAmountRaw cfg s = Returns (Success s) <-> AmountShape "," s.
Proof.
  intros Hd Ht Hw. rewrite (zAmountRaw_default cfg t s Hd Ht Hw).
  destruct (test (amountPattern ",") s) eqn:T.
  - apply test_Matches, Matches_amountPattern in T.
    split; [intros _; exact T | reflexivity].
  - split; [discriminate|].
    intros H. apply Matches_amountPattern, test_Matches in H. congruence.
Qed.

Lemma sepOrDigit_shape (t : char) (rest : jsstring) :
  isWhiteSpace t = true ->
  Forall (sepOrDigit t) rest ->
  Forall (fun c => isWhiteSpace c = true \/ isDigit c = true) rest.
Proof.
  intros Hw H. eapply Forall_impl; [|exact H].
  intros c [-> | Hc]; [left; exact Hw | right; exact Hc].
Qed.

(** X13. What the validators that transform give for a well-formed
    amount whose digits are grouped by the thousands separator of the
    factory only, the separator being white space (as the no-break space
    of the default is): leading white space, a digit, then digits and
    separators, then possibly the comma and up to two digits, the units
    at most [10^12]. [zAmountIntegerWithDecimals] gives 100 times the number
    the digits before the comma make, plus the cents of the fraction, one
    fraction digit counting as tenths; [zAmountFloatNumber] gives that
    number of cents divided by 100. *)
Theorem validated_value (cfg : Config) (t : char) (leading : jsstring) (first : char)
    (rest ds : jsstring) :
  defaultDecimalPoint cfg = str "," ->
  defaultThousandsSeparator cfg = [t] -> isWhiteSpace t = true ->
  Forall (fun c => isWhiteSpace c = true) leading ->
  isDigit first = true ->
  Forall (sepOrDigit t) rest ->
  Forall (fun c => isDigit c = true) ds ->
  (List.length ds <= 2)%nat ->
  let units := digitsValue (first :: filter isDigit rest) in
  units <= 10 ^ 12 ->
  zAmountIntegerWithDecimals cfg (leading ++ first :: rest)
    = Returns (Success (ofZ (100 * units))) /\
  zAmountFloatNumber cfg (leading ++ first :: rest)
    = Returns (Success (over100 (ofZ (100 * units)))) /\
  zAmountIntegerWithDecimals cfg (leading ++ first :: rest ++ ","%char :: ds)
    = Returns (Success (ofZ (100 * units + fractionCents ds))) /\
  zAmountFloatNumber cfg (leading ++ first :: rest ++ ","%char :: ds)
    = Returns (Success (over100 (ofZ (100 * units + fractionCents ds)))).
Proof.
  intros Hd Ht Hw Hl Hf Hr Hds Hlen units Hb.
  assert (A1 : zAmountRaw cfg (leading ++ first :: rest)
               = Returns (Success (leading ++ first :: rest))).
  { apply (zAmountRaw_shape cfg t _ Hd Ht Hw). exists leading, first, rest, [].
    rewrite app_nil_r. repeat split; [exact Hl | exact Hf | | left; reflexivity].
    apply (sepOrDigit_shape t); assumption. }
  assert (A2 : zAmountRaw cfg (leading ++ first :: rest ++ ","%char :: ds)
               = Returns (Success (leading ++ first :: rest ++ ","%char :: ds))).
  { apply (zAmountRaw_shape cfg t _ Hd Ht Hw). exists leading, first, rest, (","%char :: ds).
    repeat split; [exact Hl | exact Hf | apply (sepOrDigit_shape t); assumption |].
    right. exists ds. repeat split; assumption. }
  pose proof (read_units cfg t leading first rest [] Hd Ht Hw Hl Hf Hr (or_introl eq_refl)
                Hb) as R1.
  rewrite app_nil_r in R1.
  pose proof (read_fraction cfg t leading first rest ds Hd Ht Hw Hl Hf Hr Hds Hlen Hb) as R2.
  unfold zAmountIntegerWithDecimals, zAmountFloatNumber, transform.
  rewrite A1, A2. cbn [bind]. rewrite !toFloat_of_integer, R1, R2.
  repeat split.
Qed.

Lemma validated_value_witness :
  defaultDecimalPoint defaults = str "," /\
  defaultThousandsSeparator defaults = [NBSP] /\ isWhiteSpace NBSP = true /\
  zAmountIntegerWithDecimals defaults
    (str " 1" ++ NBSP :: str "234" ++ NBSP :: str "567,5")
  = Returns (Success (ofZ 123456750)).
Proof.
  split; [reflexivity|]. split; [reflexivity|]. split; [reflexivity|].
  assert (Hl : Forall (fun c => isWhiteSpace c = true) (str " "))
    by (repeat constructor).
  assert (Hr : Forall (sepOrDigit NBSP) (NBSP :: str "234" ++ NBSP :: str "567")).
  { repeat first [apply Forall_nil | apply Forall_cons];
      first [left; reflexivity | right; reflexivity]. }
  assert (Hds : Forall (fun c => isDigit c = true) (str "5")) by (repeat constructor).
  assert (Hlen : (List.length (str "5") <= 2)%nat) by (cbn; lia).
  assert (Hb : digitsValue ("1"%char :: filter isDigit (NBSP :: str "234" ++ NBSP :: str "567"))
               <= 10 ^ 12) by (vm_compute; discriminate).
  exact (proj1 (proj2 (proj2
           (validated_value defaults NBSP (str " ") "1" (NBSP :: str "234" ++ NBSP :: str "567")
              (str "5") eq_refl eq_refl eq_refl Hl eq_refl Hr Hds Hlen Hb)))).
Defined.

(** X14. White space other than the thousands separator cuts a validated
    amount short: the pattern of [zAmountRaw] lets any white space stand
    between the digits, the transformation removes the thousands separator
    only, and [parseFloat] stops at what is left. A string that
    [zAmountRaw] accepts, with white space that is not the separator after
    some digits and separators, is transformed into 100 times the number
    these first digits make (at most [10^12]); the digits after it and the
    fraction are lost. In the factory created with the defaults the
    separator is the no-break space, and the blank cuts: "1 234,50" gives
    100. *)
Theorem validated_cut (cfg : Config) (t : char) (leading : jsstring) (first : char)
    (rest : jsstring) (w : char) (r : jsstring) :
  defaultDecimalPoint cfg = str "," ->
  defaultThousandsSeparator cfg = [t] -> isWhiteSpace t = true ->
  Forall (fun c => isWhiteSpace c = true) leading ->
  isDigit first = true ->
  Forall (sepOrDigit t) rest ->
  isWhiteSpace w = true ->
  w <> t ->
  AmountShape "," (leading ++ first :: rest ++ w :: r) ->
  digitsValue (first :: filter isDigit rest) <= 10 ^ 12 ->
  zAmountIntegerWithDecimals cfg (leading ++ first :: rest ++ w :: r)
    = Returns (Success (ofZ (100 * digitsValue (first :: filter isDigit rest)))).
Proof.
  intros Hd Ht Hw Hl Hf Hr Hww Hwt Hs Hb.
  apply (zAmountRaw_shape cfg t _ Hd Ht Hw) in Hs.
  unfold zAmountIntegerWithDecimals, transform. rewrite Hs. cbn [bind].
  rewrite (read_units cfg t leading first rest (w :: r) Hd Ht Hw Hl Hf Hr).
  - reflexivity.
  - right. exists w, r. repeat split; assumption.
  - exact Hb.
Qed.

Lemma validated_cut_witness :
  defaultDecimalPoint defaults = str "," /\
  defaultThousandsSeparator defaults = [NBSP] /\ isWhiteSpace NBSP = true /\
  AmountShape "," (str "1 234,50") /\
  zAmountIntegerWithDecimals defaults (str "1 234,50") = Returns (Success (ofZ 100)).
Proof.
  assert (Hs : AmountShape "," (str "1 234,50")).
  { apply Matches_amountPattern, test_Matches. vm_compute. reflexivity. }
  assert (Hwt : " "%char <> NBSP) by discriminate.
  assert (Hb : digitsValue ("1"%char :: filter isDigit []) <= 10 ^ 12)
    by (vm_compute; discriminate).
  split; [reflexivity|]. split; [reflexivity|]. split; [reflexivity|]. split; [exact Hs|].
  exact (validated_cut defaults NBSP [] "1" [] " " (str "234,50")
           eq_refl eq_refl eq_refl (Forall_nil _) eq_refl (Forall_nil _) eq_refl Hwt Hs Hb).
Defined.

Lemma span_spec (p : char -> bool) (s : jsstring) :
  s = fst (span p s) ++ snd (span p s) /\
  Forall (fun c => p c = true) (fst (span p s)) /\
  match snd (span p s) with
  | [] => True
  | c :: _ => p c = false
  end.
Proof.
  induction s as [|c r IH]; [repeat split; constructor|].
  cbn [span]. destruct (p c) eqn:E.
  - destruct (span p r) as [a b]. cbn [fst snd] in *. destruct IH as (E1 & E2 & E3).
    repeat split; [rewrite E1 at 1; reflexivity | constructor; assumption | exact E3].
  - cbn [fst snd]. repeat split; [constructor | exact E].
Qed.

(** A text that begins with a digit is read as a decimal that is not
    negative. *)
Lemma parseFloat_leading_digit (d : char) (r : jsstring) :
  isDigit d = true ->
  exists m e, 0 <= m /\ parseFloat (d :: r) = signedDecimal false m e.
Proof.
  intros Hd. destruct (span_spec isDigit (d :: r)) as (E & HD & Hr).
  set (D := fst (span isDigit (d :: r))) in *. set (r' := snd (span isDigit (d :: r))) in *.
  assert (HDn : D <> []).
  { unfold D. cbn [span]. rewrite Hd. destruct (span isDigit r). discriminate. }
  rewrite E. change (D ++ r') with (minus false ++ D ++ r').
  rewrite (parseFloat_digits false D r' HDn HD Hr).
  destruct (span_spec isDigit (tl r')) as (_ & HF & _).
  assert (HP : Forall (fun c => isDigit c = true)
                 (fst (match r' with
                       | [] => ([], r')
                       | c :: r0 => if Char.eqb c "." then span isDigit r0 else ([], r')
                       end))).
  { destruct r' as [|c r0]; [constructor|]. destruct (Char.eqb c "."); [exact HF | constructor]. }
  destruct (match r' with
            | [] => ([], r')
            | c :: r0 => if Char.eqb c "." then span isDigit r0 else ([], r')
            end) as [fp r2].
  cbn [fst] in HP. eexists _, _. split; [|reflexivity].
  apply digitsValue_nonneg. apply Forall_app. split; assumption.
Qed.

(** A decimal that is not negative, scaled and rounded, is a whole number
    that is not negative, or the infinity. *)
Lemma round_nonneg (m e : Z) :
  0 <= m ->
  Math_round (times100 (signedDecimal false m e)) = Infinity false \/
  exists k, 0 <= k /\ Math_round (times100 (signedDecimal false m e)) = Fin (inject_Z k).
Proof.
  intros Hm. unfold signedDecimal. cbv zeta.
  assert (H0 : (0 <= inject_Z m * Qpower (10 # 1) e)%Q).
  { apply Qmult_le_0_compat.
    - change 0%Q with (inject_Z 0). rewrite <- Zle_Qle. exact Hm.
    - apply Qlt_le_weak, Qpower_0_lt. reflexivity. }
  destruct (r64_nonneg _ H0) as [->|(q & -> & Hq)]; [left; reflexivity|].
  cbn [times100].
  assert (H1 : (0 <= q * (100 # 1))%Q) by lra.
  destruct (r64_nonneg _ H1) as [->|(q' & -> & Hq')]; [left; reflexivity|].
  right. exists (Qfloor (q' + (1 # 2))). split.
  - change 0 with (Qfloor 0). apply Qfloor_resp_le. lra.
  - unfold Math_round. rewrite (Qneg_false q' Hq'), andb_false_r. reflexivity.
Qed.

(** What the transformation reads from a well-formed amount. *)
Lemma read_accepted (cfg : Config) (t : char) (s : jsstring) :
  defaultDecimalPoint cfg = [","%char] ->
  defaultThousandsSeparator cfg = [t] -> isWhiteSpace t = true ->
  AmountShape "," s ->
  exists m e,
    0 <= m /\
    amountStringToIntegerWithDecimals cfg s None None =
    Returns (Math_round (times100 (signedDecimal false m e))).
Proof.
  intros Hd Ht Hw (l & f & rest & fr & -> & Hl & Hf & _).
  destruct (whiteSpace_separator t Hw) as (_ & _ & Htd & _ & _ & _ & Hsyn).
  unfold amountStringToIntegerWithDecimals. cbn [orDefault].
  rewrite Hd, Ht, (RegExp_new_char t Hsyn).
  cbn [bind replaceAll]. rewrite replaceAllWord_char, filter_app. cbn [filter].
  rewrite (proj2 (isDigit_neq f t Hf Htd)). cbn [negb].
  set (L := filter _ l). set (R := filter _ (rest ++ fr)).
  assert (HL : Forall (fun c => isWhiteSpace c = true) L) by (apply strip_whiteSpace, Hl).
  assert (HA : lacks "," (L ++ [f])).
  { apply Forall_app. split; [apply lacks_whiteSpace; [reflexivity | exact HL]|].
    apply lacks_digits; [reflexivity | repeat constructor; exact Hf]. }
  change (L ++ f :: R) with (L ++ [f] ++ R).
  rewrite app_assoc, replaceFirst_prefix, <- app_assoc by exact HA.
  rewrite parseFloat_trim by exact HL. cbn [app].
  destruct (parseFloat_leading_digit f (replaceFirst [","%char] (str ".") ([] ++ L ++ [f]) R) Hf)
    as (m & e & Hm & E).
  exists m, e. split; [exact Hm|].
  replace (parseFloat _) with (signedDecimal false m e) by (symmetry; exact E).
  reflexivity.
Qed.

(** X18. Under the default separators, whatever [zAmountRaw] accepts is
    transformed into a whole number of cents that is not negative, or into
    the infinity: by [zAmountIntegerWithDecimals] into that number, by
    [zAmountFloatNumber] into its hundredth; never into [NaN], a negative
    number or a fraction of a cent, and never with an exception. The
    infinity is what a 1 followed by 309 zeros gives. *)
Theorem validated_whole_cents :
  (forall (cfg : Config) (s : jsstring),
     DefaultSeparators cfg ->
     zAmountRaw cfg s = Returns (Success s) ->
     exists x,
       zAmountIntegerWithDecimals cfg s = Returns (Success x) /\
       zAmountFloatNumber cfg s = Returns (Success (over100 x)) /\
       (x = Infinity false \/ exists k, 0 <= k /\ x = Fin (inject_Z k))) /\
  zAmountIntegerWithDecimals defaults ("1"%char :: repeat "0"%char 309)
    = Returns (Success (Infinity false)).
Proof.
  split.
  2:{ assert (Hs : AmountShape "," ("1"%char :: repeat "0"%char 309)).
      { exists [], "1"%char, (repeat "0"%char 309), [].
        rewrite app_nil_r. repeat split; [constructor | | left; reflexivity].
        apply Forall_forall. intros c Hc. apply repeat_spec in Hc. right. rewrite Hc.
        reflexivity. }
      apply (zAmountRaw_shape defaults NBSP _ eq_refl eq_refl eq_refl) in Hs.
      unfold zAmountIntegerWithDecimals, transform. rewrite Hs. cbn [bind].
      vm_compute. reflexivity. }
  intros cfg s Hsep Hs. destruct (default_separators cfg Hsep) as (t & Ht & Hd & Hw & _).
  destruct (read_accepted cfg t s Hd Ht Hw (proj1 (zAmountRaw_shape cfg t s Hd Ht Hw) Hs))
    as (m & e & Hm & E).
  exists (Math_round (times100 (signedDecimal false m e))).
  unfold zAmountIntegerWithDecimals, zAmountFloatNumber, transform.
  rewrite Hs. cbn [bind]. rewrite toFloat_of_integer, E.
  split; [reflexivity|]. split; [reflexivity|]. apply round_nonneg. exact Hm.
Qed.

Lemma validated_whole_cents_witness :
  DefaultSeparators defaults /\
  zAmountRaw defaults (str "12 345,6") = Returns (Success (str "12 345,6")) /\
  exists x,
    zAmountIntegerWithDecimals defaults (str "12 345,6") = Returns (Success x) /\
    zAmountFloatNumber defaults (str "12 345,6") = Returns (Success (over100 x)) /\
    (x = Infinity false \/ exists k, 0 <= k /\ x = Fin (inject_Z k)).
Proof.
  assert (Hs : DefaultSeparators defaults) by (split; [reflexivity | left; reflexivity]).
  split; [exact Hs|]. split; [reflexivity|].
  exact (proj1 validated_whole_cents defaults (str "12 345,6") Hs eq_refl).
Defined.

(** ** The range check of the limited validators *)

(** A number from 1 on keeps at least half of itself in binary64. *)
Lemma r64_large (q : Q) :
  (1 <= q)%Q ->
  r64 q = Infinity false \/ exists q', r64 q = Fin q' /\ (q * (1 # 2) <= q')%Q.
Proof.
  intros H1.
  assert (Hq : ~ q == 0) by (intros E; lra).
  rewrite (r64_unfold q Hq). cbv zeta.
  destruct (exponent_spec q Hq) as [EL EU]. rewrite (Qabs_pos q) in EL, EU by lra.
  assert (He : 0 <= exponent q).
  { assert (-1 < exponent q); [|lia].
    replace (-1) with (0 - 1) by lia.
    assert (0 < exponent q + 1); [|lia]. apply pow2_lt_inv. change (pow2 0) with 1%Q. lra. }
  rewrite Z.max_l by lia.
  set (e := exponent q) in *. set (u := pow2 (e - 52)).
  assert (Pu : (0 < u)%Q) by apply pow2_pos.
  assert (Eu : (pow2 e == pow2 52 * u)%Q).
  { unfold u. rewrite <- pow2_add. replace (52 + (e - 52)) with e by lia. reflexivity. }
  assert (Big : (2 <= pow2 52)%Q).
  { rewrite pow2_Z by lia. change 2%Q with (inject_Z 2). rewrite <- Zle_Qle. lia. }
  set (m := nearestEven (q / u)).
  pose proof (nearestEven_spec (q / u)) as S. fold m in S.
  assert (Sv : (Qabs (inject_Z m * u - q) <= u * (1 # 2))%Q).
  { setoid_replace (inject_Z m * u - q)%Q with ((inject_Z m - q / u) * u)%Q
      by (field; lra).
    rewrite Qabs_Qmult, (Qabs_pos u) by lra.
    rewrite (Qmult_comm u). apply Qmult_le_compat_r; [exact S | lra]. }
  apply Qabs_Qle_condition in Sv.
  assert (Uq : (u * (2 # 1) <= q)%Q) by nra.
  assert (Hv : (q * (1 # 2) <= inject_Z m * u)%Q) by lra.
  rewrite (Qeq_bool_false (inject_Z m * u) 0) by lra.
  rewrite (Qneg_false q) by lra.
  destruct (Qle_bool _ _); [left; reflexivity|].
  right. eexists. split; [reflexivity|]. rewrite Qred_correct. exact Hv.
Qed.

(** The number of [n] cents: exact at the whole and half units. *)
Lemma float_cents_exact (n : Z) :
  Z.abs n <= 10 ^ 14 ->
  exists q, over100 (ofZ n) = Fin q /\ hundredths n q /\
            (n mod 50 = 0 -> (q == inject_Z n * (1 # 100))%Q).
Proof.
  intros Hn. destruct (float_cents n Hn) as (q & Eq & Hq). exists q.
  split; [exact Eq|]. split; [exact Hq|]. intros M.
  destruct (over100_half n Hn M) as (q' & Eq' & Hq').
  rewrite Eq in Eq'. apply (f_equal finite) in Eq'. cbn [finite] in Eq'.
  rewrite Eq'. exact Hq'.
Qed.

(** The number of [n] cents against a whole number of units. *)
Lemma compare_units (n : Z) (q : Q) (u : Z) :
  hundredths n q -> (n mod 50 = 0 -> (q == inject_Z n * (1 # 100))%Q) ->
  Qle_bool q (inject_Z u) = (n <=? 100 * u) /\
  Qle_bool (inject_Z u) q = (100 * u <=? n).
Proof.
  intros [H _] Hx. apply Qabs_Qle_condition in H.
  assert (Eu : inject_Z (100 * u) = ((100 # 1) * inject_Z u)%Q) by apply inject_Z_mult.
  assert (Cmp : forall a b : Z, a <= b - 1 -> (inject_Z a <= inject_Z b - 1)%Q).
  { intros a b L. apply (inject_Z_le a (b - 1)) in L. unfold Zminus in L.
    rewrite inject_Z_plus in L. change (inject_Z (- (1))) with (-1 # 1)%Q in L. lra. }
  destruct (Z.eq_dec n (100 * u)) as [E|E].
  - assert (M : n mod 50 = 0).
    { rewrite E. replace (100 * u) with (2 * u * 50) by lia. apply Z.mod_mul. lia. }
    specialize (Hx M). rewrite E, Eu in Hx.
    rewrite E, !Z.leb_refl. split; apply Qle_bool_iff; lra.
  - split.
    + destruct (Z.leb_spec n (100 * u)) as [L|L].
      * apply Qle_bool_iff. pose proof (Cmp n (100 * u) ltac:(lia)) as C.
        rewrite Eu in C. lra.
      * apply Qle_bool_false. pose proof (Cmp (100 * u) n ltac:(lia)) as C.
        rewrite Eu in C. lra.
    + destruct (Z.leb_spec (100 * u) n) as [L|L].
      * apply Qle_bool_iff. pose proof (Cmp (100 * u) n ltac:(lia)) as C.
        rewrite Eu in C. lra.
      * apply Qle_bool_false. pose proof (Cmp n (100 * u) ltac:(lia)) as C.
        rewrite Eu in C. lra.
Qed.

Lemma hundredths_bound (n : Z) (q : Q) :
  Z.abs n <= 10 ^ 14 -> hundredths n q -> (Qabs q <= inject_Z (10 ^ 12) + 1)%Q.
Proof.
  intros Hn [H _]. apply Qabs_Qle_condition in H.
  pose proof (inject_Z_le n (10 ^ 14) ltac:(lia)) as U.
  pose proof (inject_Z_le (- 10 ^ 14) n ltac:(lia)) as L.
  change (inject_Z (10 ^ 14)) with ((100 # 1) * inject_Z (10 ^ 12))%Q in U.
  change (inject_Z (- 10 ^ 14)) with ((-100 # 1) * inject_Z (10 ^ 12))%Q in L.
  apply Qabs_Qle_condition. lra.
Qed.

Lemma range_check (u lo hi : Z) :
  0 <= u -> Z.abs lo <= 10 ^ 14 -> Z.abs hi <= 10 ^ 14 ->
  greaterEq (signedDecimal false u 0) (over100 (ofZ lo))
  && lessEq (signedDecimal false u 0) (over100 (ofZ hi))
  = (lo <=? 100 * u) && (100 * u <=? hi).
Proof.
  intros Hu Hlo Hhi. unfold signedDecimal. cbv zeta.
  rewrite (r64_comp _ (inject_Z u))
    by (change (Qpower (10 # 1) 0) with 1%Q; apply Qmult_1_r).
  destruct (float_cents_exact lo Hlo) as (ql & -> & Hl & Xl).
  destruct (float_cents_exact hi Hhi) as (qh & -> & Hh & Xh).
  destruct (Z_le_gt_dec u (2 ^ 53)) as [S|S].
  - rewrite r64_Z by lia. unfold greaterEq, lessEq. cbn [finite].
    rewrite (proj1 (compare_units lo ql u Hl Xl)), (proj2 (compare_units hi qh u Hh Xh)).
    reflexivity.
  - pose proof (hundredths_bound lo ql Hlo Hl) as Bl.
    pose proof (hundredths_bound hi qh Hhi Hh) as Bh.
    apply Qabs_Qle_condition in Bl. apply Qabs_Qle_condition in Bh.
    assert (B1 : 10 ^ 14 < 100 * 2 ^ 53) by reflexivity.
    replace (lo <=? 100 * u) with true by (symmetry; apply Z.leb_le; lia).
    replace (100 * u <=? hi) with false by (symmetry; apply Z.leb_gt; lia).
    pose proof (inject_Z_le (2 ^ 53) u ltac:(lia)) as U.
    assert (B2 : ((inject_Z (10 ^ 12) + 1) * (2 # 1) < inject_Z (2 ^ 53))%Q)
      by (vm_compute; reflexivity).
    destruct (r64_large (inject_Z u)) as [->|(q' & -> & Hq')].
    + apply Qle_trans with (inject_Z (2 ^ 53)); [vm_compute; discriminate | exact U].
    + reflexivity.
    + unfold greaterEq, lessEq. cbn [finite].
      rewrite (proj2 (Qle_bool_iff ql q')) by lra.
      rewrite (Qle_bool_false q' qh) by lra. reflexivity.
Qed.

(** The number the refinements hand to their comparisons. *)
Lemma strippedNumber_units (cfg : Config) (t : char) (s : jsstring) :
  defaultThousandsSeparator cfg = [t] -> isWhiteSpace t = true ->
  AmountShape "," s ->
  strippedNumber cfg s = signedDecimal false (wholeUnits s) 0 /\ 0 <= wholeUnits s.
Proof.
  intros Ht Hw Hs. rewrite (strippedNumber_whiteSpace cfg t s Ht Hw). unfold wholeUnits.
  destruct (stripped_shape t s Hw Hs) as (D & rest & E & HD & HDd & Hrest & _).
  rewrite E, (parseFloat_integer D rest HD HDd Hrest).
  rewrite (span_stop isDigit D rest HDd)
    by (destruct Hrest as [->|(r & ->)]; [exact I | reflexivity]).
  split; [reflexivity | apply digitsValue_nonneg; exact HDd].
Qed.

(** Under the separators of the factory, [zAmountRawLimited] with bounds
    that are whole numbers of cents, at a well-formed string. *)
Lemma zAmountRawLimited_default (cfg : Config) (t : char) (lo hi : Z) (s : jsstring) :
  defaultDecimalPoint cfg = [","%char] ->
  defaultThousandsSeparator cfg = [t] -> isWhiteSpace t = true ->
  Z.abs lo <= 10 ^ 14 -> Z.abs hi <= 10 ^ 14 ->
  AmountShape "," s ->
  zAmountRawLimited cfg (ofZ lo) (ofZ hi) s =
  Returns
    (if (lo <=? 100 * wholeUnits s) && (100 * wholeUnits s <=? hi) then Success s
     else
       Failure
         [str "Should be a positive number with with optional two decimal places not more than "
            ++ (unitsOf [t] hi ++ shownFraction (str ",") showAlways (Z.abs hi mod 100))
            ++ str " and not less than "
            ++ (unitsOf [t] lo ++ shownFraction (str ",") showAlways (Z.abs lo mod 100))]).
Proof.
  intros Hd Ht Hw Hlo Hhi Hs. unfold zAmountRawLimited, refine. cbv zeta.
  change (integerWithDecimalsToAmountString cfg (Number (ofZ hi))
            (Some (defaultDecimalPoint cfg)) (Some (defaultThousandsSeparator cfg))
            (Some showAlways))
    with (integerWithDecimalsToAmountString cfg (cents false hi) None None (Some showAlways)).
  change (integerWithDecimalsToAmountString cfg (Number (ofZ lo))
            (Some (defaultDecimalPoint cfg)) (Some (defaultThousandsSeparator cfg))
            (Some showAlways))
    with (integerWithDecimalsToAmountString cfg (cents false lo) None None (Some showAlways)).
  rewrite !(format_default cfg false _ t showAlways) by assumption.
  rewrite (proj2 (zAmountRaw_shape cfg t s Hd Ht Hw) Hs). cbn [bind].
  destruct (strippedNumber_units cfg t s Ht Hw Hs) as [-> Hu].
  rewrite isNaN_signedDecimal. cbn [negb andb].
  rewrite range_check by assumption. reflexivity.
Qed.

(** X15. Under the default separators, [zAmountRawLimited] with the bounds
    [lo] and [hi], whole numbers of cents of at most [10^14] in absolute
    value, accepts a string exactly when it is well formed and 100 times
    its whole units lie between [lo] and [hi]: the fraction takes no part
    in the comparison. A well-formed string outside the bounds is rejected
    with the message that names the two bounds as [showAlways] writes
    them. *)
Theorem limited_accepts (cfg : Config) (lo hi : Z) (s : jsstring) :
  DefaultSeparators cfg -> Z.abs lo <= 10 ^ 14 -> Z.abs hi <= 10 ^ 14 ->
  (zAmountRawLimited cfg (ofZ lo) (ofZ hi) s = Returns (Success s) <->
   AmountShape "," s /\ lo <= 100 * wholeUnits s <= hi) /\
  (AmountShape "," s ->
   ~ lo <= 100 * wholeUnits s <= hi ->
   zAmountRawLimited cfg (ofZ lo) (ofZ hi) s =
   Returns
     (Failure
        [str "Should be a positive number with with optional two decimal places not more than "
           ++ (unitsOf (defaultThousandsSeparator cfg) hi
                 ++ shownFraction (str ",") showAlways (Z.abs hi mod 100))
           ++ str " and not less than "
           ++ (unitsOf (defaultThousandsSeparator cfg) lo
                 ++ shownFraction (str ",") showAlways (Z.abs lo mod 100))])).
Proof.
  intros Hsep Hlo Hhi. destruct (default_separators cfg Hsep) as (t & Ht & Hd & Hw & _).
  pose proof (zAmountRawLimited_default cfg t lo hi s Hd Ht Hw Hlo Hhi) as E.
  rewrite Ht.
  assert (Shape : zAmountRawLimited cfg (ofZ lo) (ofZ hi) s = Returns (Success s) ->
                  AmountShape "," s).
  { intros A. apply (zAmountRaw_shape cfg t s Hd Ht Hw).
    unfold zAmountRawLimited in A. cbv zeta in A. apply refine_success in A. apply A. }
  split.
  - split.
    + intros A. pose proof (Shape A) as T. split; [exact T|]. rewrite (E T) in A.
      destruct (Z.leb_spec lo (100 * wholeUnits s)), (Z.leb_spec (100 * wholeUnits s) hi);
        cbn [andb] in A; first [discriminate A | lia].
    + intros [T R]. rewrite (E T).
      replace (lo <=? 100 * wholeUnits s) with true by (symmetry; apply Z.leb_le; lia).
      replace (100 * wholeUnits s <=? hi) with true by (symmetry; apply Z.leb_le; lia).
      reflexivity.
  - intros T R. rewrite (E T).
    destruct (Z.leb_spec lo (100 * wholeUnits s)), (Z.leb_spec (100 * wholeUnits s) hi);
      cbn [andb]; first [reflexivity | lia].
Qed.

Lemma limited_accepts_witness :
  DefaultSeparators defaults /\ Z.abs 0 <= 10 ^ 14 /\ Z.abs 1000 <= 10 ^ 14 /\
  AmountShape "," (str "10,99") /\
  0 <= 100 * wholeUnits (str "10,99") <= 1000 /\
  zAmountRawLimited defaults (ofZ 0) (ofZ 1000) (str "10,99") = Returns (Success (str "10,99")).
Proof.
  assert (Hsep : DefaultSeparators defaults) by (split; [reflexivity | left; reflexivity]).
  assert (H0 : Z.abs 0 <= 10 ^ 14) by (vm_compute; discriminate).
  assert (H1 : Z.abs 1000 <= 10 ^ 14) by (vm_compute; discriminate).
  assert (Hs : AmountShape "," (str "10,99")).
  { apply Matches_amountPattern, test_Matches. vm_compute. reflexivity. }
  assert (Hr : 0 <= 100 * wholeUnits (str "10,99") <= 1000) by (vm_compute; split; discriminate).
  split; [exact Hsep|]. split; [exact H0|]. split; [exact H1|].
  split; [exact Hs|]. split; [exact Hr|].
  exact (proj2 (proj1 (limited_accepts defaults 0 1000 (str "10,99") Hsep H0 H1))
           (conj Hs Hr)).
Defined.

Lemma strip_spaceOrDigit (s : jsstring) :
  Forall (fun c => isWhiteSpace c = true \/ isDigit c = true) s ->
  filter (fun c => negb (isWhiteSpace c)) s = filter isDigit s.
Proof.
  induction 1 as [|c r Hc _ IH]; [reflexivity|]. cbn [filter]. rewrite IH.
  destruct Hc as [Hc|Hc].
  - destruct (isWhiteSpace_other c Hc) as (Hd & _). rewrite Hc, Hd. reflexivity.
  - destruct (isDigit_other c Hc) as (Hw & _). rewrite Hc, Hw. reflexivity.
Qed.

(** The whole units of a well-formed amount are the number its digits
    before the fraction make. *)
Lemma wholeUnits_shape (d : char) (leading : jsstring) (first : char)
    (rest fraction : jsstring) :
  isDigit d = false -> isWhiteSpace d = false ->
  Forall (fun c => isWhiteSpace c = true) leading ->
  isDigit first = true ->
  Forall (fun c => isWhiteSpace c = true \/ isDigit c = true) rest ->
  fraction = [] \/ (exists ds, fraction = d :: ds) ->
  wholeUnits (leading ++ first :: rest ++ fraction) = digitsValue (first :: filter isDigit rest).
Proof.
  intros Hdd Hdw Hl Hf Hr Hfr. unfold wholeUnits.
  destruct (isDigit_other first Hf) as (Hfw & _).
  rewrite filter_app, filter_drops
    by (eapply Forall_impl; [|exact Hl]; intros c Hc; cbv beta; rewrite Hc; reflexivity).
  cbn [app filter]. rewrite Hfw. cbn [negb].
  rewrite filter_app, strip_spaceOrDigit by exact Hr.
  change (first :: filter isDigit rest ++ ?Y) with ((first :: filter isDigit rest) ++ Y).
  rewrite span_stop; [reflexivity | constructor; [exact Hf | apply filter_isDigit] |].
  destruct Hfr as [-> | (ds & ->)]; [exact I|].
  cbn [filter]. rewrite Hdw. exact Hdd.
Qed.

Lemma digitsValue_prefix (A B : jsstring) :
  Forall (fun c => isDigit c = true) A ->
  Forall (fun c => isDigit c = true) B ->
  0 <= digitsValue A <= digitsValue (A ++ B).
Proof.
  intros HA HB. rewrite digitsValue_append.
  pose proof (digitsValue_nonneg A HA). pose proof (digitsValue_nonneg B HB).
  assert (1 <= 10 ^ Z.of_nat (List.length B)) by (apply Z.pow_le_mono_r with (b := 0); lia).
  nia.
Qed.

(** White space that is not the thousands separator, if there is any, and
    what stands before the first of it. *)
Lemma first_break (t : char) (rest : jsstring) :
  Forall (fun c => isWhiteSpace c = true \/ isDigit c = true) rest ->
  Forall (sepOrDigit t) rest \/
  exists r1 w r2,
    rest = r1 ++ w :: r2 /\ Forall (sepOrDigit t) r1 /\
    isWhiteSpace w = true /\ w <> t.
Proof.
  induction 1 as [|c r Hc _ IH]; [left; constructor|].
  destruct (Char_eqb_spec c t) as [->|Hb].
  - destruct IH as [IH | (r1 & w & r2 & -> & H1 & Hw & Hwb)].
    + left. constructor; [left; reflexivity | exact IH].
    + right. exists (t :: r1), w, r2.
      repeat split; [constructor; [left; reflexivity | exact H1] | exact Hw | exact Hwb].
  - destruct Hc as [Hc|Hc].
    + right. exists [], c, r. repeat split; [constructor | exact Hc | exact Hb].
    + destruct IH as [IH | (r1 & w & r2 & -> & H1 & Hw & Hwb)].
      * left. constructor; [right; exact Hc | exact IH].
      * right. exists (c :: r1), w, r2.
        repeat split; [constructor; [right; exact Hc | exact H1] | exact Hw | exact Hwb].
Qed.

(** What the transformation reads from a well-formed amount whose whole
    units are at most [10^12]: a whole number of cents, at most the whole
    units and 99 cents, and not less than the whole units when all the
    white space of the string is the thousands separator. *)
Lemma read_value (cfg : Config) (t : char) (s : jsstring) :
  defaultDecimalPoint cfg = [","%char] ->
  defaultThousandsSeparator cfg = [t] -> isWhiteSpace t = true ->
  AmountShape "," s -> wholeUnits s <= 10 ^ 12 ->
  exists k,
    amountStringToIntegerWithDecimals cfg s None None = Returns (ofZ k) /\
    0 <= k <= 100 * wholeUnits s + 99 /\
    (Forall (fun c => isWhiteSpace c = true -> c = t) s -> 100 * wholeUnits s <= k).
Proof.
  intros Hd Ht Hw (l & f & rest & fr & -> & Hl & Hf & Hr & Hfr).
  assert (Hfr' : fr = [] \/ (exists ds, fr = ","%char :: ds)).
  { destruct Hfr as [-> | (ds & -> & _)]; [left; reflexivity | right; eauto]. }
  rewrite (wholeUnits_shape "," l f rest fr eq_refl eq_refl Hl Hf Hr Hfr'). intros Hb.
  destruct (isWhiteSpace_other t Hw) as (Htd & _).
  destruct (first_break t rest Hr) as [Hs | (r1 & w & r2 & -> & H1 & Hww & Hwt)].
  - assert (Hu : 0 <= digitsValue (f :: filter isDigit rest)).
    { apply digitsValue_nonneg. constructor; [exact Hf | apply filter_isDigit]. }
    destruct Hfr as [-> | (ds & -> & Hds & Hlen)].
    + eexists. split; [apply (read_units cfg t); try assumption; left; reflexivity|].
      split; [lia | intros _; lia].
    + pose proof (fractionCents_bound ds Hds Hlen).
      eexists. split; [apply (read_fraction cfg t); assumption|].
      split; [lia | intros _; lia].
  - assert (Hu : 0 <= digitsValue (f :: filter isDigit r1)
                 <= digitsValue (f :: filter isDigit (r1 ++ w :: r2))).
    { destruct (isWhiteSpace_other w Hww) as (Hwd & _).
      rewrite filter_app. cbn [filter]. rewrite Hwd.
      change (f :: filter isDigit r1 ++ filter isDigit r2)
        with ((f :: filter isDigit r1) ++ filter isDigit r2).
      apply digitsValue_prefix; [|apply filter_isDigit].
      constructor; [exact Hf | apply filter_isDigit]. }
    rewrite <- app_assoc. cbn [app].
    eexists. split.
    + apply (read_units cfg t); try assumption; [|lia].
      right. exists w, (r2 ++ fr). repeat split; assumption.
    + split; [lia|]. intros Hall. exfalso. apply Hwt.
      rewrite Forall_forall in Hall. apply Hall; [|exact Hww].
      apply in_or_app. right. right. apply in_or_app. right. left. reflexivity.
Qed.

Lemma transform_success {A B} (schema : Schema A) (f : A -> outcome B) (value : jsstring)
    (b : B) :
  transform schema f value = Returns (Success b) ->
  exists a, schema value = Returns (Success a) /\ f a = Returns b.
Proof.
  unfold transform. destruct (schema value) as [[a|m]| |]; cbn [bind]; try discriminate.
  intros E. exists a. split; [reflexivity|].
  destruct (f a) as [b'| |]; cbn [bind] in E; try discriminate E.
  injection E as <-. reflexivity.
Qed.

(** X23. What the limited validators never give: under the default
    separators, with bounds [lo] and [hi] that are whole numbers of cents
    of at most [10^14] in absolute value, a string that
    [zAmountIntegerWithDecimalsLimited] accepts is transformed into a whole
    number of cents from 0 to [hi + 99]: the upper bound can be passed by
    the cents of the fraction and by no more. When all the white space of
    the string is the thousands separator of the factory the result is not
    below [lo] either; other white space cuts the amount, and in the
    factory created with the defaults, whose separator is the no-break
    space, the bounds 50000 and 200000 let "1 000", written with a blank,
    through as 100. *)
Theorem limited_bound :
  (forall (cfg : Config) (lo hi : Z) (s : jsstring) (x : number),
     DefaultSeparators cfg -> Z.abs lo <= 10 ^ 14 -> Z.abs hi <= 10 ^ 14 ->
     zAmountIntegerWithDecimalsLimited cfg (ofZ lo) (ofZ hi) s = Returns (Success x) ->
     exists k,
       x = ofZ k /\ 0 <= k <= hi + 99 /\
       (Forall (fun c => isWhiteSpace c = true -> [c] = defaultThousandsSeparator cfg) s ->
        lo <= k)) /\
  zAmountIntegerWithDecimalsLimited defaults (ofZ 50000) (ofZ 200000) (str "1 000")
    = Returns (Success (ofZ 100)).
Proof.
  split; [|vm_compute; reflexivity].
  intros cfg lo hi s x Hsep Hlo Hhi H.
  destruct (default_separators cfg Hsep) as (t & Ht & Hd & Hw & _).
  unfold zAmountIntegerWithDecimalsLimited in H.
  apply transform_success in H. destruct H as (a & A & E).
  assert (Ea : a = s).
  { unfold zAmountRawLimited in A. cbv zeta in A. apply refine_success in A.
    destruct A as [A _]. unfold zAmountRaw in A. apply refine_success in A.
    destruct A as [A _]. unfold string_regex in A.
    destruct (amountStringRegex cfg) as [p| |]; cbn [bind] in A; try discriminate A.
    destruct (test p s); [|discriminate A]. injection A as <-. reflexivity. }
  subst a.
  assert (T : AmountShape "," s).
  { apply (zAmountRaw_shape cfg t s Hd Ht Hw).
    unfold zAmountRawLimited in A. cbv zeta in A. apply refine_success in A. apply A. }
  rewrite (zAmountRawLimited_default cfg t lo hi s Hd Ht Hw Hlo Hhi T) in A.
  destruct (Z.leb_spec lo (100 * wholeUnits s)) as [H1|H1]; [|discriminate A].
  destruct (Z.leb_spec (100 * wholeUnits s) hi) as [H2|H2]; [|discriminate A].
  assert (B : 100 * 10 ^ 12 = 10 ^ 14) by reflexivity.
  destruct (read_value cfg t s Hd Ht Hw T ltac:(lia)) as (k & Ek & Hk & Hb).
  rewrite Ek in E. injection E as <-.
  exists k. split; [reflexivity|]. split; [lia|]. intros Hall.
  assert (Hall' : Forall (fun c => isWhiteSpace c = true -> c = t) s).
  { eapply Forall_impl; [|exact Hall]. intros c Hc Hcw. specialize (Hc Hcw).
    rewrite Ht in Hc. injection Hc as ->. reflexivity. }
  specialize (Hb Hall'). lia.
Qed.

Lemma limited_bound_witness :
  DefaultSeparators defaults /\ Z.abs 0 <= 10 ^ 14 /\ Z.abs 1000 <= 10 ^ 14 /\
  zAmountIntegerWithDecimalsLimited defaults (ofZ 0) (ofZ 1000) (str "10,99")
    = Returns (Success (ofZ 1099)) /\
  exists k,
    ofZ 1099 = ofZ k /\ 0 <= k <= 1000 + 99 /\
    (Forall (fun c => isWhiteSpace c = true -> [c] = defaultThousandsSeparator defaults)
       (str "10,99") -> 0 <= k).
Proof.
  assert (Hsep : DefaultSeparators defaults) by (split; [reflexivity | left; reflexivity]).
  assert (H0 : Z.abs 0 <= 10 ^ 14) by (vm_compute; discriminate).
  assert (H1 : Z.abs 1000 <= 10 ^ 14) by (vm_compute; discriminate).
  assert (E : zAmountIntegerWithDecimalsLimited defaults (ofZ 0) (ofZ 1000) (str "10,99")
              = Returns (Success (ofZ 1099))) by (vm_compute; reflexivity).
  split; [exact Hsep|]. split; [exact H0|]. split; [exact H1|]. split; [exact E|].
  exact (proj1 limited_bound defaults 0 1000 (str "10,99") (ofZ 1099) Hsep H0 H1 E).
Defined.

(** The numbers of two amounts of hundredths compare as the amounts. *)
Lemma compare_hundredths (a b : Z) :
  Z.abs a <= 10 ^ 14 + 99 -> Z.abs b <= 10 ^ 14 + 99 ->
  lessEq (r64 (inject_Z a * (1 # 100))) (r64 (inject_Z b * (1 # 100))) = (a <=? b).
Proof.
  intros Ha Hb.
  destruct (r64_hundredths a Ha) as (qa & Ea & [Ha' _]).
  destruct (r64_hundredths b Hb) as (qb & Eb & [Hb' _]).
  destruct (Z.eq_dec a b) as [E|E].
  - subst b. rewrite Ea, Z.leb_refl. unfold lessEq. cbn [finite]. apply Qle_bool_iff, Qle_refl.
  - rewrite Ea, Eb. unfold lessEq. cbn [finite].
    apply Qabs_Qle_condition in Ha'. apply Qabs_Qle_condition in Hb'.
    destruct (Z.leb_spec a b) as [L|L].
    + apply Qle_bool_iff. pose proof (inject_Z_le (a + 1) b ltac:(lia)) as C.
      rewrite inject_Z_plus in C. change (inject_Z 1) with 1%Q in C. lra.
    + apply Qle_bool_false. pose proof (inject_Z_le (b + 1) a ltac:(lia)) as C.
      rewrite inject_Z_plus in C. change (inject_Z 1) with 1%Q in C. lra.
Qed.

Lemma range_check_decimal (u : Z) (ds : jsstring) (lo hi : Z) :
  (List.length ds <= 2)%nat -> Forall (fun c => isDigit c = true) ds ->
  0 <= u <= 10 ^ 12 -> Z.abs lo <= 10 ^ 14 -> Z.abs hi <= 10 ^ 14 ->
  let x := signedDecimal false (u * 10 ^ Z.of_nat (List.length ds) + digitsValue ds)
             (0 - Z.of_nat (List.length ds)) in
  greaterEq x (over100 (ofZ lo)) && lessEq x (over100 (ofZ hi))
  = (lo <=? 100 * u + fractionCents ds) && (100 * u + fractionCents ds <=? hi).
Proof.
  intros Hlen Hds Hu Hlo Hhi. cbv zeta. unfold signedDecimal. cbv zeta.
  rewrite (r64_comp _ _ (decimal_hundredths u ds Hlen)).
  pose proof (fractionCents_bound ds Hds Hlen) as Hf.
  assert (B : 100 * 10 ^ 12 = 10 ^ 14) by reflexivity.
  rewrite !ofZ_small by lia. cbn [over100].
  change (inject_Z lo / (100 # 1))%Q with (inject_Z lo * (1 # 100))%Q.
  change (inject_Z hi / (100 # 1))%Q with (inject_Z hi * (1 # 100))%Q.
  unfold greaterEq. rewrite !compare_hundredths by lia. reflexivity.
Qed.

(** The number the refinements compare when the decimal point is the dot:
    [parseFloat] reads the fraction too. *)
Lemma strippedNumber_dot (cfg : Config) (t : char) (leading : jsstring) (first : char)
    (rest ds : jsstring) :
  defaultThousandsSeparator cfg = [t] -> isWhiteSpace t = true ->
  Forall (fun c => isWhiteSpace c = true) leading ->
  isDigit first = true ->
  Forall (sepOrDigit t) rest ->
  Forall (fun c => isDigit c = true) ds ->
  strippedNumber cfg (leading ++ first :: rest ++ "."%char :: ds) =
  signedDecimal false
    (digitsValue (first :: filter isDigit rest) * 10 ^ Z.of_nat (List.length ds)
     + digitsValue ds)
    (0 - Z.of_nat (List.length ds)).
Proof.
  intros Ht Hw Hl Hf Hr Hds. rewrite (strippedNumber_whiteSpace cfg t _ Ht Hw).
  destruct (isDigit_other first Hf) as (Hfw & _).
  rewrite filter_app, filter_drops
    by (eapply Forall_impl; [|exact Hl]; intros c Hc; cbv beta; rewrite Hc; reflexivity).
  cbn [app filter]. rewrite Hfw. cbn [negb].
  rewrite filter_app, strip_spaceOrDigit by (apply (sepOrDigit_shape t); assumption).
  cbn [filter]. change (negb (isWhiteSpace ".")) with true. cbn iota.
  rewrite (filter_keeps _ ds)
    by (eapply Forall_impl; [|exact Hds]; intros c Hc; cbv beta;
        destruct (isDigit_other c Hc) as (-> & _); reflexivity).
  set (D := first :: filter isDigit rest).
  assert (HD : Forall (fun c => isDigit c = true) D)
    by (constructor; [exact Hf | apply filter_isDigit]).
  pose proof (parseFloat_decimal false D ds ltac:(discriminate) HD Hds) as E.
  replace (parseFloat _)
    with (signedDecimal false (digitsValue (D ++ ds)) (0 - Z.of_nat (List.length ds)))
    by (symmetry; exact E).
  rewrite digitsValue_append. reflexivity.
Qed.

(** X11. With the dot as decimal point the bounds are exact: in a factory
    whose decimal point is the dot and whose thousands separator is white
    space (the no-break space of the default, or the blank), [parseFloat]
    reads the fraction in the range check too, so that for a well-formed
    amount with a fraction, its digits grouped by the separator only and
    its units at most [10^12], [zAmountIntegerWithDecimalsLimited] with
    bounds of at most [10^14] in absolute value gives the cents [k] of the
    amount when [lo <= k <= hi] and rejects the string otherwise. *)
Theorem limited_exact_with_dot (cfg : Config) (t : char) (lo hi : Z) (leading : jsstring)
    (first : char) (rest ds : jsstring) :
  defaultDecimalPoint cfg = str "." ->
  defaultThousandsSeparator cfg = [t] -> isWhiteSpace t = true ->
  Z.abs lo <= 10 ^ 14 -> Z.abs hi <= 10 ^ 14 ->
  Forall (fun c => isWhiteSpace c = true) leading ->
  isDigit first = true ->
  Forall (sepOrDigit t) rest ->
  Forall (fun c => isDigit c = true) ds ->
  (List.length ds <= 2)%nat ->
  digitsValue (first :: filter isDigit rest) <= 10 ^ 12 ->
  let s := leading ++ first :: rest ++ "."%char :: ds in
  let k := 100 * digitsValue (first :: filter isDigit rest) + fractionCents ds in
  (lo <= k <= hi ->
   zAmountIntegerWithDecimalsLimited cfg (ofZ lo) (ofZ hi) s = Returns (Success (ofZ k))) /\
  (~ lo <= k <= hi ->
   exists messages,
     zAmountIntegerWithDecimalsLimited cfg (ofZ lo) (ofZ hi) s = Returns (Failure messages)).
Proof.
  intros Hd Ht Hw Hlo Hhi Hl Hf Hr Hds Hlen Hb s k.
  assert (Hu : 0 <= digitsValue (first :: filter isDigit rest)).
  { apply digitsValue_nonneg. constructor; [exact Hf | apply filter_isDigit]. }
  pose proof (fractionCents_bound ds Hds Hlen) as Hfc.
  assert (Hre : amountStringRegex cfg = Returns (amountPattern ".")).
  { unfold amountStringRegex, escapedDefaultDecimalPoint, safeDefaultDecimalPoint.
    rewrite Hd. reflexivity. }
  assert (Hs : test (amountPattern ".") s = true).
  { apply test_Matches, Matches_amountPattern.
    exists leading, first, rest, ("."%char :: ds).
    repeat split; [exact Hl | exact Hf | apply (sepOrDigit_shape t); assumption |].
    right. exists ds. repeat split; assumption. }
  pose proof (strippedNumber_dot cfg t leading first rest ds Ht Hw Hl Hf Hr Hds) as Hn.
  change (leading ++ first :: rest ++ "."%char :: ds) with s in Hn.
  pose proof (range_check_decimal (digitsValue (first :: filter isDigit rest)) ds lo hi Hlen
                Hds ltac:(lia) Hlo Hhi) as Hrange.
  cbv zeta in Hrange. fold k in Hrange.
  assert (Hpos : NonNegative
                   (signedDecimal false
                      (digitsValue (first :: filter isDigit rest)
                       * 10 ^ Z.of_nat (List.length ds) + digitsValue ds)
                      (0 - Z.of_nat (List.length ds)))).
  { unfold signedDecimal. apply NonNegative_r64. apply Qmult_le_0_compat.
    - change 0%Q with (inject_Z 0). rewrite <- Zle_Qle.
      pose proof (digitsValue_nonneg ds Hds).
      assert (0 <= 10 ^ Z.of_nat (List.length ds)) by (apply Z.pow_nonneg; lia). nia.
    - apply Qlt_le_weak, Qpower_0_lt. reflexivity. }
  destruct Hpos as [HN Hpos].
  pose proof (read_fraction_at cfg "." t leading first rest ds Hd Ht Hw eq_refl eq_refl
                Hl Hf Hr Hds Hlen Hb) as Hread.
  change (amountStringToIntegerWithDecimals cfg s None None = Returns (ofZ k)) in Hread.
  unfold zAmountIntegerWithDecimalsLimited, transform, zAmountRawLimited, refine, zAmountRaw,
    refine, string_regex.
  cbv zeta. rewrite Hre. cbn [bind]. rewrite Hs, Hn.
  rewrite HN, Hpos. cbn [negb andb]. rewrite Hn, HN. cbn [negb andb]. rewrite Hrange.
  split.
  - intros Hk.
    replace ((lo <=? k) && (k <=? hi)) with true
      by (symmetry; apply andb_true_iff; split; apply Z.leb_le; lia).
    cbn [bind]. rewrite Hread. reflexivity.
  - intros Hk.
    replace ((lo <=? k) && (k <=? hi)) with false.
    + eexists. reflexivity.
    + symmetry. apply andb_false_iff.
      destruct (Z.leb_spec lo k); [|left; reflexivity].
      destruct (Z.leb_spec k hi); [lia | right; reflexivity].
Qed.

Lemma limited_exact_with_dot_witness :
  zAmountIntegerWithDecimalsLimited
    (createMoneyThings
       (Options.Build_t [usd] None None (Some (str ".")) None None None None None))
    (ofZ 0) (ofZ 1050) ("1"%char :: NBSP :: str "0.5")
  = Returns (Success (ofZ 1050)).
Proof.
  assert (Hr : Forall (sepOrDigit NBSP) (NBSP :: str "0")).
  { constructor; [left; reflexivity|]. constructor; [right; reflexivity | constructor]. }
  assert (Hds : Forall (fun c => isDigit c = true) (str "5")) by (repeat constructor).
  assert (Hlen : (List.length (str "5") <= 2)%nat) by (cbn; lia).
  assert (H0 : Z.abs 0 <= 10 ^ 14) by (vm_compute; discriminate).
  assert (H1 : Z.abs 1050 <= 10 ^ 14) by (vm_compute; discriminate).
  assert (Hb : digitsValue ("1"%char :: filter isDigit (NBSP :: str "0")) <= 10 ^ 12)
    by (vm_compute; discriminate).
  assert (Hk : 0 <= 100 * digitsValue ("1"%char :: filter isDigit (NBSP :: str "0"))
                    + fractionCents (str "5") <= 1050) by (vm_compute; split; discriminate).
  exact (proj1 (limited_exact_with_dot
                  (createMoneyThings
                     (Options.Build_t [usd] None None (Some (str ".")) None None None None None))
                  NBSP 0 1050 [] "1" (NBSP :: str "0") (str "5")
                  eq_refl eq_refl eq_refl H0 H1 (Forall_nil _) eq_refl Hr Hds Hlen Hb) Hk).
Defined.

(** ** The validators on what the formatter wrote *)

Lemma joined_sepOrDigit (t : char) (ds : jsstring) :
  Forall (fun c => isDigit c = true) ds -> Forall (sepOrDigit t) (joined [t] ds).
Proof.
  unfold joined. induction 1 as [|c r Hc _ IH]; [constructor|].
  cbn [group3 flat_map]. digit_neq Hc. cbn [app]. constructor; [right; exact Hc|].
  destruct (_ && _); [|exact IH].
  cbn [flat_map]. change (Char.eqb "." ".") with true. cbn iota. cbn [app].
  constructor; [left; reflexivity | exact IH].
Qed.

(** The grouped units begin with a digit, and their digits are the digits
    that were grouped. *)
Lemma grouped_shape (t : char) (ds : jsstring) :
  isDigit t = false ->
  ds <> [] ->
  Forall (fun c => isDigit c = true) ds ->
  exists first rest,
    joined [t] ds = first :: rest /\ isDigit first = true /\
    Forall (sepOrDigit t) rest /\ first :: filter isDigit rest = ds.
Proof.
  intros Ht Hn H.
  pose proof (joined_sepOrDigit t ds H) as G.
  pose proof (digits_joined [t] ds H ltac:(repeat constructor; exact Ht)) as E.
  destruct ds as [|d r]; [contradiction|].
  pose proof (Forall_inv H) as Hd.
  unfold joined in *. cbn [group3 flat_map] in G, E |- *.
  rewrite (proj2 (isDigit_neq d "." Hd eq_refl)) in G, E |- *. cbn [app] in G, E |- *.
  cbn [filter] in E. rewrite Hd in E.
  eexists. eexists. split; [reflexivity|].
  split; [exact Hd|]. split; [exact (Forall_inv_tail G) | exact E].
Qed.

Lemma minus_not_shape (s : jsstring) : ~ AmountShape "," ("-"%char :: s).
Proof.
  intros (l & f & r & fr & E & Hl & Hf & _).
  destruct l as [|c l'].
  - injection E as <- _. discriminate Hf.
  - injection E as <- _. pose proof (Forall_inv Hl) as H. discriminate H.
Qed.

(** The number the refinement of [zAmountRaw] looks at in the string of a
    negative amount. *)
Lemma strippedNumber_negative (cfg : Config) (t : char) (D rest : jsstring) :
  defaultThousandsSeparator cfg = [t] -> isWhiteSpace t = true ->
  D <> [] -> Forall (fun c => isDigit c = true) D ->
  rest = [] \/ (exists F, rest = ","%char :: F /\ Forall (fun c => isDigit c = true) F) ->
  strippedNumber cfg (str "-" ++ joined [t] D ++ rest) = signedDecimal true (digitsValue D) 0.
Proof.
  intros Ht Hw HD HDd Hrest. rewrite (strippedNumber_whiteSpace cfg t _ Ht Hw).
  destruct (isWhiteSpace_other t Hw) as (Htd & _).
  rewrite !filter_app.
  rewrite (strip_spaceOrDigit (joined [t] D))
    by (apply (sepOrDigit_shape t); [exact Hw | apply joined_sepOrDigit; exact HDd]).
  rewrite digits_joined by (first [exact HDd | repeat constructor; exact Htd]).
  assert (Er : filter (fun c => negb (isWhiteSpace c)) rest = rest).
  { destruct Hrest as [->|(F & -> & HF)]; [reflexivity|].
    cbn [filter]. change (negb (isWhiteSpace ",")) with true. cbn iota. f_equal.
    apply filter_keeps. eapply Forall_impl; [|exact HF].
    intros c Hc. cbv beta. destruct (isDigit_other c Hc) as (-> & _). reflexivity. }
  rewrite Er. change (filter _ (str "-")) with (minus true).
  rewrite (parseFloat_digits true D rest HD HDd).
  - destruct Hrest as [->|(F & -> & _)]; cbn; rewrite app_nil_r; reflexivity.
  - destruct Hrest as [->|(F & -> & _)]; [exact I | reflexivity].
Qed.

Lemma negative_units (u : Z) :
  0 <= u <= 10 ^ 12 ->
  negb (isNaN (signedDecimal true u 0)) && greaterEq (signedDecimal true u 0) (ofZ 0)
  = (u =? 0).
Proof.
  intros Hu. rewrite isNaN_signedDecimal. cbn [negb andb].
  unfold signedDecimal. cbv zeta.
  assert (B : 10 ^ 12 <= 2 ^ 53) by (vm_compute; discriminate).
  rewrite (r64_comp _ (inject_Z u))
    by (change (Qpower (10 # 1) 0) with 1%Q; apply Qmult_1_r).
  rewrite r64_Z by lia. cbn [negate].
  destruct (Z.eqb_spec u 0) as [->|Hz]; [reflexivity|].
  rewrite Qeq_bool_false
    by (intros E; apply (proj1 (inject_Z_injective u 0)) in E; contradiction).
  unfold greaterEq, lessEq. change (ofZ 0) with (Fin 0). cbn [finite].
  apply Qle_bool_false. pose proof (inject_Z_ge1 u ltac:(lia)). lra.
Qed.

(** X19. Under the default separators the validators read what the
    formatter wrote: for [n] whole cents, not negative and at most
    [10^14], the string written with [showAlways] or [hideIfZero] is
    accepted by [zAmountIntegerWithDecimals] and gives [n]; the string
    written with [hideAlways] is accepted and gives the whole units, the
    cents dropped. For a negative amount down to [-10^14] the string is
    rejected, with the message of the pattern and, from a whole unit on,
    the message of the refinement too. *)
Theorem formatted_validates (cfg : Config) (big : bool) (n : Z) (policy : DecimalPolicy) :
  DefaultSeparators cfg -> Z.abs n <= 10 ^ 14 ->
  let amountString :=
    integerWithDecimalsToAmountString cfg (cents big n) None None (Some policy) in
  (0 <= n ->
   zAmountIntegerWithDecimals cfg amountString =
   Returns (Success (ofZ match policy with
                         | hideAlways => 100 * (n / 100)
                         | _ => n
                         end))) /\
  (n < 0 ->
   zAmountIntegerWithDecimals cfg amountString =
   Returns
     (Failure
        (str "Should be a positive number with optional two decimal places" ::
         if n <=? -100
         then [str "Should be a positive number with with optional two decimal places"]
         else []))).
Proof.
  intros Hsep Hb amountString. unfold amountString. clear amountString.
  destruct (default_separators cfg Hsep) as (t & Ht & Hd & Hw & _).
  destruct (isWhiteSpace_other t Hw) as (Htd & _).
  rewrite (format_default cfg big n t policy Hb Hd Ht Hw).
  pose proof (units_bound n Hb) as Hub.
  unfold zAmountIntegerWithDecimals, transform. split.
  - intros Hn. unfold unitsOf.
    replace (n <? 0) with false by (symmetry; apply Z.ltb_ge; exact Hn).
    rewrite (Z.abs_eq n Hn) in *. cbn [minus app].
    pose proof (Z.div_mod n 100 ltac:(lia)) as E.
    pose proof (Z.mod_pos_bound n 100 ltac:(lia)) as Hr.
    assert (Hk : 0 <= n / 100) by (apply Z.div_pos; lia).
    destruct (grouped_shape t (digits (n / 100)) Htd (digits_nonempty _) (digits_isDigit _))
      as (first & rest & -> & Hf & Hrest & Hv).
    assert (Hu : digitsValue (first :: filter isDigit rest) <= 10 ^ 12)
      by (rewrite Hv, digits_value by exact Hk; lia).
    assert (V : forall s k,
              zAmountRaw cfg s = Returns (Success s) ->
              amountStringToIntegerWithDecimals cfg s None None = Returns (ofZ k) ->
              (let* r := zAmountRaw cfg s in
               match r with
               | Success a =>
                   let* b := amountStringToIntegerWithDecimals cfg a None None in
                   Returns (Success b)
               | Failure messages => Returns (Failure messages)
               end) = Returns (Success (ofZ k))).
    { intros s k A B. rewrite A. cbn [bind]. rewrite B. reflexivity. }
    assert (U : zAmountRaw cfg ((first :: rest) ++ [])
                = Returns (Success ((first :: rest) ++ [])) /\
                amountStringToIntegerWithDecimals cfg ((first :: rest) ++ []) None None
                = Returns (ofZ (100 * (n / 100)))).
    { rewrite app_nil_r. split.
      - apply (zAmountRaw_shape cfg t _ Hd Ht Hw). exists [], first, rest, [].
        rewrite app_nil_r.
        repeat split; [constructor | exact Hf | apply (sepOrDigit_shape t); assumption
                      | left; reflexivity].
      - pose proof (read_units cfg t [] first rest [] Hd Ht Hw (Forall_nil _) Hf Hrest
                      (or_introl eq_refl) Hu) as R.
        rewrite app_nil_r in R. cbn [app] in R.
        rewrite R, Hv, digits_value by exact Hk. reflexivity. }
    assert (F : zAmountRaw cfg ((first :: rest) ++ str "," ++ fixedDigits 2 (n mod 100))
                = Returns (Success ((first :: rest) ++ str "," ++ fixedDigits 2 (n mod 100))) /\
                amountStringToIntegerWithDecimals cfg
                  ((first :: rest) ++ str "," ++ fixedDigits 2 (n mod 100)) None None
                = Returns (ofZ n)).
    { change ((first :: rest) ++ str "," ++ fixedDigits 2 (n mod 100))
        with ([] ++ first :: rest ++ ","%char :: fixedDigits 2 (n mod 100)).
      split.
      - apply (zAmountRaw_shape cfg t _ Hd Ht Hw).
        exists [], first, rest, (","%char :: fixedDigits 2 (n mod 100)).
        repeat split; [constructor | exact Hf | apply (sepOrDigit_shape t); assumption|].
        right. eexists. repeat split; [apply fixedDigits_isDigit|].
        rewrite fixedDigits_length. lia.
      - rewrite (read_fraction cfg t [] first rest (fixedDigits 2 (n mod 100)) Hd Ht Hw
                   (Forall_nil _) Hf Hrest (fixedDigits_isDigit _ _))
          by (first [rewrite fixedDigits_length; lia | exact Hu]).
        rewrite Hv, digits_value by exact Hk.
        unfold fractionCents. rewrite fixedDigits_length, fixedDigits_value.
        change (10 ^ Z.of_nat 2) with 100. change (10 ^ (2 - Z.of_nat 2)) with 1.
        rewrite Zmod_mod. f_equal. f_equal. lia. }
    destruct F as [F1 F2]. destruct U as [U1 U2].
    destruct policy; cbn [shownFraction].
    + destruct (Z.eqb_spec (n mod 100) 0) as [Hz|Hz].
      * apply V; [exact U1|]. rewrite U2. f_equal. f_equal. lia.
      * apply V; [exact F1 | exact F2].
    + apply V; [exact F1 | exact F2].
    + apply V; [exact U1 | exact U2].
  - intros Hn. unfold unitsOf.
    replace (n <? 0) with true by (symmetry; apply Z.ltb_lt; exact Hn).
    cbn [minus]. rewrite <- app_assoc.
    rewrite (zAmountRaw_default cfg t _ Hd Ht Hw).
    assert (T : test (amountPattern ",")
                  (str "-" ++ joined [t] (digits (Z.abs n / 100))
                     ++ shownFraction (str ",") policy (Z.abs n mod 100)) = false).
    { destruct (test _ _) eqn:T; [|reflexivity].
      apply test_Matches, Matches_amountPattern in T. apply minus_not_shape in T.
      contradiction. }
    rewrite T.
    rewrite (strippedNumber_negative cfg t _ _ Ht Hw (digits_nonempty _) (digits_isDigit _)).
    2:{ destruct policy; cbn [shownFraction].
        - destruct (_ =? 0); [left; reflexivity|].
          right. eexists. split; [reflexivity | apply fixedDigits_isDigit].
        - right. eexists. split; [reflexivity | apply fixedDigits_isDigit].
        - left. reflexivity. }
    rewrite digits_value, negative_units by lia.
    replace (n <=? -100) with (negb (Z.abs n / 100 =? 0)); [destruct (_ =? 0); reflexivity|].
    destruct (Z.leb_spec n (-100)) as [L|L].
    + apply negb_true_iff, Z.eqb_neq.
      assert (1 <= Z.abs n / 100) by (apply Z.div_le_lower_bound; lia). lia.
    + apply negb_false_iff, Z.eqb_eq, Z.div_small. lia.
Qed.

Lemma formatted_validates_witness :
  DefaultSeparators defaults /\ Z.abs 123456789 <= 10 ^ 14 /\
  0 <= 123456789 /\
  zAmountIntegerWithDecimals defaults
    (integerWithDecimalsToAmountString defaults (cents false 123456789) None None
       (Some showAlways))
  = Returns (Success (ofZ 123456789)).
Proof.
  assert (Hsep : DefaultSeparators defaults) by (split; [reflexivity | left; reflexivity]).
  assert (Hb : Z.abs 123456789 <= 10 ^ 14) by (vm_compute; discriminate).
  assert (Hn : 0 <= 123456789) by lia.
  split; [exact Hsep|]. split; [exact Hb|]. split; [exact Hn|].
  exact (proj1 (formatted_validates defaults false 123456789 showAlways Hsep Hb) Hn).
Defined.

(** ** Reading back what [toMoney] wrote *)

Lemma parseFloat_opaque (c : char) (s : jsstring) :
  opaqueChar c = true -> parseFloat (c :: s) = NaN.
Proof.
  unfold opaqueChar. change (str "+-.,I") with ["+"; "-"; "."; ","; "I"]%char.
  cbn [existsb]. intros H.
  apply negb_true_iff in H.
  apply orb_false_iff in H. destruct H as [H Hx].
  apply orb_false_iff in H. destruct H as [Hw Hd].
  apply orb_false_iff in Hx. destruct Hx as [Hplus Hx].
  apply orb_false_iff in Hx. destruct Hx as [Hminus Hx].
  apply orb_false_iff in Hx. destruct Hx as [Hdot Hx].
  apply orb_false_iff in Hx. destruct Hx as [_ Hx].
  apply orb_false_iff in Hx. destruct Hx as [HI _].
  unfold parseFloat, trimStart. cbn [span]. rewrite Hw. cbn [snd signOf].
  rewrite Hminus, Hplus. change (str "Infinity") with ("I"%char :: str "nfinity").
  cbn [startsWith]. rewrite (Char_eqb_sym "I" c), HI. cbn [andb span].
  rewrite Hd, Hdot. reflexivity.
Qed.

(** X21. With the symbol hidden, what [toMoney] writes can be read back:
    in a factory of cents under the default separators, [n] whole cents,
    [n] of at most [10^14] in absolute value, written by [toMoney] with
    [hideSymbol] and [showAlways], whatever the currency, the symbol, its
    position and its delimiter, are read by
    [amountStringToIntegerWithDecimals] as [n]. *)
Theorem toMoney_hidden_reads_back (cfg : Config) (big : bool) (n : Z) (props : Props.t) :
  DefaultSeparators cfg -> Z.abs n <= 10 ^ 14 ->
  orDefault (Props.amountType props) (defaultAmountType cfg) = integerWithDecimals ->
  Props.decimalPoint props = None ->
  Props.thousandsSeparator props = None ->
  Props.decimalPolicy props = Some showAlways ->
  Props.hideSymbol props = Some true ->
  amountStringToIntegerWithDecimals cfg (toMoney cfg (AmountAndRest (cents big n) props))
    None None
  = Returns (ofZ n).
Proof.
  intros Hsep Hn Ha Hp Hs Hpol Hh. destruct (default_separators cfg Hsep) as (t & Ht & Hd & Hw & _).
  rewrite toMoney_eq. cbn [toMoneyProps].
  rewrite Hh, Hp, Hs, Hpol. cbn [orDefault]. unfold centsAmount. rewrite Ha.
  assert (E : match Some (cents big n) with
              | Some (BigInt z) => BigInt z
              | _ => Number (Math_round (numberOf (Some (cents big n))))
              end = cents big n).
  { destruct big; cbn [cents numberOf]; [reflexivity|]. rewrite Math_round_ofZ. reflexivity. }
  rewrite E, (format_default cfg big n t showAlways Hn Hd Ht Hw).
  apply parse_default; assumption.
Qed.

Lemma toMoney_hidden_reads_back_witness :
  DefaultSeparators defaults /\ Z.abs (-123456789) <= 10 ^ 14 /\
  amountStringToIntegerWithDecimals defaults
    (toMoney defaults
       (AmountAndRest (cents true (-123456789))
          (Props.Build_t None (Some eur) None (Some showAlways) None None (Some after)
             (Some (str " ")) (Some true))))
    None None
  = Returns (ofZ (-123456789)).
Proof.
  assert (Hsep : DefaultSeparators defaults) by (split; [reflexivity | left; reflexivity]).
  assert (Hn : Z.abs (-123456789) <= 10 ^ 14) by (vm_compute; discriminate).
  split; [exact Hsep|]. split; [exact Hn|].
  exact (toMoney_hidden_reads_back defaults true (-123456789)
           (Props.Build_t None (Some eur) None (Some showAlways) None None (Some after)
              (Some (str " ")) (Some true))
           Hsep Hn eq_refl eq_refl eq_refl eq_refl eq_refl).
Defined.

(** X22. With its symbol in front, what [toMoney] writes cannot be read
    back: under the default separators, when the symbol is shown before
    the amount and begins with a character that is no white space, digit,
    sign, dot, comma or [I] (every built-in symbol does, and so does the
    text "undefined" of a missing symbol), [amountStringToIntegerWithDecimals]
    gives [NaN] for the result of [toMoney], whatever the amount and the
    other options. *)
Theorem toMoney_symbol_unreadable (cfg : Config) (amount : Amount) (props : Props.t)
    (c : char) (symbol : jsstring) :
  DefaultSeparators cfg ->
  orDefault (Props.hideSymbol props) false = false ->
  orDefault (Props.symbolPosition props) (defaultSymbolPosition cfg) = before ->
  ToString (resolvedSymbol cfg props) = c :: symbol ->
  opaqueChar c = true ->
  amountStringToIntegerWithDecimals cfg (toMoney cfg (AmountAndRest amount props)) None None
  = Returns NaN.
Proof.
  intros Hsep Hh Hpos Hsym Hc. destruct (default_separators cfg Hsep) as (t & Ht & Hd & Hw & _).
  destruct (whiteSpace_separator t Hw) as (_ & _ & _ & _ & _ & _ & Hsyn).
  rewrite toMoney_eq. cbn [toMoneyProps].
  rewrite Hh. unfold decorated. rewrite Hpos, Hsym. cbn [app].
  unfold amountStringToIntegerWithDecimals. cbn [orDefault].
  rewrite Hd, Ht, (RegExp_new_char t Hsyn).
  cbn [bind replaceAll]. rewrite replaceAllWord_char.
  assert (Hb : Char.eqb t c = false /\ Char.eqb "," c = false).
  { split.
    - destruct (Char_eqb_spec t c) as [<-|_]; [|reflexivity].
      unfold opaqueChar in Hc. rewrite Hw in Hc. discriminate Hc.
    - destruct (Char_eqb_spec "," c) as [<-|_]; [discriminate Hc | reflexivity]. }
  destruct Hb as [Hb Hcomma].
  cbn [filter]. rewrite Hb. cbn [negb].
  cbn [replaceFirst startsWith]. rewrite Hcomma. cbn [andb].
  rewrite (parseFloat_opaque c _ Hc). reflexivity.
Qed.

Lemma toMoney_symbol_unreadable_witness :
  DefaultSeparators defaults /\
  amountStringToIntegerWithDecimals defaults
    (toMoney defaults (AmountAndRest (Number (ofZ 1500)) Props.none)) None None
  = Returns NaN.
Proof.
  assert (Hsep : DefaultSeparators defaults) by (split; [reflexivity | left; reflexivity]).
  split; [exact Hsep|].
  exact (toMoney_symbol_unreadable defaults (Number (ofZ 1500)) Props.none "$" []
           Hsep eq_refl eq_refl eq_refl eq_refl).
Defined.

(** ** The decimal point of the validators *)

Lemma NonNegative_signedDecimal (m e : Z) : 0 <= m -> NonNegative (signedDecimal false m e).
Proof.
  intros Hm. unfold signedDecimal. apply NonNegative_r64. apply Qmult_le_0_compat.
  - change 0%Q with (inject_Z 0). rewrite <- Zle_Qle. exact Hm.
  - apply Qlt_le_weak, Qpower_0_lt. reflexivity.
Qed.

(** With any decimal point in the pattern, the refinement of [zAmountRaw]
    rejects nothing that the pattern accepts. *)
Lemma refinement_holds_at (cfg : Config) (d t : char) (s : jsstring) :
  defaultThousandsSeparator cfg = [t] -> isWhiteSpace t = true ->
  AmountShape d s -> NonNegative (strippedNumber cfg s).
Proof.
  intros Ht Hw (l & f & r & fr & -> & Hl & Hf & _).
  rewrite (strippedNumber_whiteSpace cfg t _ Ht Hw).
  destruct (isDigit_other f Hf) as (Hfw & _).
  rewrite filter_app, filter_drops
    by (eapply Forall_impl; [|exact Hl]; intros c Hc; cbv beta; rewrite Hc; reflexivity).
  cbn [app filter]. rewrite Hfw. cbn [negb].
  destruct (parseFloat_leading_digit f (filter (fun c => negb (isWhiteSpace c)) (r ++ fr)) Hf)
    as (m & e & Hm & E).
  replace (parseFloat _) with (signedDecimal false m e) by (symmetry; exact E).
  apply NonNegative_signedDecimal. exact Hm.
Qed.

(** X24. The validators take the dot for the decimal point whenever the
    decimal point of the factory is the dot or is not exactly one
    character long: with a thousands separator that is white space (the
    no-break space of the default, or the blank), [zAmountRaw] then
    accepts exactly the strings of the shape whose decimal point is the
    dot, whatever the decimal point the formatter writes, and rejects the
    others with the message of the pattern first. *)
Theorem validators_fall_back_to_dot (cfg : Config) (t : char) (s : jsstring) :
  defaultThousandsSeparator cfg = [t] -> isWhiteSpace t = true ->
  defaultDecimalPoint cfg = str "." \/ List.length (defaultDecimalPoint cfg) <> 1%nat ->
  (zAmountRaw cfg s = Returns (Success s) <-> AmountShape "." s) /\
  (~ AmountShape "." s ->
   exists messages,
     zAmountRaw cfg s =
     Returns
       (Failure
          (str "Should be a positive number with optional two decimal places" :: messages))).
Proof.
  intros Ht Hw Hd.
  assert (Hre : amountStringRegex cfg = Returns (amountPattern ".")).
  { unfold amountStringRegex, escapedDefaultDecimalPoint, safeDefaultDecimalPoint.
    destruct Hd as [-> | Hlen]; [reflexivity|].
    destruct (Nat.eqb_spec (List.length (defaultDecimalPoint cfg)) 1) as [E|_];
      [contradiction | reflexivity]. }
  unfold zAmountRaw, refine, string_regex. rewrite Hre. cbn [bind].
  destruct (test (amountPattern ".") s) eqn:T.
  - apply test_Matches, Matches_amountPattern in T.
    destruct (refinement_holds_at cfg "." t s Ht Hw T) as [H1 H2]. rewrite H1, H2.
    cbn [negb andb].
    split; [split; [intros _; exact T | reflexivity] | contradiction].
  - split.
    + split; [destruct (_ && _); discriminate|].
      intros H. apply Matches_amountPattern, test_Matches in H. congruence.
    + intros _. destruct (_ && _); eexists; reflexivity.
Qed.

Lemma validators_fall_back_to_dot_witness :
  zAmountRaw
    (createMoneyThings
       (Options.Build_t [usd] None None (Some (str ", ")) None None None None None))
    ("1"%char :: NBSP :: str "234.5")
  = Returns (Success ("1"%char :: NBSP :: str "234.5")).
Proof.
  assert (Hl : List.length (str ", ") <> 1%nat) by discriminate.
  assert (Hs : AmountShape "." ("1"%char :: NBSP :: str "234.5")).
  { apply Matches_amountPattern, test_Matches. vm_compute. reflexivity. }
  exact (proj2 (proj1 (validators_fall_back_to_dot
                         (createMoneyThings
                            (Options.Build_t [usd] None None (Some (str ", ")) None None None
                               None None))
                         NBSP ("1"%char :: NBSP :: str "234.5") eq_refl eq_refl
                         (or_intror Hl))) Hs).
Defined.

(** ** The defaults of the factory *)

(** X25. A factory created with its currencies only has the comma as
    decimal point and the no-break space, not the blank, as thousands
    separator: it writes 123456789 cents with no-break spaces between the
    groups, reads that string back, and reads the same amount written with
    blanks as 100, the blank not being removed and [parseFloat] stopping at
    it. *)
Theorem default_separator_no_break_space (cs : list Currency) :
  let cfg := createMoneyThings (onlyCurrencies cs) in
  defaultDecimalPoint cfg = str "," /\
  defaultThousandsSeparator cfg = [NBSP] /\
  integerWithDecimalsToAmountString cfg (Number (ofZ 123456789)) None None (Some showAlways)
    = str "1" ++ NBSP :: str "234" ++ NBSP :: str "567,89" /\
  amountStringToIntegerWithDecimals cfg
    (str "1" ++ NBSP :: str "234" ++ NBSP :: str "567,89") None None
    = Returns (ofZ 123456789) /\
  amountStringToIntegerWithDecimals cfg (str "1 234 567,89") None None = Returns (ofZ 100).
Proof.
  cbv zeta. repeat split; vm_compute; reflexivity.
Qed.
